(** * FirstMaccabees.py: the text-transformation passes, in Rocq

    A shallow embedding of [src/FirstMaccabees.py]: the Roman-numeral
    formatter, the regular-expression rewriting passes of [Chapter] and the
    template compositor.  A Python [str] is a list of Unicode code points, a
    Python [int] is a [Z], an uncaught exception is the [Raise] branch of
    [result]. *)

From Stdlib Require Import String Ascii DecimalString.
From Stdlib Require Import List ZArith NArith Bool Lia.
Import ListNotations.

Set Implicit Arguments.

(** ** Python values *)

(** A code point. *)
Notation char := N (only parsing).

(** A Python [str]: its code points. *)
Notation str := (list N) (only parsing).

(** The [str] written by an ASCII literal. *)
Definition text (s : string) : str :=
  map N_of_ascii (list_ascii_of_string s).

Definition LF : char := 10%N.
Definition backslash : char := 92%N.

Definition str_eq_dec : forall a b : str, {a = b} + {a <> b} :=
  list_eq_dec N.eq_dec.

Fixpoint str_eqb (a b : str) : bool :=
  match a, b with
  | [], [] => true
  | x :: a', y :: b' => N.eqb x y && str_eqb a' b'
  | _, _ => false
  end.

(** The exceptions the modelled code can raise. *)
Inductive exn : Type :=
| IndexError
| KeyError
| ValueError
| ReError.

(** The outcome of a call: a value, or an uncaught exception. *)
Inductive result (A : Type) : Type :=
| Return (a : A)
| Raise (e : exn).

Arguments Return {A} a.
Arguments Raise {A} e.

Definition bind {A B : Type} (r : result A) (f : A -> result B) : result B :=
  match r with
  | Return a => f a
  | Raise e => Raise e
  end.

Notation "x <- c ;; k" := (bind c (fun x => k))
  (at level 61, c at next level, right associativity).

(** [for i in range(n): acc = body(acc)]; an empty range when [n <= 0]. *)
Definition for_range {A : Type} (n : Z) (body : A -> A) (acc : A) : A :=
  Nat.iter (Z.to_nat n) body acc.

(** ** The Roman-numeral formatter *)

Module Roman.

Local Open Scope Z_scope.

(** [number_to_roman], lines 15-62.  [//] is floor division, which is
    [Z.div] for a positive divisor. *)
Definition number_to_roman (num : Z) : str :=
  let roman : str := [] in
  let thousands := num / 1000 in
  let roman := for_range thousands (fun r => r ++ text "m") roman in
  let num := num - thousands * 1000 in
  let hundreds := num / 100 in
  let roman :=
    if hundreds =? 9 then roman ++ text "cm"
    else if hundreds >=? 5 then
      for_range (hundreds - 5) (fun r => r ++ text "c") (roman ++ text "d")
    else if hundreds =? 4 then roman ++ text "cd"
    else for_range hundreds (fun r => r ++ text "c") roman in
  let num := num - hundreds * 100 in
  let tens := num / 10 in
  let roman :=
    if tens =? 9 then roman ++ text "xc"
    else if tens >=? 5 then
      for_range (tens - 5) (fun r => r ++ text "x") (roman ++ text "l")
    else if tens =? 4 then roman ++ text "xl"
    else for_range tens (fun r => r ++ text "x") roman in
  let num := num - tens * 10 in
  let roman :=
    if num =? 9 then roman ++ text "ix"
    else if num >=? 5 then
      for_range (num - 5) (fun r => r ++ text "i") (roman ++ text "v")
    else if num =? 4 then roman ++ text "iv"
    else for_range num (fun r => r ++ text "i") roman in
  roman.

(** A call of [number_to_roman] on an [int]: no statement of its body
    raises, so the call always returns. *)
Definition call_number_to_roman (num : Z) : result str :=
  Return (number_to_roman num).

(** *** The standard notation, from the specification's words *)

(** The numeral of one decimal digit, written with the symbols [one],
    [five] and [ten] of its rank: additive up to three, subtractive at four
    and nine. *)
Definition digit_numeral (one five ten : string) (d : Z) : str :=
  match d with
  | 1 => text one
  | 2 => text one ++ text one
  | 3 => text one ++ text one ++ text one
  | 4 => text one ++ text five
  | 5 => text five
  | 6 => text five ++ text one
  | 7 => text five ++ text one ++ text one
  | 8 => text five ++ text one ++ text one ++ text one
  | 9 => text one ++ text ten
  | _ => []
  end.

(** The standard lowercase numeral: the thousands as repeated "m", then the
    hundreds, tens and ones digits. *)
Definition standard_numeral (n : Z) : str :=
  concat (repeat (text "m") (Z.to_nat (n / 1000)))
  ++ digit_numeral "c" "d" "m" ((n / 100) mod 10)
  ++ digit_numeral "x" "l" "c" ((n / 10) mod 10)
  ++ digit_numeral "i" "v" "x" (n mod 10).

(** The value of one symbol. *)
Definition symbol_value (c : char) : option Z :=
  match c with
  | 105%N => Some 1     (* i *)
  | 118%N => Some 5     (* v *)
  | 120%N => Some 10    (* x *)
  | 108%N => Some 50    (* l *)
  | 99%N => Some 100    (* c *)
  | 100%N => Some 500   (* d *)
  | 109%N => Some 1000  (* m *)
  | _ => None
  end.

(** Re-expansion by the subtractive rule: a symbol standing before a larger
    one is subtracted, every other symbol is added. *)
Fixpoint roman_value (s : str) : option Z :=
  match s with
  | [] => Some 0
  | c :: rest =>
      match symbol_value c, roman_value rest with
      | Some v, Some r =>
          match rest with
          | [] => Some (v + r)
          | c' :: _ =>
              match symbol_value c' with
              | Some v' => if v <? v' then Some (r - v) else Some (v + r)
              | None => None
              end
          end
      | _, _ => None
      end
  end.

End Roman.

(** ** Python built-ins *)

Module Py.

Local Open Scope Z_scope.

(** [l[i]]: a negative index counts from the end; out of range raises
    [IndexError]. *)
Definition index {A : Type} (l : list A) (i : Z) : result A :=
  let n := Z.of_nat (length l) in
  let j := if i <? 0 then i + n else i in
  if (j <? 0) || (n <=? j) then Raise IndexError
  else match nth_error l (Z.to_nat j) with
       | Some a => Return a
       | None => Raise IndexError
       end.

(** [l[0] = v]. *)
Definition set_first {A : Type} (l : list A) (v : A) : result (list A) :=
  match l with
  | [] => Raise IndexError
  | _ :: rest => Return (v :: rest)
  end.

(** [str(n)] for an [int]. *)
Definition str_of_int (n : Z) : str :=
  text (NilZero.string_of_int (Z.to_int n)).

Definition is_digit (c : char) : bool := ((48 <=? c) && (c <=? 57))%N.

(** [int(s)] for a string of ASCII decimal digits, the only strings the
    script converts; [ValueError] on any other string. *)
Definition int_of_str (s : str) : result Z :=
  match s with
  | [] => Raise ValueError
  | _ =>
      if forallb is_digit s
      then Return (fold_left (fun acc c => 10 * acc + Z.of_N (c - 48)) s 0)
      else Raise ValueError
  end.

(** The code points [str.strip()] removes. *)
Definition is_space (c : char) : bool :=
  (((9 <=? c) && (c <=? 13)) || ((28 <=? c) && (c <=? 32))
   || (c =? 133) || (c =? 160) || (c =? 5760)
   || ((8192 <=? c) && (c <=? 8202)) || (c =? 8232) || (c =? 8233)
   || (c =? 8239) || (c =? 8287) || (c =? 12288))%N.

Fixpoint lstrip (s : str) : str :=
  match s with
  | c :: rest => if is_space c then lstrip rest else s
  | [] => []
  end.

(** [s.strip()]. *)
Definition strip (s : str) : str := rev (lstrip (rev (lstrip s))).

End Py.

(** ** The [re] module, as far as the script uses it *)

Module Re.

(** How a replacement template treats a backslash before an ASCII letter
    that is no known escape, such as the [\l] of [\lettrine] or the [\e] of
    [\end]: up to CPython 3.6 the two characters stand for themselves (with a
    deprecation warning), from 3.7 on [re.error] is raised. *)
Inductive dialect : Type :=
| Lenient
| Strict.

(** A character set [[...]], by its ranges. *)
Definition charset : Type := list (char * char).

Definition in_set (cs : charset) (c : char) : bool :=
  existsb (fun r => (fst r <=? c) && (c <=? snd r))%N cs.

(** The patterns of the script. *)
Inductive regex : Type :=
| Lit (l : str)            (* literal characters, escaped or not *)
| OneOf (cs : charset)     (* [...] and [...]{1} *)
| Star (cs : charset)      (* [...]*, greedy *)
| Plus (cs : charset)      (* [...]+, greedy *)
| Seq (r1 r2 : regex)
| Group (r : regex)        (* ( ... ), no nesting in the script *)
| Bos.                     (* ^ without MULTILINE *)

Fixpoint groups_of (r : regex) : nat :=
  match r with
  | Seq r1 r2 => groups_of r1 + groups_of r2
  | Group r1 => S (groups_of r1)
  | _ => 0
  end.

(** What is left of [s] after its prefix [l]. *)
Fixpoint strip_prefix (l s : str) : option str :=
  match l, s with
  | [], _ => Some s
  | x :: l', y :: s' => if N.eqb x y then strip_prefix l' s' else None
  | _ :: _, [] => None
  end.

Section Matching.

(** A match of the rest of the pattern: what it leaves of the subject and
    the groups closed so far. *)
Definition outcome : Type := option (str * list str).

(** The length of the whole subject, for [^]. *)
Variable subject_length : nat.

(** A greedy repetition: the longest run first, then shorter ones. *)
Fixpoint greedy (cs : charset) (s : str) (k : str -> outcome) : outcome :=
  match s with
  | c :: s' =>
      if in_set cs c
      then match greedy cs s' k with
           | Some o => Some o
           | None => k s
           end
      else k s
  | [] => k []
  end.

(** Backtracking match of [r] at the head of [s], then of the
    continuation [k]. *)
Fixpoint rmatch (r : regex) (s : str) (gs : list str)
    (k : str -> list str -> outcome) : outcome :=
  match r with
  | Lit l =>
      match strip_prefix l s with
      | Some rest => k rest gs
      | None => None
      end
  | OneOf cs =>
      match s with
      | c :: s' => if in_set cs c then k s' gs else None
      | [] => None
      end
  | Star cs => greedy cs s (fun rest => k rest gs)
  | Plus cs =>
      match s with
      | c :: s' =>
          if in_set cs c then greedy cs s' (fun rest => k rest gs) else None
      | [] => None
      end
  | Seq r1 r2 => rmatch r1 s gs (fun rest gs' => rmatch r2 rest gs' k)
  | Group r1 =>
      rmatch r1 s gs
        (fun rest gs' =>
           k rest (gs' ++ [firstn (length s - length rest) s]))
  | Bos => if Nat.eqb (length s) subject_length then k s gs else None
  end.

(** A match starting exactly at the head of [s]: the matched text, the
    groups, and the rest of the subject. *)
Definition match_here (r : regex) (s : str) : option (str * list str * str) :=
  match rmatch r s [] (fun rest gs => Some (rest, gs)) with
  | Some (rest, gs) => Some (firstn (length s - length rest) s, gs, rest)
  | None => None
  end.

End Matching.

(** *** Replacement templates *)

Inductive titem : Type :=
| TChar (c : char)
| TGroup (n : nat).

Definition is_octdigit (c : char) : bool := ((48 <=? c) && (c <=? 55))%N.

Definition is_ascii_letter (c : char) : bool :=
  (((65 <=? c) && (c <=? 90)) || ((97 <=? c) && (c <=? 122)))%N.

Definition digit_value (c : char) : nat := N.to_nat (c - 48).

(** The escapes with a meaning of their own: [\a \b \f \n \r \t \v \\]. *)
Definition known_escape (c : char) : option char :=
  match c with
  | 97%N => Some 7%N
  | 98%N => Some 8%N
  | 102%N => Some 12%N
  | 110%N => Some 10%N
  | 114%N => Some 13%N
  | 116%N => Some 9%N
  | 118%N => Some 11%N
  | 92%N => Some 92%N
  | _ => None
  end.

Definition is_identifier (name : str) : bool :=
  match name with
  | c :: rest =>
      (is_ascii_letter c || N.eqb c 95)
      && forallb (fun x => is_ascii_letter x || Py.is_digit x || N.eqb x 95) rest
  | [] => false
  end.

(** The group a name inside [\g<...>] stands for.  No pattern of the script
    names a group, so an identifier is an unknown group name
    ([IndexError]); a name of ASCII digits is a group number; any other name
    is taken as a bad group name. *)
Definition group_of_name (name : str) (rest : str) : result nat :=
  if is_identifier name then
    (* the tokenizer has already read past the [>]: a lone backslash
       ending the template is reported first *)
    match rest with
    | [92%N] => Raise ReError
    | _ => Raise IndexError
    end
  else if forallb Py.is_digit name then
    Return (fold_left (fun acc c => 10 * acc + digit_value c)%nat name 0%nat)
  else Raise ReError.

Definition emit (i : titem) (r : result (list titem)) : result (list titem) :=
  items <- r ;; Return (i :: items).

Definition emit_group (ngroups n : nat) (r : result (list titem))
  : result (list titem) :=
  if Nat.ltb ngroups n then Raise ReError else emit (TGroup n) r.

(** [parse_template] of CPython's [re]: the template as literal characters
    and group references, for a pattern with [ngroups] groups.  [name] holds
    the characters read so far inside a [\g<...>]. *)
Fixpoint parse_template (d : dialect) (ngroups : nat) (name : option str)
    (s : str) : result (list titem) :=
  match name with
  | Some nm =>
      match s with
      | [] => Raise ReError
      | c :: s' =>
          if N.eqb c 62 then
            match nm with
            | [] => Raise ReError
            | _ =>
                n <- group_of_name nm s' ;;
                emit_group ngroups n (parse_template d ngroups None s')
            end
          else if N.eqb c 92 then Raise ReError
          else parse_template d ngroups (Some (nm ++ [c])) s'
      end
  | None =>
      match s with
      | [] => Return []
      | c :: s' =>
          if negb (N.eqb c 92) then emit (TChar c) (parse_template d ngroups None s')
          else
            match s' with
            | [] => Raise ReError
            | e :: s2 =>
                if N.eqb e 103 then
                  match s2 with
                  | 60%N :: s3 => parse_template d ngroups (Some []) s3
                  | _ => Raise ReError
                  end
                else if N.eqb e 48 then
                  match s2 with
                  | o1 :: s3 =>
                      if is_octdigit o1 then
                        match s3 with
                        | o2 :: s4 =>
                            if is_octdigit o2 then
                              emit (TChar (N.land ((o1 - 48) * 8 + (o2 - 48)) 255)%N)
                                   (parse_template d ngroups None s4)
                            else emit (TChar (o1 - 48)%N)
                                      (parse_template d ngroups None s3)
                        | [] => emit (TChar (o1 - 48)%N)
                                     (parse_template d ngroups None s3)
                        end
                      else emit (TChar 0%N) (parse_template d ngroups None s2)
                  | [] => emit (TChar 0%N) (parse_template d ngroups None s2)
                  end
                else if Py.is_digit e then
                  match s2 with
                  | d2 :: s3 =>
                      if Py.is_digit d2 then
                        match s3 with
                        | d3 :: s4 =>
                            if is_octdigit e && is_octdigit d2 && is_octdigit d3
                            then
                              let v := ((e - 48) * 64 + (d2 - 48) * 8 + (d3 - 48))%N in
                              if (255 <? v)%N then Raise ReError
                              else emit (TChar v) (parse_template d ngroups None s4)
                            else emit_group ngroups
                                   (10 * digit_value e + digit_value d2)
                                   (parse_template d ngroups None s3)
                        | [] => emit_group ngroups
                                  (10 * digit_value e + digit_value d2)
                                  (parse_template d ngroups None s3)
                        end
                      else emit_group ngroups (digit_value e)
                             (parse_template d ngroups None s2)
                  | [] => emit_group ngroups (digit_value e)
                            (parse_template d ngroups None s2)
                  end
                else
                  match known_escape e with
                  | Some c' => emit (TChar c') (parse_template d ngroups None s2)
                  | None =>
                      if is_ascii_letter e then
                        match d with
                        | Strict => Raise ReError
                        | Lenient =>
                            emit (TChar c)
                              (emit (TChar e) (parse_template d ngroups None s2))
                        end
                      else emit (TChar c)
                             (emit (TChar e) (parse_template d ngroups None s2))
                  end
            end
      end
  end.

(** [expand_template]: [groups] holds the whole match first, then the
    groups in order. *)
Definition expand (items : list titem) (groups : list str) : str :=
  flat_map (fun i => match i with
                     | TChar c => [c]
                     | TGroup n => nth n groups []
                     end) items.

(** *** Scanning *)

Section Scanning.

Variable r : regex.

(** Leftmost non-overlapping matches, each replaced by the expanded
    template.  [skip] counts the characters of the last match still to be
    passed over.  No pattern of the script matches the empty string; a
    zero-length match is passed over as no match. *)
Fixpoint scan_sub (items : list titem) (n : nat) (skip : nat) (s : str) : str :=
  match s with
  | [] => []
  | c :: s' =>
      match skip with
      | S k => scan_sub items n k s'
      | O =>
          match match_here n r s with
          | Some (m, gs, _) =>
              match length m with
              | S k => expand items (m :: gs) ++ scan_sub items n k s'
              | O => c :: scan_sub items n 0 s'
              end
          | None => c :: scan_sub items n 0 s'
          end
      end
  end.

(** The matched texts, leftmost first, without overlap. *)
Fixpoint scan_all (n : nat) (skip : nat) (s : str) : list str :=
  match s with
  | [] => []
  | c :: s' =>
      match skip with
      | S k => scan_all n k s'
      | O =>
          match match_here n r s with
          | Some (m, _, _) =>
              match length m with
              | S k => m :: scan_all n k s'
              | O => scan_all n 0 s'
              end
          | None => scan_all n 0 s'
          end
      end
  end.

End Scanning.

(** [re.sub(pattern, repl, string)].  The template is compiled before the
    scan, so a bad template raises even where nothing matches. *)
Definition sub (d : dialect) (r : regex) (repl : str) (s : str) : result str :=
  items <- parse_template d (groups_of r) None repl ;;
  Return (scan_sub r items (length s) 0 s).

(** [re.findall(pattern, string)] for a pattern without groups. *)
Definition findall (r : regex) (s : str) : list str :=
  scan_all r (length s) 0 s.

(** [re.search(pattern, string)], as a truth value: some position has a
    match. *)
Definition search (r : regex) (s : str) : bool :=
  match findall r s with
  | [] => false
  | _ => true
  end.

End Re.

(** ** The script *)

(** What the script's behaviour depends on in the interpreter: the template
    dialect of [re], the order in which a [set] of strings is iterated, and
    the order in which the items of a [dict] are. *)
Record runtime : Type := {
  escapes : Re.dialect;
  list_of_set : list str -> list str;
  dict_items : list (char * str) -> list (char * str)
}.

(** [list(set(l))] holds the elements of [l], each once, in some order. *)
Definition set_iteration (f : list str -> list str) : Prop :=
  forall l, NoDup (f l) /\ (forall x, In x (f l) <-> In x l).

(** [d.items()] holds the items of the dict, in some order. *)
Definition dict_iteration (f : list (char * str) -> list (char * str)) : Prop :=
  forall l, NoDup (map fst l) ->
            NoDup (f l) /\ (forall x, In x (f l) <-> In x l).

(** [for x in l: acc = body(acc, x)], stopping at the first exception. *)
Fixpoint for_each {A S : Type} (l : list A) (body : S -> A -> result S)
    (acc : S) : result S :=
  match l with
  | [] => Return acc
  | x :: rest => acc' <- body acc x ;; for_each rest body acc'
  end.

(** [list(map(f, l))], stopping at the first exception. *)
Fixpoint map_result {A B : Type} (f : A -> result B) (l : list A)
  : result (list B) :=
  match l with
  | [] => Return []
  | x :: rest => y <- f x ;; ys <- map_result f rest ;; Return (y :: ys)
  end.

(** [range(n)]. *)
Definition range (n : nat) : list Z := map Z.of_nat (seq 0 n).

Module Chapter.

Import Re.
Local Open Scope Z_scope.

Definition digits : charset := [(48, 57)%N].
Definition letters : charset := [(65, 90)%N; (97, 122)%N].

(** ['\[[0-9]+\]'] *)
Definition marker_re : regex :=
  Seq (Lit (text "[")) (Seq (Plus digits) (Lit (text "]"))).

(** ['[\[\]]'] *)
Definition bracket_re : regex := OneOf [(91, 91)%N; (93, 93)%N].

(** ['\[[0-9]+\] '] *)
Definition note_prefix_re : regex :=
  Seq (Lit (text "[")) (Seq (Plus digits) (Lit (text "] "))).

(** ['(\\' + found[:-1] + '\])'], for a [found] that [marker_re] matched:
    the backslash escapes its bracket, its digits stand for themselves. *)
Definition found_re (found : str) : regex :=
  Group (Seq (Lit (removelast found)) (Lit (text "]"))).

(** ['([0-9]+)  '] *)
Definition verse_spaces_re : regex :=
  Seq (Group (Plus digits)) (Lit (text "  ")).

(** ['\\xa0'] *)
Definition nbsp_re : regex := Lit [160%N].

(** ['  '] *)
Definition two_spaces_re : regex := Lit (text "  ").

(** ['([0-9]+)~'] *)
Definition verse_re : regex := Seq (Group (Plus digits)) (Lit (text "~")).

(** The pattern of line 200: [^1~], a group of one letter [[A-Za-z]{1}], a
    group of letters [[A-Za-z]*], a space. *)
Definition dropcap_re : regex :=
  Seq Bos (Seq (Lit (text "1~"))
    (Seq (Group (OneOf letters)) (Seq (Group (Star letters)) (Lit (text " "))))).

(** The text ['\\StartOfLatin\n\n'] matches. *)
Definition latin_anchor : str := text "\StartOfLatin" ++ [LF; LF].

(** The text ['\\StartOfEnglish\n\n'] matches. *)
Definition english_anchor : str := text "\StartOfEnglish" ++ [LF; LF].

(** The text ['\\chapter\*\{\}\n\n'] matches. *)
Definition chapter_anchor : str := text "\chapter*{}" ++ [LF; LF].

(** ['(\\\\StartOfLatin\\n\\n)'] and its like: a group around an anchor. *)
Definition anchor_re (anchor : str) : regex := Group (Lit anchor).

(** A chapter, once constructed. *)
Record chapter : Type := {
  number : Z;
  footnotes : list str;
  latin_pars : list str;
  english_pars : list str
}.

Section Methods.

Variable py : runtime.

(** The table [unicode_to_latex.unicode_to_latex], of a module that is not
    among the sources: a parameter. *)
Variable unicode_to_latex : char -> option str.

Definition lookup (key : char) : result str :=
  match unicode_to_latex key with
  | Some v => Return v
  | None => Raise KeyError
  end.

Definition re_sub : regex -> str -> str -> result str := Re.sub (escapes py).

(** One turn of the loop of [add_footnotes_to_text], lines 172-175. *)
Definition splice_footnote (footnotes : list str) (paragraph found : str)
  : result str :=
  bare <- re_sub bracket_re (text "") found ;;
  footnote_number <- Py.int_of_str bare ;;
  note <- Py.index footnotes (footnote_number - 1) ;;
  body <- re_sub note_prefix_re (text "") note ;;
  re_sub (found_re found)
         (text "\\\\footnote\1{" ++ body ++ text "}")
         paragraph.

(** [add_footnotes_to_text], lines 168-176. *)
Definition add_footnotes_to_text (footnotes : list str) (paragraph : str)
  : result str :=
  if Re.search marker_re paragraph then
    let footnotes_found := list_of_set py (Re.findall marker_re paragraph) in
    for_each footnotes_found (splice_footnote footnotes) paragraph
  else Return paragraph.

(** [fix_spacing_around_verse_numbers], lines 186-191. *)
Definition fix_spacing_around_verse_numbers (paragraph : str) : result str :=
  paragraph <- re_sub verse_spaces_re (text "\1~") paragraph ;;
  paragraph <- re_sub nbsp_re (text "~") paragraph ;;
  re_sub two_spaces_re (text " ") paragraph.

(** [turn_verse_numbers_red], lines 193-196. *)
Definition turn_verse_numbers_red (paragraph : str) : result str :=
  re_sub verse_re (text "\\\\textcolor{benred8}{\1}~") paragraph.

(** [do_dropcaps], lines 198-203.  The subscript on the right is
    evaluated before [re.sub] is called. *)
Definition do_dropcaps (list_of_paragraphs : list str) (lines : Z)
  : result (list str) :=
  first <- Py.index list_of_paragraphs 0 ;;
  first <- re_sub dropcap_re
             (text "\lettrine[lines=" ++ Py.str_of_int lines
              ++ text "]{\1}{\2} ")
             first ;;
  Py.set_first list_of_paragraphs first.

(** [latexify_certain_ones], lines 210-222. *)
Definition latexify_certain_ones (paragraph : str) (footnote : bool)
  : result str :=
  let footnote_backslashes := if footnote then text "\\\\" else text "" in
  apostrophe <- lookup 39%N ;;
  ellipsis <- lookup 8230%N ;;
  grave <- lookup 96%N ;;
  let ones := [ (8217%N, apostrophe);
                (8230%N, Py.strip ellipsis ++ text "\\ ");
                (8216%N, grave) ] in
  for_each (dict_items py ones)
    (fun paragraph item =>
       re_sub (Lit [fst item])
              (footnote_backslashes ++ text "\\\" ++ snd item)
              paragraph)
    paragraph.

(** [get_text_from_soup], lines 152-166, from the texts of the table
    cells the markup query returns for the language. *)
Definition get_text_from_soup (number : Z) (footnotes : list str)
    (cells : list str) : result (list str) :=
  let paragraphs := map Py.strip cells in
  paragraphs <- map_result fix_spacing_around_verse_numbers paragraphs ;;
  paragraphs <- (if number =? 1 then do_dropcaps paragraphs 3
                 else do_dropcaps paragraphs 2) ;;
  paragraphs <- map_result turn_verse_numbers_red paragraphs ;;
  paragraphs <- map_result (fun x => latexify_certain_ones x false) paragraphs ;;
  map_result (add_footnotes_to_text footnotes) paragraphs.

(** ['\n\\pend\\pstart\n'] *)
Definition separator : str := [LF] ++ text "\pend\pstart" ++ [LF].

(** The heading template of [insert_into_template]. *)
Definition heading_template (number : Z) : str :=
  text "\1\\begin{large}\\begin{center}" ++ Py.str_of_int number
  ++ text "\end{center}\end{large}" ++ [LF].

(** [insert_into_template], lines 224-240. *)
Definition insert_into_template (self : chapter) (template : str)
  : result str :=
  template <-
    for_each (range (length (latin_pars self)))
      (fun template i =>
         latin <- Py.index (latin_pars self) (-1 - i) ;;
         template <- re_sub (anchor_re latin_anchor)
                       (text "\1" ++ separator ++ latin) template ;;
         english <- Py.index (english_pars self) (-1 - i) ;;
         re_sub (anchor_re english_anchor)
           (text "\1" ++ separator ++ english) template)
      template ;;
  template <- re_sub (anchor_re latin_anchor)
                (heading_template (number self)) template ;;
  re_sub (anchor_re english_anchor) (heading_template (number self)) template.

(** [insert_just_english_into_template], lines 242-251. *)
Definition insert_just_english_into_template (self : chapter)
    (template : str) : result str :=
  template <-
    for_each (range (length (english_pars self)))
      (fun template i =>
         english <- Py.index (english_pars self) (-1 - i) ;;
         re_sub (anchor_re chapter_anchor)
           (text "\1" ++ english ++ [LF]) template)
      template ;;
  re_sub (anchor_re chapter_anchor)
    (text "\1\\begin{large}\\begin{center}\\textsc{Chapter "
     ++ Roman.number_to_roman (number self)
     ++ text "}\end{center}\end{large}" ++ [LF])
    template.

(** The loop of the main program, lines 270-272, over the insertion
    method [insert]: the chapters are taken last first. *)
Definition reverse_chapter_loop
    (insert : chapter -> str -> result str)
    (chapters : list chapter) (output : str) : result str :=
  for_each (range (length chapters))
    (fun output i =>
       c <- Py.index chapters (-1 - i) ;;
       insert c output)
    output.

End Methods.

End Chapter.

(** An interpreter of the lenient dialect whose sets iterate in the order
    of the list they were made from and whose dicts iterate in the order
    their items are written in. *)
Definition lenient_runtime : runtime :=
  {| escapes := Re.Lenient;
     list_of_set := nodup str_eq_dec;
     dict_items := fun l => l |}.

(** The same with the strict dialect. *)
Definition strict_runtime : runtime :=
  {| escapes := Re.Strict;
     list_of_set := nodup str_eq_dec;
     dict_items := fun l => l |}.

(** A table with the three entries the script reads. *)
Definition sample_table (key : char) : option str :=
  match key with
  | 39%N => Some (text "\textquotesingle ")
  | 8230%N => Some (text "\ldots ")
  | 96%N => Some (text "\textasciigrave ")
  | _ => None
  end.

(** ** The notions the properties are stated with *)

Module Vocabulary.

Import Re Chapter.

(** No backslash in [s]. *)
Definition plain (s : str) : Prop := Forall (fun c => c <> backslash) s.

(** A number: a non-empty string of ASCII digits. *)
Definition is_number (ds : str) : Prop :=
  ds <> [] /\ Forall (fun c => Py.is_digit c = true) ds.

(** No opening bracket in [s]. *)
Definition bracket_free (s : str) : Prop := ~ In 91%N s.

(** A footnote without its ["[n] "] prefixes: the result of the inner
    [re.sub] of line 174. *)
Definition note_body (note : str) : str :=
  scan_sub note_prefix_re [] (length note) 0 note.

(** The footnote gives a well-formed replacement template. *)
Definition note_ok (d : dialect) (note : str) : Prop :=
  exists items,
    parse_template d 1 None (note_body note ++ text "}") = Return items.


(** The template [tpl], closed by the brace of line 174, stands for the
    plain text [txt]. *)
Definition stands_for (d : dialect) (tpl txt : str) : Prop :=
  parse_template d 1 None (tpl ++ text "}")
  = Return (map TChar (txt ++ text "}")).


(** What the heading template puts after the anchor. *)
Definition heading_text (number : Z) : str :=
  text "\begin{large}\begin{center}" ++ Py.str_of_int number
  ++ text "\end{center}\end{large}" ++ [LF].

(** A paragraph as the lenient template expansion renders it. *)
Definition rendered (par : str) : str :=
  match parse_template Lenient 1 None par with
  | Return items => expand items []
  | Raise _ => []
  end.

(** The paragraph is a well-formed template without group reference: it
    stands for the text it is rendered as. *)
Definition insertable (par : str) : Prop :=
  parse_template Lenient 1 None par = Return (map TChar (rendered par)).

(** A paragraph behind its separator. *)
Definition separated (par : str) : str := separator ++ rendered par.

(** The heading of a chapter and its paragraphs. *)
Definition block (number : Z) (pars : list str) : str :=
  heading_text number ++ flat_map separated pars.

(** The Latin block of a chapter. *)
Definition latin_block (c : chapter) : str :=
  block (number c) (latin_pars c).

(** Its English block. *)
Definition english_block (c : chapter) : str :=
  block (number c) (english_pars c).

(** The two paragraph lists of the chapter are parallel, one English
    paragraph for each Latin one, and all paragraphs are insertable. *)
Definition parallel (c : chapter) : Prop :=
  length (latin_pars c) = length (english_pars c)
  /\ Forall insertable (latin_pars c)
  /\ Forall insertable (english_pars c).

(** The template [pre ++ latin_anchor ++ mid ++ english_anchor ++ post]
    with the blocks of the chapters after each anchor, in the order of the
    list. *)
Definition composed (pre mid post : str) (chapters : list chapter) : str :=
  pre ++ latin_anchor ++ flat_map latin_block chapters
  ++ mid ++ english_anchor ++ flat_map english_block chapters ++ post.

End Vocabulary.

(** ** The rest of the script: pages, the book and the main program *)

(** What the script reads off a page, by its three markup queries. *)
Record soup : Type := {
  (* find_all('td', class_=c): the text of each cell found *)
  td_texts : str -> list str;
  (* find_all('ul', class_='bibleul'): for each list found, the text of each
     of its find_all('p') *)
  ul_paragraphs : list (list str);
  (* find_all('a', class_='biblechapter'): the href of each link found, if
     the link has one *)
  chapter_links : list (option str)
}.

(** [d[key]] for a [dict] written as its items: [KeyError] without the
    key. *)
Fixpoint dict_get {K V : Type} (eqb : K -> K -> bool) (d : list (K * V))
    (key : K) : result V :=
  match d with
  | [] => Raise KeyError
  | (k, v) :: rest => if eqb k key then Return v else dict_get eqb rest key
  end.

(** The construction of a [Chapter] from the soup of its page. *)
Module Page.

Import Chapter.
Local Open Scope Z_scope.

Definition LANGUAGE_IDS : list (str * Z) :=
  [(text "latin", 3); (text "english", 2); (text "greek", 1)].

Section Methods.

Variable py : runtime.
Variable unicode_to_latex : char -> option str.

(** [webpage_to_soup], lines 69-73: the soup of the page behind a URL, or
    the exception of the request. *)
Variable webpage_to_soup : str -> result soup.

(** [get_footnotes_from_soup], lines 178-184: the paragraphs of the first
    footnote list but the last one. *)
Definition get_footnotes_from_soup (page : soup) : result (list str) :=
  first_ul <- Py.index (ul_paragraphs page) 0 ;;
  let footnotes := removelast first_ul in
  let footnotes := map Py.strip footnotes in
  map_result (fun x => latexify_certain_ones py unicode_to_latex x true)
    footnotes.

(** [get_text_from_soup], lines 152-166, with the query of lines 154-155
    that finds the cells of the language. *)
Definition get_text_from_soup (number : Z) (footnotes : list str)
    (page : soup) (language : str) : result (list str) :=
  language_id <- dict_get str_eqb LANGUAGE_IDS language ;;
  let paragraphs :=
    td_texts page (text "bibletd" ++ Py.str_of_int language_id) in
  Chapter.get_text_from_soup py unicode_to_latex number footnotes paragraphs.

(** [Chapter.__init__], lines 137-150: without a soup the page is
    fetched; then the footnotes, the Latin and the English paragraphs.  Of
    the fields the record [chapter] keeps those the passes read. *)
Definition __init__ (url filename : str) (number : Z)
    (book_title book_dirname : str) (soup : option soup) : result chapter :=
  page <- match soup with
          | Some page => Return page
          | None => webpage_to_soup url
          end ;;
  footnotes <- get_footnotes_from_soup page ;;
  latin_pars <- get_text_from_soup number footnotes page (text "latin") ;;
  english_pars <- get_text_from_soup number footnotes page (text "english") ;;
  Return {| number := number;
            footnotes := footnotes;
            latin_pars := latin_pars;
            english_pars := english_pars |}.

End Methods.

End Page.

Module Book.

Import Re Chapter.
Local Open Scope Z_scope.

Definition URL_STEM : str := text "http://www.newadvent.org/bible/".

Definition ORDINALS : list (Z * str) :=
  [(1, text "First"); (2, text "Second"); (3, text "Third");
   (4, text "Fourth"); (5, text "Fifth")].

(** [' '] *)
Definition space_re : regex := Lit (text " ").

(** ['^[0-9]+_'] *)
Definition numbered_re : regex :=
  Seq Bos (Seq (Plus digits) (Lit (text "_"))).

(** ['^[0-9]*'].  The pattern matches the empty string, which the scans
    pass over; the script uses it only on a title that ['^[0-9]+_'] has
    matched, where its match at the start is not empty and [^] allows no
    other. *)
Definition initial_re : regex := Seq Bos (Star digits).

(** ['chapter\*\{'] *)
Definition title_re : regex := Lit (text "chapter*{").

(** The dict [chapter_urls] of [get_chapter_urls]. *)
Record chapter_urls : Type := {
  urls : list str;
  filenames : list str
}.

(** [x['href']] for a link. *)
Definition href (x : option str) : result str :=
  match x with
  | Some h => Return h
  | None => Raise KeyError
  end.

(** [get_number_of_chapters], lines 107-110. *)
Definition get_number_of_chapters (page : soup) : Z :=
  Z.of_nat (length (chapter_links page)) + 1.

(** [get_chapter_urls], lines 112-118. *)
Definition get_chapter_urls (start_url start_filename : str)
    (start_soup : soup) : result chapter_urls :=
  let chapters := chapter_links start_soup in
  more_urls <-
    map_result (fun x => h <- href x ;; Return (URL_STEM ++ skipn 2 h))
      chapters ;;
  more_filenames <-
    map_result (fun x => h <- href x ;; Return (skipn 2 h)) chapters ;;
  Return {| urls := [start_url] ++ more_urls;
            filenames := [start_filename] ++ more_filenames |}.

Section Methods.

Variable py : runtime.
Variable unicode_to_latex : char -> option str.

(** [str.lower] of the interpreter. *)
Variable lower : str -> str.

(** [webpage_to_soup], lines 69-73. *)
Variable webpage_to_soup : str -> result soup.

(** [title_to_dirname], lines 126-134. *)
Definition title_to_dirname (title : str) : result str :=
  title <- re_sub py space_re (text "_") title ;;
  title <-
    (if Re.search numbered_re title then
       let initial_numbers := Re.findall initial_re title in
       first <- Py.index initial_numbers 0 ;;
       n <- Py.int_of_str first ;;
       ord <- dict_get Z.eqb ORDINALS n ;;
       re_sub py initial_re ord title
     else Return title) ;;
  Return (lower title).

(** [create_chapters], lines 99-105, from the book's [number_of_chapters],
    [chapter_urls], [title] and [dirname]; [self.chapters] starts empty. *)
Definition create_chapters (number_of_chapters : Z) (cu : chapter_urls)
    (title dirname : str) : result (list chapter) :=
  for_each (range (Z.to_nat number_of_chapters))
    (fun chapters i =>
       url <- Py.index (urls cu) i ;;
       filename <- Py.index (filenames cu) i ;;
       c <- Page.__init__ py unicode_to_latex webpage_to_soup
              url filename (i + 1) title dirname None ;;
       Return (chapters ++ [c]))
    [].

End Methods.

End Book.

(** The main program. *)
Module Main.

Import Re Chapter.

(** What the main program reads of a [Book]. *)
Record book : Type := {
  title : str;
  dirname : str;
  chapters : list chapter
}.

Section Program.

Variable py : runtime.

(** Lines 270-277, for the list [BOOKS] as the construction of the book
    left it and the text of the template file: the name of the file written,
    and what is written into it. *)
Definition main (BOOKS : list book) (template_just_english : str)
  : result (str * str) :=
  let output := template_just_english in
  first <- Py.index BOOKS 0 ;;
  output <-
    reverse_chapter_loop (insert_just_english_into_template py)
      (chapters first) output ;;
  output <- re_sub py Book.title_re (text "chapter*{" ++ title first) output ;;
  Return (dirname first ++ text ".tex", output).

End Program.

End Main.

(** ** More notions the properties are stated with *)

Module Terms.

Import Re Chapter.

(** The positions of [s], counted from [i], at which [l] begins. *)
Fixpoint positions_from (l : str) (i : nat) (s : str) : list nat :=
  match s with
  | [] => []
  | _ :: s' =>
      (match strip_prefix l s with
       | Some _ => [i]
       | None => []
       end) ++ positions_from l (S i) s'
  end.

(** The positions of [s] at which [l] begins. *)
Definition positions (l s : str) : list nat := positions_from l 0 s.

(** In the lenient dialect the template [tpl] holds no group reference and
    stands for the text [txt]. *)
Definition literal (groups : nat) (tpl txt : str) : Prop :=
  parse_template Lenient groups None tpl = Return (map TChar txt).

(** What the heading template of [insert_just_english_into_template] puts
    after the anchor. *)
Definition chapter_heading (number : Z) : str :=
  text "\begin{large}\begin{center}\textsc{Chapter "
  ++ Roman.number_to_roman number
  ++ text "}\end{center}\end{large}" ++ [LF].

(** A chapter in the English-only document: its heading, then each
    paragraph as the template expansion renders it, with a line feed after
    it. *)
Definition english_chapter (c : chapter) : str :=
  chapter_heading (number c)
  ++ flat_map (fun par => Vocabulary.rendered par ++ [LF]) (english_pars c).

(** No digit of [s] stands right before a "~". *)
Fixpoint tight (s : str) : bool :=
  match s with
  | [] => true
  | c :: rest =>
      negb (Py.is_digit c
            && match rest with
               | x :: _ => N.eqb x 126
               | [] => false
               end)
      && tight rest
  end.

(** No two spaces of [s] stand side by side. *)
Fixpoint single_spaced (s : str) : bool :=
  match s with
  | [] => true
  | c :: rest =>
      negb (N.eqb c 32
            && match rest with
               | x :: _ => N.eqb x 32
               | [] => false
               end)
      && single_spaced rest
  end.

(** [str.lower] on ASCII text. *)
Definition ascii_lower (s : str) : str :=
  map (fun c => if ((65 <=? c) && (c <=? 90))%N then (c + 32)%N else c) s.

(** The replacement template [latexify_certain_ones] makes of a value of
    its dict, line 221. *)
Definition latexify_template (footnote : bool) (value : str) : str :=
  (if footnote then text "\\\\" else text "") ++ text "\\\" ++ value.

(** A character as [latexify_certain_ones] leaves it, where [oa], [oe] and
    [og] stand for U+2019, U+2026 and U+2018. *)
Definition special (oa oe og : str) (c : char) : str :=
  if N.eqb c 8217 then oa
  else if N.eqb c 8230 then oe
  else if N.eqb c 8216 then og
  else [c].

(** A paragraph [insert_just_english_into_template] can insert: it does
    not begin with a digit, which would be read with the [\1] before it, and
    it is a well-formed template without group reference. *)
Definition insertable_line (par : str) : Prop :=
  Py.is_digit (hd 0%N par) = false
  /\ literal 1 par (Vocabulary.rendered par).

(** A title with its spaces made underscores. *)
Definition underscored (s : str) : str :=
  map (fun c => if N.eqb c 32 then 95%N else c) s.






(** A page with one cell in Latin, one in English, and a footnote list of
    one footnote and a closing paragraph. *)
Definition sample_page : soup :=
  {| td_texts := fun cls =>
       if str_eqb cls (text "bibletd3") then [text "1  In principio [1]"]
       else if str_eqb cls (text "bibletd2")
            then [text "1" ++ [160%N] ++ text "In the beginning"]
            else [];
     ul_paragraphs := [[text "[1] A note."; text "Copyright"]];
     chapter_links := [] |}.

End Terms.

(** * Properties *)

Unset Implicit Arguments.

(** ** Roman numerals *)

Module RomanFacts.

Import Roman.
Local Open Scope Z_scope.

Lemma for_range_append (s : str) (n : Z) (acc : str) :
  for_range n (fun r => r ++ s) acc
  = acc ++ concat (repeat s (Z.to_nat n)).
Proof.
  unfold for_range.
  induction (Z.to_nat n) as [|k IH]; simpl.
  - now rewrite app_nil_r.
  - rewrite IH, <- app_assoc. f_equal.
    clear IH. induction k as [|k IH]; simpl.
    + now rewrite app_nil_r.
    + now rewrite <- app_assoc, IH.
Qed.

Ltac digit_cases d H :=
  let E := fresh "E" in
  assert (E : d = 0 \/ d = 1 \/ d = 2 \/ d = 3 \/ d = 4 \/ d = 5 \/ d = 6
              \/ d = 7 \/ d = 8 \/ d = 9) by lia;
  clear H;
  repeat (destruct E as [E | E]; [subst d | ]); [ .. | subst d].

(** One rank of [number_to_roman] appends the numeral of its digit. *)
Lemma rank_numeral (one five ten : string) (roman : str) (d : Z) :
  0 <= d <= 9 ->
  (if d =? 9 then roman ++ (text one ++ text ten)
   else if d >=? 5 then
     for_range (d - 5) (fun r => r ++ text one) (roman ++ text five)
   else if d =? 4 then roman ++ (text one ++ text five)
   else for_range d (fun r => r ++ text one) roman)
  = roman ++ digit_numeral one five ten d.
Proof.
  intros H. digit_cases d H; unfold for_range; simpl;
    rewrite <- ?app_assoc, ?app_nil_r; reflexivity.
Qed.

Lemma number_to_roman_standard (n : Z) :
  number_to_roman n
  = concat (repeat (text "m") (Z.to_nat (n / 1000)))
    ++ digit_numeral "c" "d" "m" ((n mod 1000) / 100)
    ++ digit_numeral "x" "l" "c" ((n mod 100) / 10)
    ++ digit_numeral "i" "v" "x" (n mod 10).
Proof.
  unfold number_to_roman.
  set (t := n / 1000).
  assert (Hr : n - t * 1000 = n mod 1000)
    by (unfold t; rewrite (Z.div_mod n 1000) at 1 by lia; lia).
  rewrite Hr.
  set (r := n mod 1000).
  assert (Hrb : 0 <= r < 1000) by (apply Z.mod_pos_bound; lia).
  set (h := r / 100).
  assert (Hh : 0 <= h <= 9).
  { unfold h. split; [apply Z.div_pos; lia|].
    assert (r / 100 < 10) by (apply Z.div_lt_upper_bound; lia). lia. }
  assert (Hr2 : r - h * 100 = n mod 100).
  { unfold h. rewrite (Z.div_mod r 100) at 1 by lia.
    replace (100 * (r / 100) + r mod 100 - r / 100 * 100) with (r mod 100) by lia.
    unfold r. apply Z.mod_mod_divide. exists 10; lia. }
  rewrite Hr2.
  set (r2 := n mod 100).
  assert (Hr2b : 0 <= r2 < 100) by (apply Z.mod_pos_bound; lia).
  set (te := r2 / 10).
  assert (Hte : 0 <= te <= 9).
  { unfold te. split; [apply Z.div_pos; lia|].
    assert (r2 / 10 < 10) by (apply Z.div_lt_upper_bound; lia). lia. }
  assert (Hr3 : r2 - te * 10 = n mod 10).
  { unfold te. rewrite (Z.div_mod r2 10) at 1 by lia.
    replace (10 * (r2 / 10) + r2 mod 10 - r2 / 10 * 10) with (r2 mod 10) by lia.
    unfold r2. apply Z.mod_mod_divide. exists 10; lia. }
  rewrite Hr3.
  set (o := n mod 10).
  assert (Ho : 0 <= o <= 9) by (pose proof (Z.mod_pos_bound n 10); lia).
  rewrite for_range_append. cbn [app].
  change (text "cm") with (text "c" ++ text "m").
  change (text "cd") with (text "c" ++ text "d").
  rewrite (rank_numeral "c" "d" "m") by exact Hh.
  change (text "xc") with (text "x" ++ text "c").
  change (text "xl") with (text "x" ++ text "l").
  rewrite (rank_numeral "x" "l" "c") by exact Hte.
  change (text "ix") with (text "i" ++ text "x").
  change (text "iv") with (text "i" ++ text "v").
  rewrite (rank_numeral "i" "v" "x") by exact Ho.
  now rewrite <- !app_assoc.
Qed.

Lemma digits_of (n : Z) :
  (n mod 1000) / 100 = (n / 100) mod 10 /\ (n mod 100) / 10 = (n / 10) mod 10.
Proof.
  split.
  - replace 1000 with (100 * 10) by lia. rewrite Z.rem_mul_r by lia.
    rewrite Z.mul_comm, Z.div_add by lia.
    rewrite (Z.div_small (n mod 100)) by (apply Z.mod_pos_bound; lia). lia.
  - replace 100 with (10 * 10) at 1 by lia. rewrite Z.rem_mul_r by lia.
    rewrite Z.mul_comm, Z.div_add by lia.
    rewrite (Z.div_small (n mod 10)) by (apply Z.mod_pos_bound; lia). lia.
Qed.

(** The last three ranks decode to their digits. *)
Lemma roman_value_below_1000 (h te o : Z) :
  0 <= h <= 9 -> 0 <= te <= 9 -> 0 <= o <= 9 ->
  roman_value (digit_numeral "c" "d" "m" h ++ digit_numeral "x" "l" "c" te
               ++ digit_numeral "i" "v" "x" o)
  = Some (100 * h + 10 * te + o).
Proof.
  intros Hh Hte Ho.
  digit_cases h Hh; digit_cases te Hte; digit_cases o Ho; vm_compute; reflexivity.
Qed.

Lemma roman_value_m (s : str) (v : Z) :
  roman_value s = Some v -> roman_value (text "m" ++ s) = Some (1000 + v).
Proof.
  intros H. change (text "m" ++ s) with (109%N :: s).
  cbn [roman_value]. rewrite H. change (symbol_value 109%N) with (Some 1000).
  cbv iota beta.
  destruct s as [|c' s']; [reflexivity|].
  cbn [roman_value] in H.
  destruct (symbol_value c') as [v'|] eqn:Ev; [|discriminate].
  assert (v' <= 1000).
  { unfold symbol_value in Ev.
    repeat match type of Ev with
           | match ?x with _ => _ end = _ => destruct x; try discriminate
           | Some _ = Some _ => injection Ev as <-
           end; lia. }
  destruct (1000 <? v') eqn:E; [apply Z.ltb_lt in E; lia | reflexivity].
Qed.

Lemma roman_value_thousands (k : nat) (s : str) (v : Z) :
  roman_value s = Some v ->
  roman_value (concat (repeat (text "m") k) ++ s) = Some (1000 * Z.of_nat k + v).
Proof.
  intros H. induction k as [|k IH].
  - simpl. rewrite H. f_equal.
  - cbn [repeat concat]. rewrite <- app_assoc.
    rewrite (roman_value_m _ _ IH). f_equal. lia.
Qed.

End RomanFacts.

(** ** The matcher and the scans *)

Module ReFacts.

Import Re.

Lemma strip_prefix_app (l r : str) : strip_prefix l (l ++ r) = Some r.
Proof.
  induction l as [|x l IH]; simpl; [reflexivity|].
  now rewrite N.eqb_refl.
Qed.

Lemma strip_prefix_app0 (l : str) : strip_prefix l l = Some [].
Proof.
  rewrite <- (app_nil_r l) at 2. apply strip_prefix_app.
Qed.

Lemma strip_prefix_Some (l s r : str) :
  strip_prefix l s = Some r -> s = l ++ r.
Proof.
  revert s. induction l as [|x l IH]; intros s H; simpl in *.
  - congruence.
  - destruct s as [|y s]; [discriminate|].
    destruct (N.eqb x y) eqn:E; [|discriminate].
    apply N.eqb_eq in E. subst y. simpl. f_equal. now apply IH.
Qed.

Lemma firstn_matched (m r : str) :
  firstn (length (m ++ r) - length r) (m ++ r) = m.
Proof.
  rewrite length_app, Nat.add_sub.
  rewrite firstn_app, Nat.sub_diag, firstn_all. simpl. apply app_nil_r.
Qed.

(** The longest prefix of [s] inside [cs], and what follows it. *)
Fixpoint take_while (cs : charset) (s : str) : str :=
  match s with
  | c :: s' => if in_set cs c then c :: take_while cs s' else []
  | [] => []
  end.

Fixpoint drop_while (cs : charset) (s : str) : str :=
  match s with
  | c :: s' => if in_set cs c then drop_while cs s' else s
  | [] => []
  end.

Lemma take_drop_while (cs : charset) (s : str) :
  s = take_while cs s ++ drop_while cs s.
Proof.
  induction s as [|c s IH]; simpl; [reflexivity|].
  destruct (in_set cs c); simpl; [now f_equal | reflexivity].
Qed.

Lemma take_while_all (cs : charset) (s : str) :
  Forall (fun c => in_set cs c = true) (take_while cs s).
Proof.
  induction s as [|c s IH]; simpl; [constructor|].
  destruct (in_set cs c) eqn:E; constructor; assumption.
Qed.

Lemma take_while_app (cs : charset) (m r : str) :
  Forall (fun c => in_set cs c = true) m ->
  (forall c t, r = c :: t -> in_set cs c = false) ->
  take_while cs (m ++ r) = m /\ drop_while cs (m ++ r) = r.
Proof.
  intros Hm Hr. induction Hm as [|c m Hc Hm IH]; simpl.
  - destruct r as [|c t]; [split; reflexivity|].
    simpl. rewrite (Hr c t eq_refl). split; reflexivity.
  - rewrite Hc. destruct IH as [-> ->]. split; reflexivity.
Qed.

Section Matcher.

Variable n : nat.

(** Where every continuation fails right after a character of the set,
    the greedy repetition commits to the longest run. *)
Lemma greedy_commit (cs : charset) (s : str) (k : str -> outcome) :
  (forall c t, in_set cs c = true -> k (c :: t) = None) ->
  greedy cs s k = k (drop_while cs s).
Proof.
  intros Hk. induction s as [|c s IH]; simpl; [reflexivity|].
  destruct (in_set cs c) eqn:E; [|reflexivity].
  rewrite IH. destruct (k (drop_while cs s)); [reflexivity|].
  now apply Hk.
Qed.

Lemma greedy_suffix (cs : charset) (s : str) (k : str -> outcome) (o : str * list str) :
  greedy cs s k = Some o ->
  exists m rest, s = m ++ rest /\ k rest = Some o.
Proof.
  induction s as [|c s IH]; simpl; intros H.
  - exists [], []. auto.
  - destruct (in_set cs c).
    + destruct (greedy cs s k) as [o'|] eqn:E.
      * injection H as <-. destruct (IH eq_refl) as (m & rest & -> & Hk).
        exists (c :: m), rest. auto.
      * exists [], (c :: s). auto.
    + exists [], (c :: s). auto.
Qed.

(** What a successful match leaves is a suffix of the subject. *)
Lemma rmatch_suffix (r : regex) :
  forall s gs k o,
    rmatch n r s gs k = Some o ->
    exists m rest gs', s = m ++ rest /\ k rest gs' = Some o.
Proof.
  induction r as [l|cs|cs|cs|r1 IH1 r2 IH2|r1 IH1|]; intros s gs k o H; simpl in H.
  - destruct (strip_prefix l s) as [rest|] eqn:E; [|discriminate].
    apply strip_prefix_Some in E. eauto.
  - destruct s as [|c s']; [discriminate|].
    destruct (in_set cs c); [|discriminate].
    exists [c], s', gs. auto.
  - apply greedy_suffix in H. destruct H as (m & rest & -> & Hk). eauto.
  - destruct s as [|c s']; [discriminate|].
    destruct (in_set cs c); [|discriminate].
    apply greedy_suffix in H. destruct H as (m & rest & -> & Hk).
    exists (c :: m), rest, gs. auto.
  - apply IH1 in H. destruct H as (m1 & rest1 & gs1 & -> & H).
    apply IH2 in H. destruct H as (m2 & rest2 & gs2 & -> & H).
    exists (m1 ++ m2), rest2, gs2. now rewrite <- app_assoc.
  - apply IH1 in H. destruct H as (m1 & rest1 & gs1 & -> & H). eauto.
  - destruct (Nat.eqb (length s) n); [|discriminate].
    exists [], s, gs. auto.
Qed.

Lemma match_here_split (r : regex) (s m rest : str) (gs : list str) :
  match_here n r s = Some (m, gs, rest) -> s = m ++ rest.
Proof.
  unfold match_here. intros H.
  destruct (rmatch n r s [] (fun rest gs => Some (rest, gs))) as [[rest' gs']|] eqn:E;
    [|discriminate].
  injection H as <- <- <-.
  apply rmatch_suffix in E. destruct E as (m & rest & gs'' & -> & E).
  injection E as -> ->. now rewrite firstn_matched.
Qed.

Section Scans.

Variable r : regex.
Variable items : list titem.

Lemma scan_sub_skip (k : nat) (m rest : str) :
  length m = k -> scan_sub r items n k (m ++ rest) = scan_sub r items n 0 rest.
Proof.
  revert k. induction m as [|c m IH]; intros k <-; simpl.
  - destruct rest; reflexivity.
  - now apply IH.
Qed.

Lemma scan_sub_nil : scan_sub r items n 0 [] = [].
Proof. reflexivity. Qed.

Lemma scan_sub_match (s m rest : str) (gs : list str) :
  match_here n r s = Some (m, gs, rest) -> m <> [] ->
  scan_sub r items n 0 s = expand items (m :: gs) ++ scan_sub r items n 0 rest.
Proof.
  intros H Hm. pose proof (match_here_split _ _ _ _ _ H) as ->.
  destruct m as [|c m]; [congruence|].
  change ((c :: m) ++ rest) with (c :: (m ++ rest)) in *.
  cbn [scan_sub]. rewrite H. cbn [length]. f_equal.
  now apply scan_sub_skip.
Qed.

Lemma scan_sub_miss (c : char) (s : str) :
  match_here n r (c :: s) = None ->
  scan_sub r items n 0 (c :: s) = c :: scan_sub r items n 0 s.
Proof. intros H. cbn [scan_sub]. now rewrite H. Qed.

Lemma scan_all_skip (k : nat) (m rest : str) :
  length m = k -> scan_all r n k (m ++ rest) = scan_all r n 0 rest.
Proof.
  revert k. induction m as [|c m IH]; intros k <-; simpl.
  - destruct rest; reflexivity.
  - now apply IH.
Qed.

Lemma scan_all_match (s m rest : str) (gs : list str) :
  match_here n r s = Some (m, gs, rest) -> m <> [] ->
  scan_all r n 0 s = m :: scan_all r n 0 rest.
Proof.
  intros H Hm. pose proof (match_here_split _ _ _ _ _ H) as ->.
  destruct m as [|c m]; [congruence|].
  change ((c :: m) ++ rest) with (c :: (m ++ rest)) in *.
  cbn [scan_all]. rewrite H. cbn [length]. f_equal.
  now apply scan_all_skip.
Qed.

Lemma scan_all_miss (c : char) (s : str) :
  match_here n r (c :: s) = None ->
  scan_all r n 0 (c :: s) = scan_all r n 0 s.
Proof. intros H. cbn [scan_all]. now rewrite H. Qed.

(** Text in which no match starts is copied. *)
Lemma scan_sub_copy (u v : str) :
  (forall u1 c u2, u = u1 ++ c :: u2 -> match_here n r (c :: u2 ++ v) = None) ->
  scan_sub r items n 0 (u ++ v) = u ++ scan_sub r items n 0 v.
Proof.
  induction u as [|c u IH]; intros H; [reflexivity|].
  simpl app. rewrite scan_sub_miss by (apply (H [] c u); reflexivity).
  f_equal. apply IH. intros u1 c' u2 ->. apply (H (c :: u1)). reflexivity.
Qed.

Lemma scan_all_copy (u v : str) :
  (forall u1 c u2, u = u1 ++ c :: u2 -> match_here n r (c :: u2 ++ v) = None) ->
  scan_all r n 0 (u ++ v) = scan_all r n 0 v.
Proof.
  induction u as [|c u IH]; intros H; [reflexivity|].
  simpl app. rewrite scan_all_miss by (apply (H [] c u); reflexivity).
  apply IH. intros u1 c' u2 ->. apply (H (c :: u1)). reflexivity.
Qed.

End Scans.

End Matcher.

(** A scan depends on the length of the subject only through the matches. *)
Lemma scan_sub_ext (r : regex) (items : list titem) (n n' : nat) :
  (forall s, match_here n r s = match_here n' r s) ->
  forall s k, scan_sub r items n k s = scan_sub r items n' k s.
Proof.
  intros H. induction s as [|c s IH]; intros k; [reflexivity|].
  cbn [scan_sub]. destruct k as [|k]; [|apply IH].
  rewrite H. destruct (match_here n' r (c :: s)) as [[[m gs] rest]|].
  - destruct (length m); now rewrite IH.
  - now rewrite IH.
Qed.

Lemma scan_all_ext (r : regex) (n n' : nat) :
  (forall s, match_here n r s = match_here n' r s) ->
  forall s k, scan_all r n k s = scan_all r n' k s.
Proof.
  intros H. induction s as [|c s IH]; intros k; [reflexivity|].
  cbn [scan_all]. destruct k as [|k]; [|apply IH].
  rewrite H. destruct (match_here n' r (c :: s)) as [[[m gs] rest]|].
  - destruct (length m); now rewrite IH.
  - now rewrite IH.
Qed.

End ReFacts.

(** ** The patterns of the script *)

Module PatternFacts.

Import Re ReFacts Chapter.

Ltac lits :=
  repeat match goal with
         | |- context [text ?s] =>
             let v := eval vm_compute in (text s) in change (text s) with v
         end.

(** A match [m], its groups [gs] and the rest, with [t] after the rest. *)
Definition extend (t : str) (o : option (str * list str * str))
  : option (str * list str * str) :=
  match o with
  | Some (m, gs, rest) => Some (m, gs, rest ++ t)
  | None => None
  end.

(** [pre], a run of [cs], [post]: the match of [pre [cs]+ post]. *)
Definition run_match (pre : str) (cs : charset) (post : str) (grouped : bool)
    (s : str) : option (str * list str * str) :=
  match strip_prefix pre s with
  | Some s1 =>
      match take_while cs s1, strip_prefix post (drop_while cs s1) with
      | (_ :: _) as run, Some rest =>
          Some (pre ++ run ++ post, if grouped then [run] else [], rest)
      | _, _ => None
      end
  | None => None
  end.

Definition ends_run (cs : charset) (post : str) : Prop :=
  forall c t, in_set cs c = true -> strip_prefix post (c :: t) = None.

Lemma match_here_run (n : nat) (pre : str) (cs : charset) (post s : str) :
  ends_run cs post ->
  match_here n (Seq (Lit pre) (Seq (Plus cs) (Lit post))) s
  = run_match pre cs post false s.
Proof.
  intros Hpost. unfold match_here, run_match. cbn [rmatch].
  destruct (strip_prefix pre s) as [s1|] eqn:Ep; [|reflexivity].
  apply strip_prefix_Some in Ep. subst s.
  destruct s1 as [|c s1]; [reflexivity|].
  cbn [take_while drop_while].
  destruct (in_set cs c) eqn:Ec; [|reflexivity].
  rewrite greedy_commit
    by (intros c' t Hc'; now rewrite (Hpost c' t Hc')).
  pose proof (take_drop_while cs s1) as E.
  destruct (strip_prefix post (drop_while cs s1)) as [rest|] eqn:Ed; [|reflexivity].
  apply strip_prefix_Some in Ed. rewrite Ed in E.
  remember (take_while cs s1) as run eqn:Erun.
  replace (pre ++ c :: s1) with ((pre ++ (c :: run) ++ post) ++ rest).
  - now rewrite firstn_matched.
  - rewrite E. repeat (rewrite <- ?app_assoc; cbn [app]). reflexivity.
Qed.

Lemma match_here_group_run (n : nat) (cs : charset) (post s : str) :
  ends_run cs post ->
  match_here n (Seq (Group (Plus cs)) (Lit post)) s
  = run_match [] cs post true s.
Proof.
  intros Hpost. unfold match_here, run_match. cbn [rmatch strip_prefix].
  destruct s as [|c s1]; [reflexivity|].
  cbn [take_while drop_while].
  destruct (in_set cs c) eqn:Ec; [|reflexivity].
  rewrite greedy_commit
    by (intros c' t Hc'; now rewrite (Hpost c' t Hc')).
  pose proof (take_drop_while cs s1) as E.
  destruct (strip_prefix post (drop_while cs s1)) as [rest|] eqn:Ed; [|reflexivity].
  apply strip_prefix_Some in Ed. rewrite Ed in E.
  cbn [app].
  remember (take_while cs s1) as run eqn:Erun. clear Erun. subst s1.
  change (c :: run ++ post ++ rest) with ((c :: run) ++ post ++ rest).
  rewrite Ed, firstn_matched.
  rewrite (app_assoc (c :: run) post rest), firstn_matched. reflexivity.
Qed.

(** A string of the shape matches. *)
Lemma run_match_intro (pre : str) (cs : charset) (post : str) (g : bool)
    (run rest : str) :
  ends_run cs post -> post <> [] ->
  run <> [] -> Forall (fun c => in_set cs c = true) run ->
  run_match pre cs post g (pre ++ run ++ post ++ rest)
  = Some (pre ++ run ++ post, if g then [run] else [], rest).
Proof.
  intros Hpost Hne Hrun Hall. unfold run_match.
  rewrite strip_prefix_app.
  assert (Hstop : forall c t, post ++ rest = c :: t -> in_set cs c = false).
  { intros c t E. destruct post as [|p post]; [congruence|].
    simpl in E. injection E as -> _.
    destruct (in_set cs c) eqn:Ec; [|reflexivity].
    specialize (Hpost c post Ec). simpl in Hpost.
    rewrite N.eqb_refl in Hpost. now rewrite strip_prefix_app0 in Hpost. }
  destruct (take_while_app cs run (post ++ rest) Hall Hstop) as [-> ->].
  rewrite strip_prefix_app. destruct run; [congruence|reflexivity].
Qed.

(** A match has the shape. *)
Lemma run_match_inv (pre : str) (cs : charset) (post : str) (g : bool)
    (s m rest : str) (gs : list str) :
  run_match pre cs post g s = Some (m, gs, rest) ->
  exists run, run <> [] /\ Forall (fun c => in_set cs c = true) run
              /\ m = pre ++ run ++ post /\ s = m ++ rest
              /\ gs = (if g then [run] else []).
Proof.
  unfold run_match. intros H.
  destruct (strip_prefix pre s) as [s1|] eqn:Ep; [|discriminate].
  apply strip_prefix_Some in Ep. subst s.
  pose proof (take_drop_while cs s1) as E.
  pose proof (take_while_all cs s1) as Hall.
  destruct (take_while cs s1) as [|c run] eqn:Et; [discriminate|].
  destruct (strip_prefix post (drop_while cs s1)) as [rest'|] eqn:Ed; [|discriminate].
  apply strip_prefix_Some in Ed. injection H as <- <- <-.
  exists (c :: run). repeat split; try assumption; try congruence.
  rewrite E, Ed. repeat (rewrite <- ?app_assoc; cbn [app]). reflexivity.
Qed.

(** The match of a group around literal text. *)
Lemma match_here_literal (n : nat) (l s : str) :
  match_here n (Group (Lit l)) s
  = match strip_prefix l s with
    | Some rest => Some (l, [l], rest)
    | None => None
    end.
Proof.
  unfold match_here. cbn [rmatch].
  destruct (strip_prefix l s) as [rest|] eqn:E; [|reflexivity].
  apply strip_prefix_Some in E. subst s. now rewrite firstn_matched.
Qed.

Lemma match_here_literal2 (n : nat) (l1 l2 s : str) :
  match_here n (Group (Seq (Lit l1) (Lit l2))) s
  = match strip_prefix (l1 ++ l2) s with
    | Some rest => Some (l1 ++ l2, [l1 ++ l2], rest)
    | None => None
    end.
Proof.
  unfold match_here. cbn [rmatch].
  destruct (strip_prefix (l1 ++ l2) s) as [rest|] eqn:E.
  - apply strip_prefix_Some in E. subst s.
    rewrite <- app_assoc, strip_prefix_app, strip_prefix_app.
    rewrite app_assoc. now rewrite firstn_matched.
  - destruct (strip_prefix l1 s) as [s1|] eqn:E1; [|reflexivity].
    apply strip_prefix_Some in E1. subst s.
    destruct (strip_prefix l2 s1) as [s2|] eqn:E2; [|reflexivity].
    apply strip_prefix_Some in E2. subst s1.
    now rewrite app_assoc, strip_prefix_app in E.
Qed.

Lemma in_digits (c : char) :
  in_set digits c = true <-> (48 <= c <= 57)%N.
Proof.
  unfold in_set, digits. simpl. rewrite orb_false_r, andb_true_iff.
  rewrite !N.leb_le. reflexivity.
Qed.

Lemma in_set_digits (c : char) : in_set digits c = Py.is_digit c.
Proof. unfold in_set, digits, Py.is_digit. simpl. apply orb_false_r. Qed.

Lemma in_letters (c : char) :
  in_set letters c = true <-> ((65 <= c <= 90) \/ (97 <= c <= 122))%N.
Proof.
  unfold in_set, letters. simpl.
  rewrite orb_false_r, orb_true_iff, !andb_true_iff, !N.leb_le. reflexivity.
Qed.

(** A character outside the digits ends a run of digits. *)
Lemma ends_digits (p : char) (post : str) :
  in_set digits p = false -> ends_run digits (p :: post).
Proof.
  intros Hp c t Hc. simpl.
  destruct (N.eqb_spec p c) as [->|]; [congruence|reflexivity].
Qed.

(** Concatenation of scans: where the text after [a] changes no match
    starting inside [a], [a] and what follows are scanned apart. *)
Lemma scan_sub_app (r : regex) (items : list titem) (n n' : nat) (a t : str) :
  (forall a1 a2, a = a1 ++ a2 -> a2 <> [] ->
     match_here n r (a2 ++ t) = extend t (match_here n' r a2)) ->
  scan_sub r items n 0 (a ++ t)
  = scan_sub r items n' 0 a ++ scan_sub r items n 0 t.
Proof.
  remember (length a) as k eqn:Ek.
  assert (Hk : length a <= k) by lia. clear Ek.
  revert a Hk. induction k as [|k IH]; intros a Hk H.
  - destruct a; [reflexivity | simpl in Hk; lia].
  - destruct a as [|c a]; [reflexivity|].
    pose proof (H [] (c :: a) eq_refl ltac:(discriminate)) as H0.
    destruct (match_here n' r (c :: a)) as [[[m gs] rest]|] eqn:E.
    + simpl in H0. pose proof (match_here_split _ _ _ _ _ _ E) as Es.
      destruct m as [|x m].
      * simpl app. cbn [scan_sub]. rewrite E, H0. cbn [length].
        simpl. f_equal. apply IH; [simpl in Hk; lia|].
        intros a1 a2 -> Ha2. apply (H (c :: a1)); [reflexivity|assumption].
      * rewrite (scan_sub_match _ _ _ _ _ _ _ H0) by discriminate.
        rewrite (scan_sub_match _ _ _ _ _ _ _ E) by discriminate.
        rewrite <- app_assoc. f_equal.
        apply IH.
        -- rewrite Es in Hk. rewrite length_app in Hk. simpl in Hk. lia.
        -- intros a1 a2 -> Ha2. apply (H ((x :: m) ++ a1)); [|assumption].
           rewrite Es. now rewrite <- app_assoc.
    + simpl in H0. change ((c :: a) ++ t) with (c :: (a ++ t)).
      rewrite (scan_sub_miss n r items c (a ++ t) H0).
      rewrite (scan_sub_miss n' r items c a E).
      simpl. f_equal. apply IH; [simpl in Hk; lia|].
      intros a1 a2 -> Ha2. apply (H (c :: a1)); [reflexivity|assumption].
Qed.

(** A string whose last character is outside [cs]. *)
Definition ends_outside (cs : charset) (a : str) : Prop :=
  forall a0 c, a = a0 ++ [c] -> in_set cs c = false.

Lemma ends_outside_suffix (cs : charset) (a1 a2 : str) :
  ends_outside cs (a1 ++ a2) -> a2 <> [] -> ends_outside cs a2.
Proof.
  intros H Ha2 a0 c ->. apply (H (a1 ++ a0)). now rewrite app_assoc.
Qed.

Lemma drop_while_ends_outside (cs : charset) (a : str) :
  a <> [] -> ends_outside cs a -> drop_while cs a <> [].
Proof.
  intros Ha Hend Hd.
  pose proof (take_drop_while cs a) as E. rewrite Hd, app_nil_r in E.
  pose proof (take_while_all cs a) as Hall. rewrite <- E in Hall.
  destruct (exists_last Ha) as (a0 & c & ->).
  apply Forall_app in Hall. destruct Hall as [_ Hc].
  inversion Hc as [|? ? Hc' _]; subst.
  rewrite (Hend a0 c eq_refl) in Hc'. discriminate.
Qed.

Lemma take_while_stable (cs : charset) (a t : str) :
  drop_while cs a <> [] ->
  take_while cs (a ++ t) = take_while cs a
  /\ drop_while cs (a ++ t) = drop_while cs a ++ t.
Proof.
  induction a as [|c a IH]; simpl; intros H; [congruence|].
  destruct (in_set cs c).
  - destruct (IH H) as [-> ->]. split; reflexivity.
  - split; reflexivity.
Qed.

(** With a one-character [post], what follows a string that ends outside
    the run changes no match starting inside it. *)
Lemma run_match_stable (cs : charset) (p : char) (g : bool) (a t : str) :
  a <> [] -> ends_outside cs a ->
  run_match [] cs [p] g (a ++ t) = extend t (run_match [] cs [p] g a).
Proof.
  intros Ha Hend. unfold run_match. cbn [strip_prefix].
  pose proof (drop_while_ends_outside cs a Ha Hend) as Hd.
  destruct (take_while_stable cs a t Hd) as [-> ->].
  destruct (take_while cs a) as [|c run]; [reflexivity|].
  destruct (drop_while cs a) as [|x rest]; [congruence|].
  simpl. destruct (N.eqb p x); reflexivity.
Qed.

(** The match of [verse_re]. *)
Lemma match_here_verse (n : nat) (s : str) :
  match_here n verse_re s = run_match [] digits [126%N] true s.
Proof.
  unfold verse_re. lits. apply match_here_group_run.
  apply ends_digits. reflexivity.
Qed.

(** A match of [run_match] holds the first character of [post]. *)
Lemma run_match_post (pre : str) (cs : charset) (p : char) (post : str)
    (g : bool) (s : str) :
  ~ In p s -> run_match pre cs (p :: post) g s = None.
Proof.
  intros Hp.
  destruct (run_match pre cs (p :: post) g s) as [[[m gs] rest]|] eqn:E;
    [|reflexivity].
  apply run_match_inv in E. destruct E as (run & _ & _ & -> & -> & _).
  elim Hp. rewrite !in_app_iff. simpl. tauto.
Qed.

End PatternFacts.

(** ** Replacement templates *)

Module TemplateFacts.

Import Re ReFacts Vocabulary.

(** The items of a template put before those of the rest. *)
Definition prepend (items : list titem) (r : result (list titem))
  : result (list titem) :=
  rest <- r ;; Return (items ++ rest).

Lemma prepend_nil (r : result (list titem)) : prepend [] r = r.
Proof. destruct r; reflexivity. Qed.

Lemma prepend_cons (i : titem) (items : list titem) (r : result (list titem)) :
  prepend (i :: items) r = emit i (prepend items r).
Proof. destruct r; reflexivity. Qed.

Lemma prepend_app (i1 i2 : list titem) (r : result (list titem)) :
  prepend (i1 ++ i2) r = prepend i1 (prepend i2 r).
Proof.
  destruct r; simpl; [|reflexivity]. now rewrite app_assoc.
Qed.

(** Characters other than the backslash stand for themselves. *)
Lemma parse_plain (d : dialect) (g : nat) (s t : str) :
  plain s ->
  parse_template d g None (s ++ t)
  = prepend (map TChar s) (parse_template d g None t).
Proof.
  intros Hs. induction Hs as [|c s Hc Hs IH].
  - simpl. now rewrite prepend_nil.
  - simpl app. cbn [parse_template].
    destruct (N.eqb_spec c 92) as [->|_]; [now elim Hc|].
    cbn [negb map]. rewrite IH. now rewrite prepend_cons.
Qed.

Lemma expand_app (i1 i2 : list titem) (gs : list str) :
  expand (i1 ++ i2) gs = expand i1 gs ++ expand i2 gs.
Proof. unfold expand. apply flat_map_app. Qed.

Lemma expand_chars (s : str) (gs : list str) : expand (map TChar s) gs = s.
Proof.
  unfold expand. induction s as [|c s IH]; simpl; [reflexivity|].
  now f_equal.
Qed.

(** The decimal digits of [str(n)], and its sign, are no backslash. *)
Lemma plain_uint (u : Decimal.uint) :
  plain (text (NilEmpty.string_of_uint u)).
Proof.
  induction u; simpl; try constructor; try assumption; discriminate.
Qed.

Lemma plain_str_of_int (n : Z) : plain (Py.str_of_int n).
Proof.
  unfold Py.str_of_int, NilZero.string_of_int, NilZero.string_of_uint.
  destruct (Z.to_int n) as [u|u].
  - destruct u; try apply plain_uint. repeat constructor. discriminate.
  - change (text (String "-" ?x)) with (45%N :: text x).
    simpl. constructor; [discriminate|].
    destruct u; try apply plain_uint. repeat constructor. discriminate.
Qed.

Lemma plain_test (s : str) :
  forallb (fun c => negb (N.eqb c 92)) s = true -> plain s.
Proof.
  intros H. apply Forall_forall. intros c Hin ->.
  rewrite forallb_forall in H. specialize (H _ Hin). discriminate H.
Qed.

End TemplateFacts.

(** ** Footnote markers *)

Module FootnoteFacts.

Import Re ReFacts PatternFacts TemplateFacts Chapter Vocabulary.

(** The marker of the number [ds]. *)
Definition marker (ds : str) : str := text "[" ++ ds ++ text "]".

Lemma number_in_set (ds : str) :
  is_number ds -> Forall (fun c => in_set digits c = true) ds.
Proof.
  intros [_ H]. eapply Forall_impl; [|exact H].
  intros c Hc. now rewrite in_set_digits.
Qed.

Lemma number_bracket_free (ds : str) : is_number ds -> bracket_free (ds ++ text "]").
Proof.
  intros [_ H] Hin. apply in_app_or in Hin. destruct Hin as [Hin|Hin].
  - rewrite Forall_forall in H. specialize (H _ Hin). discriminate H.
  - simpl in Hin. destruct Hin as [E|[]]. discriminate E.
Qed.


(** The match of [marker_re]. *)
Lemma match_here_marker (n : nat) (s : str) :
  match_here n marker_re s = run_match [91%N] digits [93%N] false s.
Proof.
  unfold marker_re. lits. apply match_here_run.
  apply ends_digits. reflexivity.
Qed.

Lemma match_here_marker_intro (n : nat) (ds rest : str) :
  is_number ds ->
  match_here n marker_re (marker ds ++ rest) = Some (marker ds, [], rest).
Proof.
  intros Hds. rewrite match_here_marker. unfold marker. lits.
  rewrite <- !app_assoc.
  rewrite (run_match_intro [91%N] digits [93%N] false ds rest);
    [reflexivity | apply ends_digits; reflexivity | discriminate
     | apply Hds | now apply number_in_set].
Qed.

Lemma match_here_marker_inv (n : nat) (s m rest : str) (gs : list str) :
  match_here n marker_re s = Some (m, gs, rest) ->
  exists ds, is_number ds /\ m = marker ds /\ s = marker ds ++ rest.
Proof.
  rewrite match_here_marker. intros H.
  apply run_match_inv in H. destruct H as (run & Hne & Hall & -> & -> & _).
  exists run. split; [|split; reflexivity].
  split; [assumption|]. eapply Forall_impl; [|exact Hall].
  intros c Hc. now rewrite <- in_set_digits.
Qed.

(** Everything [findall] finds is a marker. *)
Lemma findall_markers (n k : nat) (s x : str) :
  In x (scan_all marker_re n k s) -> exists ds, is_number ds /\ x = marker ds.
Proof.
  revert k. induction s as [|c s IH]; intros k; [intros []|].
  cbn [scan_all]. destruct k as [|k]; [|apply IH].
  destruct (match_here n marker_re (c :: s)) as [[[m gs] rest]|] eqn:E; [|apply IH].
  destruct (length m) eqn:El; [apply IH|].
  intros [<-|Hin]; [|now apply (IH n0)].
  apply match_here_marker_inv in E. destruct E as (ds & Hds & -> & _). eauto.
Qed.

(** A marker occurring in the paragraph is found. *)
Lemma findall_occurrence (n : nat) (a ds b : str) :
  is_number ds -> In (marker ds) (scan_all marker_re n 0 (a ++ marker ds ++ b)).
Proof.
  intros Hds.
  remember (length a) as k eqn:Ek.
  assert (Hk : length a <= k) by lia. clear Ek.
  revert a Hk. induction k as [|k IH]; intros a Hk.
  - destruct a; [|simpl in Hk; lia]. rewrite app_nil_l.
    rewrite (scan_all_match _ _ _ _ _ _ (match_here_marker_intro n ds b Hds))
      by discriminate.
    now left.
  - destruct a as [|c a].
    + rewrite app_nil_l.
      rewrite (scan_all_match _ _ _ _ _ _ (match_here_marker_intro n ds b Hds))
        by discriminate.
      now left.
    + destruct (match_here n marker_re ((c :: a) ++ marker ds ++ b))
        as [[[m gs] rest]|] eqn:E.
      * rewrite (scan_all_match _ _ _ _ _ _ E)
          by (apply match_here_marker_inv in E;
              destruct E as (? & _ & -> & _); discriminate).
        right.
        pose proof (match_here_marker_inv _ _ _ _ _ E) as (dm & Hdm & -> & Es).
        apply app_eq_app in Es. destruct Es as (l & [[E1 E2]|[E1 E2]]).
        -- (* the match ends inside [a] *)
           rewrite E2. apply IH.
           apply (f_equal (@length _)) in E1. rewrite length_app in E1.
           unfold marker in E1. simpl in E1, Hk. lia.
        -- (* the match would run over the bracket of the marker *)
           destruct l as [|x l].
           ++ rewrite app_nil_l in E2. rewrite <- E2.
              apply (IH []). simpl. lia.
           ++ exfalso. unfold marker in E1, E2. simpl in E1, E2.
              injection E2 as <- _. injection E1 as _ E1.
              pose proof (number_bracket_free dm Hdm) as Hfree.
              apply Hfree. simpl. rewrite E1. rewrite in_app_iff. right. now left.
      * simpl app in *. rewrite (scan_all_miss _ _ _ _ E). apply IH.
        simpl in Hk. lia.
Qed.

Lemma marker_app (ds w : str) :
  marker ds ++ w = 91%N :: (ds ++ text "]") ++ w.
Proof.
  unfold marker. lits. repeat (rewrite <- ?app_assoc; cbn [app]). reflexivity.
Qed.

Lemma removelast_marker (ds : str) :
  removelast (marker ds) ++ text "]" = marker ds.
Proof.
  unfold marker. lits. rewrite app_assoc, removelast_last.
  now rewrite <- app_assoc.
Qed.

(** A scan for one marker copies text without an opening bracket. *)
Lemma match_here_found_bracket (n : nat) (ds s m rest : str) (gs : list str) :
  match_here n (found_re (marker ds)) s = Some (m, gs, rest) ->
  m = marker ds /\ gs = [marker ds] /\ s = marker ds ++ rest.
Proof.
  unfold found_re. rewrite match_here_literal2.
  pose proof (removelast_marker ds) as E.
  rewrite E. destruct (strip_prefix (marker ds) s) as [r|] eqn:Ep; [|discriminate].
  apply strip_prefix_Some in Ep. intros H. injection H as <- <- <-. auto.
Qed.

Lemma match_here_found_intro (n : nat) (ds rest : str) :
  match_here n (found_re (marker ds)) (marker ds ++ rest)
  = Some (marker ds, [marker ds], rest).
Proof.
  unfold found_re. rewrite match_here_literal2.
  pose proof (removelast_marker ds) as E.
  now rewrite E, strip_prefix_app.
Qed.

Section OneMarker.

Variables (n : nat) (ds : str) (items : list titem).
Hypothesis Hds : is_number ds.

Let scan := scan_sub (found_re (marker ds)) items n 0.

Lemma scan_found_copy (u v : str) :
  bracket_free u -> scan (u ++ v) = u ++ scan v.
Proof.
  intros Hu. apply scan_sub_copy. intros u1 c u2 ->.
  destruct (match_here n (found_re (marker ds)) (c :: u2 ++ v))
    as [[[m gs] rest]|] eqn:E; [|reflexivity].
  apply match_here_found_bracket in E. destruct E as (_ & _ & E).
  unfold marker in E. simpl in E. injection E as -> _.
  elim Hu. rewrite in_app_iff. right. now left.
Qed.

Lemma scan_found_plain (u : str) : bracket_free u -> scan u = u.
Proof.
  intros Hu. rewrite <- (app_nil_r u) at 1.
  rewrite scan_found_copy by assumption. now rewrite app_nil_r.
Qed.

(** The marker looked for is replaced. *)
Lemma scan_found_hit (v : str) :
  scan (marker ds ++ v) = expand items [marker ds; marker ds] ++ scan v.
Proof.
  unfold scan.
  rewrite (scan_sub_match _ _ _ _ _ _ _ (match_here_found_intro n ds v));
    [reflexivity | discriminate].
Qed.


End OneMarker.

(** *** One turn of the loop *)

(** The value of a number. *)
Definition decimal (ds : str) : Z :=
  fold_left (fun acc c => 10 * acc + Z.of_N (c - 48))%Z ds 0%Z.

(** The compiled head of the template of line 174. *)
Definition footnote_items : list titem :=
  map TChar (text "\\footnote") ++ [TGroup 1; TChar 123%N].

Lemma scan_bracket (n : nat) (s : str) :
  scan_sub bracket_re [] n 0 s
  = filter (fun c => negb (in_set [(91, 91); (93, 93)]%N c)) s.
Proof.
  induction s as [|c s IH]; [reflexivity|].
  cbn [scan_sub filter]. unfold match_here, bracket_re. cbn [rmatch].
  destruct (in_set [(91, 91); (93, 93)]%N c) eqn:E; cbn [negb].
  - replace (length (c :: s) - length s)%nat with 1%nat by (cbn [length]; lia).
    cbn [firstn length expand flat_map app]. exact IH.
  - f_equal. exact IH.
Qed.

Lemma digit_not_bracket (c : char) :
  Py.is_digit c = true -> in_set [(91, 91); (93, 93)]%N c = false.
Proof.
  unfold Py.is_digit. intros Hc. apply andb_prop in Hc. destruct Hc as [H1 H2].
  apply N.leb_le in H1, H2. unfold in_set. simpl.
  rewrite orb_false_r. apply orb_false_intro; apply andb_false_intro1;
    apply N.leb_gt; lia.
Qed.

Lemma strip_brackets (d : dialect) (ds : str) :
  is_number ds -> Re.sub d bracket_re (text "") (marker ds) = Return ds.
Proof.
  intros [_ Hds]. unfold Re.sub. cbn [groups_of bracket_re parse_template text
    list_ascii_of_string map bind].
  rewrite scan_bracket. f_equal. rewrite <- (app_nil_r (marker ds)), marker_app.
  lits. cbn [filter]. change (in_set [(91, 91); (93, 93)]%N 91%N) with true.
  cbn [negb]. rewrite app_nil_r, filter_app. cbn [filter].
  change (in_set [(91, 91); (93, 93)]%N 93%N) with true.
  cbn [negb]. rewrite app_nil_r.
  induction Hds as [|c ds Hc Hds IH]; [reflexivity|].
  cbn [filter]. rewrite IH, (digit_not_bracket c Hc). reflexivity.
Qed.

Lemma int_of_number (ds : str) :
  is_number ds -> Py.int_of_str ds = Return (decimal ds).
Proof.
  intros [Hne Hds]. unfold Py.int_of_str.
  destruct ds as [|c ds]; [congruence|].
  replace (forallb Py.is_digit (c :: ds)) with true; [reflexivity|].
  symmetry. apply forallb_forall. now apply Forall_forall.
Qed.

Lemma parse_footnote_template (d : dialect) (body : str) :
  parse_template d 1 None (text "\\\\footnote\1{" ++ body ++ text "}")
  = prepend footnote_items (parse_template d 1 None (body ++ text "}")).
Proof.
  lits. cbn [app].
  cbn [parse_template N.eqb Pos.eqb negb Py.is_digit known_escape
         is_ascii_letter N.leb N.compare Pos.compare Pos.compare_cont andb orb
         emit_group digit_value N.sub Pos.sub_mask Pos.double_mask
         Pos.succ_double_mask Pos.double_pred_mask Pos.pred_double N.to_nat
         Pos.to_nat Pos.iter_op Nat.add Nat.ltb Nat.leb].
  destruct (parse_template d 1 None (body ++ [125%N])); reflexivity.
Qed.

(** One turn of the loop, for the marker of [ds]. *)
Lemma splice_footnote_marker (py : runtime) (fs : list str) (p ds : str) :
  is_number ds ->
  splice_footnote py fs p (marker ds)
  = (note <- Py.index fs (decimal ds - 1) ;;
     items <- parse_template (escapes py) 1 None (note_body note ++ text "}") ;;
     Return (scan_sub (found_re (marker ds)) (footnote_items ++ items)
               (length p) 0 p)).
Proof.
  intros Hds. unfold splice_footnote, re_sub.
  rewrite strip_brackets by assumption. cbn [bind].
  rewrite int_of_number by assumption. cbn [bind].
  destruct (Py.index fs (decimal ds - 1)) as [note|e]; [|reflexivity].
  cbn [bind].
  change (Re.sub (escapes py) note_prefix_re (text "") note)
    with (Return (note_body note)).
  cbn [bind]. unfold Re.sub. change (groups_of (found_re (marker ds))) with 1%nat.
  rewrite parse_footnote_template.
  destruct (parse_template (escapes py) 1 None (note_body note ++ text "}"));
    reflexivity.
Qed.

(** [l[i]] either raises [IndexError] or gives an element of [l]. *)
Lemma index_cases (fs : list str) (i : Z) :
  Py.index fs i = Raise IndexError
  \/ exists note, Py.index fs i = Return note /\ In note fs.
Proof.
  unfold Py.index.
  destruct ((if (i <? 0)%Z then (i + Z.of_nat (length fs))%Z else i) <? 0)%Z;
    [now left|].
  destruct (Z.of_nat (length fs) <=? (if (i <? 0)%Z then i + Z.of_nat (length fs) else i))%Z;
    [now left|].
  cbn [orb].
  destruct (nth_error fs _) as [note|] eqn:E; [|now left].
  right. exists note. split; [reflexivity|]. eapply nth_error_In; eassumption.
Qed.

Lemma index_beyond (fs : list str) (i : Z) :
  (Z.of_nat (length fs) <= i)%Z -> Py.index fs i = Raise IndexError.
Proof.
  intros H. unfold Py.index.
  destruct (Z.ltb_spec i 0); [lia|].
  destruct (Z.ltb_spec i 0); [lia|].
  destruct (Z.leb_spec (Z.of_nat (length fs)) i); [reflexivity | lia].
Qed.


Lemma index_nil (i : Z) : Py.index (@nil (list N)) i = Raise IndexError.
Proof.
  unfold Py.index. simpl.
  destruct (Z.ltb_spec i 0).
  - replace (i + 0)%Z with i by lia.
    destruct (Z.ltb_spec i 0); [reflexivity | lia].
  - destruct (Z.ltb_spec i 0); [lia|].
    destruct (Z.leb_spec 0 i); [reflexivity | lia].
Qed.

(** *** The loop *)

(** What a scan with an empty replacement keeps was in the subject. *)
Lemma scan_sub_empty_In (r : regex) (n k : nat) (s : str) (c : char) :
  In c (scan_sub r [] n k s) -> In c s.
Proof.
  revert k. induction s as [|x s IH]; intros k; [intros []|].
  cbn [scan_sub]. destruct k as [|k]; [|intros H; right; now apply (IH k)].
  destruct (match_here n r (x :: s)) as [[[m gs] rest]|].
  - destruct (length m) as [|l].
    + intros [<-|H]; [now left | right; now apply (IH 0%nat)].
    + cbn [expand flat_map app]. intros H. right. now apply (IH l).
  - intros [<-|H]; [now left | right; now apply (IH 0%nat)].
Qed.

(** A footnote without backslash gives a well-formed template. *)
Lemma plain_note_ok (d : dialect) (note : str) : plain note -> note_ok d note.
Proof.
  intros Hp. unfold note_ok.
  rewrite parse_plain.
  - cbn. eexists. reflexivity.
  - unfold plain in *. rewrite Forall_forall in *. intros c Hc.
    apply Hp. unfold note_body in Hc. eapply scan_sub_empty_In; eassumption.
Qed.

Lemma add_footnotes_loop (py : runtime) (fs : list str) (p x : str) :
  In x (Re.findall marker_re p) ->
  add_footnotes_to_text py fs p
  = for_each (list_of_set py (Re.findall marker_re p)) (splice_footnote py fs) p.
Proof.
  intros Hx. unfold add_footnotes_to_text, Re.search.
  destruct (Re.findall marker_re p); [destruct Hx | reflexivity].
Qed.

Definition all_markers (found : list str) : Prop :=
  forall x, In x found -> exists ds, is_number ds /\ x = marker ds.

(** A loop over markers, one of which has no footnote, raises. *)
Lemma loop_raises (py : runtime) (fs : list str) (found : list str) :
  all_markers found ->
  forall ds p,
    is_number ds -> In (marker ds) found ->
    Py.index fs (decimal ds - 1) = Raise IndexError ->
    (exists e, for_each found (splice_footnote py fs) p = Raise e)
    /\ (Forall (note_ok (escapes py)) fs ->
        for_each found (splice_footnote py fs) p = Raise IndexError).
Proof.
  induction found as [|x found IH]; intros Hall ds p Hds Hin Hidx; [destruct Hin|].
  cbn [for_each].
  destruct (Hall x (or_introl eq_refl)) as (dx & Hdx & ->).
  rewrite splice_footnote_marker by assumption.
  destruct (index_cases fs (decimal dx - 1)) as [E | (note & E & Hnote)];
    rewrite E; cbn [bind].
  - split; [now exists IndexError | reflexivity].
  - assert (Hrest : In (marker ds) found).
    { destruct Hin as [E'|Hin]; [|assumption].
      assert (dx = ds).
      { unfold marker in E'. apply app_inv_head in E'.
        now apply app_inv_tail in E'. }
      subst dx. congruence. }
    assert (Hall' : all_markers found)
      by (intros y Hy; apply Hall; now right).
    destruct (parse_template (escapes py) 1 None (note_body note ++ text "}"))
      as [items|e] eqn:Ep; cbn [bind].
    + apply (IH Hall' ds); assumption.
    + split; [now exists e|].
      intros Hok. rewrite Forall_forall in Hok.
      destruct (Hok note Hnote) as (items & Hitems). congruence.
Qed.

(** The numbers [int] accepts. *)
Lemma int_of_str_number (ds : str) (v : Z) :
  Py.int_of_str ds = Return v -> is_number ds /\ v = decimal ds.
Proof.
  unfold Py.int_of_str. destruct ds as [|c ds]; [discriminate|].
  destruct (forallb Py.is_digit (c :: ds)) eqn:E; [|discriminate].
  intros H. injection H as <-. split; [|reflexivity].
  split; [discriminate|]. apply Forall_forall. now apply forallb_forall.
Qed.

(** The outcome of [add_footnotes_to_text] where a marker has no footnote. *)
Lemma missing_footnote_raises (py : runtime) (fs : list str) (a ds b : str) :
  set_iteration (list_of_set py) ->
  is_number ds ->
  Py.index fs (decimal ds - 1) = Raise IndexError ->
  (exists e, add_footnotes_to_text py fs (a ++ marker ds ++ b) = Raise e)
  /\ (Forall (note_ok (escapes py)) fs ->
      add_footnotes_to_text py fs (a ++ marker ds ++ b) = Raise IndexError).
Proof.
  intros Hset Hds Hidx.
  pose proof (findall_occurrence (length (a ++ marker ds ++ b)) a ds b Hds) as Hin.
  fold (Re.findall marker_re (a ++ marker ds ++ b)) in Hin.
  rewrite (add_footnotes_loop py fs _ _ Hin).
  destruct (Hset (Re.findall marker_re (a ++ marker ds ++ b))) as [_ Hmem].
  apply (loop_raises py fs _) with (ds := ds); try assumption.
  - intros x Hx. apply Hmem in Hx. unfold Re.findall in Hx.
    eapply findall_markers; eassumption.
  - now apply Hmem.
Qed.

(** *** Paragraphs of text and markers *)




Lemma match_here_note_prefix (n : nat) (s : str) :
  match_here n note_prefix_re s = run_match [91%N] digits [93; 32]%N false s.
Proof.
  unfold note_prefix_re. lits. apply match_here_run.
  apply ends_digits. reflexivity.
Qed.

(** Stripping the prefix of a note. *)
Lemma note_body_prefixed (k tpl : str) :
  is_number k -> bracket_free tpl ->
  note_body (text "[" ++ k ++ text "] " ++ tpl) = tpl.
Proof.
  intros Hk Hfree. unfold note_body.
  generalize (length (text "[" ++ k ++ text "] " ++ tpl)). intros n.
  assert (Hm : match_here n note_prefix_re (text "[" ++ k ++ text "] " ++ tpl)
               = Some (text "[" ++ k ++ text "] ", [], tpl)).
  { rewrite match_here_note_prefix. lits.
    apply (run_match_intro [91%N] digits [93; 32]%N false k tpl);
      [apply ends_digits; reflexivity | discriminate | apply Hk
       | now apply number_in_set]. }
  rewrite (scan_sub_match _ _ _ _ _ _ _ Hm) by discriminate.
  cbn [expand flat_map app].
  rewrite <- (app_nil_r tpl) at 1.
  rewrite scan_sub_copy; [now rewrite app_nil_r|].
  intros u1 c u2 ->. rewrite app_nil_r, match_here_note_prefix.
  unfold run_match. cbn [strip_prefix].
  destruct (N.eqb_spec 91 c) as [<-|]; [|reflexivity].
  elim Hfree. rewrite in_app_iff. right. now left.
Qed.





Section Pieces.

Variables (d : dialect) (fs : list str).



End Pieces.



(** Boolean tests, for concrete strings. *)
Lemma bracket_free_test (s : str) :
  forallb (fun c => negb (N.eqb c 91)) s = true -> bracket_free s.
Proof.
  intros H Hin. rewrite forallb_forall in H. specialize (H _ Hin).
  discriminate H.
Qed.

Lemma number_test (ds : str) :
  negb (str_eqb ds []) && forallb Py.is_digit ds = true -> is_number ds.
Proof.
  intros H. apply andb_prop in H. destruct H as [H1 H2]. split.
  - intros ->. discriminate H1.
  - apply Forall_forall. now apply forallb_forall.
Qed.

End FootnoteFacts.

(** ** Loops that index from the end *)

Module LoopFacts.

Lemma index_from_end {A : Type} (l : list A) (i : nat) :
  Py.index l (-1 - Z.of_nat i)
  = match nth_error (rev l) i with
    | Some x => Return x
    | None => Raise IndexError
    end.
Proof.
  unfold Py.index.
  destruct (Z.ltb_spec (-1 - Z.of_nat i) 0) as [_|H]; [|lia].
  destruct (Nat.lt_ge_cases i (length l)) as [Hi|Hi].
  - destruct (Z.ltb_spec (-1 - Z.of_nat i + Z.of_nat (length l)) 0); [lia|].
    destruct (Z.leb_spec (Z.of_nat (length l))
                (-1 - Z.of_nat i + Z.of_nat (length l))); [lia|].
    cbn [orb].
    replace (Z.to_nat (-1 - Z.of_nat i + Z.of_nat (length l)))
      with (length l - S i)%nat by lia.
    rewrite nth_error_rev.
    replace (i <? length l)%nat with true
      by (symmetry; apply Nat.ltb_lt; lia).
    reflexivity.
  - replace (nth_error (rev l) i) with (@None A)
      by (symmetry; apply nth_error_None; rewrite length_rev; lia).
    destruct (Z.ltb_spec (-1 - Z.of_nat i + Z.of_nat (length l)) 0);
      [reflexivity | lia].
Qed.

(** A loop over [range(len(l))] that takes [l[-1-i]] is a loop over [l]
    reversed. *)
Lemma for_each_from_end {A T : Type} (l : list A) (body : T -> A -> result T) :
  forall (k i : nat) (acc : T),
    (i + k <= length l)%nat ->
    for_each (map Z.of_nat (seq i k))
      (fun acc j => x <- Py.index l (-1 - j) ;; body acc x) acc
    = for_each (firstn k (skipn i (rev l))) body acc.
Proof.
  induction k as [|k IH]; intros i acc Hi; [reflexivity|].
  cbn [seq map for_each]. rewrite index_from_end.
  destruct (nth_error (rev l) i) as [x|] eqn:E.
  - assert (Hs : skipn i (rev l) = x :: skipn (S i) (rev l)).
    { clear -E. revert i E. induction (rev l) as [|y r IHr]; intros [|i] E;
        try discriminate.
      - injection E as ->. reflexivity.
      - simpl in E. simpl. now apply IHr. }
    rewrite Hs. cbn [firstn for_each bind].
    destruct (body acc x) as [acc'|e]; [|reflexivity].
    cbn [bind]. apply IH. lia.
  - apply nth_error_None in E. rewrite length_rev in E. lia.
Qed.

Lemma for_each_reversed {A T : Type} (l : list A) (body : T -> A -> result T)
    (acc : T) :
  for_each (range (length l))
    (fun acc j => x <- Py.index l (-1 - j) ;; body acc x) acc
  = for_each (rev l) body acc.
Proof.
  unfold range. rewrite for_each_from_end by lia.
  rewrite skipn_O, <- (length_rev l), firstn_all. reflexivity.
Qed.

(** The same for a loop that takes [l1[-1-i]] and [l2[-1-i]]. *)
Lemma for_each_from_end2 {A T : Type} (l1 l2 : list A)
    (f g : T -> A -> result T) :
  (length l1 <= length l2)%nat ->
  forall (k i : nat) (acc : T),
    (i + k <= length l1)%nat ->
    for_each (map Z.of_nat (seq i k))
      (fun acc j =>
         x <- Py.index l1 (-1 - j) ;; acc <- f acc x ;;
         y <- Py.index l2 (-1 - j) ;; g acc y) acc
    = for_each (firstn k (skipn i (combine (rev l1) (rev l2))))
        (fun acc xy => acc <- f acc (fst xy) ;; g acc (snd xy)) acc.
Proof.
  intros Hlen. induction k as [|k IH]; intros i acc Hi; [reflexivity|].
  cbn [seq map for_each]. rewrite !index_from_end.
  destruct (nth_error (rev l1) i) as [x|] eqn:E1;
    [|apply nth_error_None in E1; rewrite length_rev in E1; lia].
  destruct (nth_error (rev l2) i) as [y|] eqn:E2;
    [|apply nth_error_None in E2; rewrite length_rev in E2; lia].
  assert (Hs : skipn i (combine (rev l1) (rev l2))
               = (x, y) :: skipn (S i) (combine (rev l1) (rev l2))).
  { clear -E1 E2. revert i E1 E2. generalize (rev l2) as r2.
    induction (rev l1) as [|a r1 IHr]; intros [|b r2] [|i] E1 E2;
      try discriminate.
    - injection E1 as ->. injection E2 as ->. reflexivity.
    - simpl in E1, E2. simpl. now apply IHr. }
  rewrite Hs. cbn [firstn for_each bind fst snd].
  destruct (f acc x) as [acc'|e]; [|reflexivity]. cbn [bind].
  destruct (g acc' y) as [acc''|e]; [|reflexivity]. cbn [bind].
  apply IH. lia.
Qed.

Lemma in_skipn {A : Type} (n : nat) (l : list A) (x : A) :
  In x (skipn n l) -> In x l.
Proof.
  intros H. rewrite <- (firstn_skipn n l). apply in_or_app. now right.
Qed.

End LoopFacts.

(** ** The compositor *)

Module OccurrenceFacts.

Import Re ReFacts PatternFacts TemplateFacts Chapter Vocabulary Terms.

(** *** Where a literal begins *)

Lemma positions_from_In (l : str) (s : str) :
  forall (i k : nat),
    In k (positions_from l i s)
    <-> exists s1 c s2,
          s = s1 ++ c :: s2 /\ k = i + length s1
          /\ strip_prefix l (c :: s2) <> None.
Proof.
  induction s as [|c s IH]; intros i k.
  - cbn [positions_from]. split; [intros [] |].
    intros (s1 & x & s2 & E & _). destruct s1; discriminate E.
  - cbn [positions_from]. rewrite in_app_iff, IH. split.
    + intros [H | (s1 & x & s2 & -> & -> & Hm)].
      * destruct (strip_prefix l (c :: s)) eqn:E; [|destruct H].
        destruct H as [<-|[]]. exists [], c, s.
        repeat split; [simpl; lia | congruence].
      * exists (c :: s1), x, s2. repeat split; [simpl; lia | assumption].
    + intros (s1 & x & s2 & E & -> & Hm). destruct s1 as [|y s1].
      * injection E as <- <-. left.
        destruct (strip_prefix l (c :: s)); [|congruence].
        left. simpl. lia.
      * injection E as <- ->. right. exists s1, x, s2.
        repeat split; [simpl; lia | assumption].
Qed.

(** A failed comparison with a literal is decided within the length of the
    literal. *)
Lemma strip_prefix_None_longer (l x t t' : str) :
  length l <= length x ->
  strip_prefix l (x ++ t) = None -> strip_prefix l (x ++ t') = None.
Proof.
  revert x. induction l as [|a l IH]; intros x Hlen H; [discriminate H|].
  destruct x as [|b x]; [simpl in Hlen; lia|].
  cbn [app strip_prefix] in *.
  destruct (N.eqb a b); [|reflexivity].
  apply IH; [simpl in Hlen; lia | assumption].
Qed.

(** [l] begins nowhere in [t]. *)
Definition absent (l t : str) : Prop :=
  forall t1 c t2, t = t1 ++ c :: t2 -> strip_prefix l (c :: t2) = None.

(** [l] begins nowhere in [u], whatever follows the [l] after [u]. *)
Definition first_after (l u : str) : Prop :=
  forall u1 c u2 t, u = u1 ++ c :: u2 ->
    strip_prefix l (c :: u2 ++ l ++ t) = None.

Lemma absent_suffix (l a b : str) : absent l (a ++ b) -> absent l b.
Proof.
  intros H t1 c t2 ->. apply (H (a ++ t1) c t2). now rewrite app_assoc.
Qed.

Lemma once_split (l u t : str) :
  l <> [] ->
  positions l (u ++ l ++ t) = [length u] -> first_after l u /\ absent l t.
Proof.
  intros Hl H. split.
  - intros u1 c u2 t' ->.
    destruct (strip_prefix l (c :: u2 ++ l ++ t)) eqn:E.
    + assert (Hin : In (length u1) (positions l ((u1 ++ c :: u2) ++ l ++ t))).
      { apply positions_from_In. exists u1, c, (u2 ++ l ++ t).
        repeat split.
        - now rewrite <- app_assoc.
        - rewrite E. discriminate. }
      rewrite H in Hin. destruct Hin as [Hin|[]].
      rewrite length_app in Hin. simpl in Hin. lia.
    + replace (c :: u2 ++ l ++ t') with ((c :: u2 ++ l) ++ t')
        by (simpl; now rewrite <- app_assoc).
      apply strip_prefix_None_longer with t.
      * simpl. rewrite length_app. lia.
      * simpl. now rewrite <- app_assoc.
  - intros t1 c t2 ->.
    destruct (strip_prefix l (c :: t2)) eqn:E; [|reflexivity].
    assert (Hin : In (length (u ++ l ++ t1))
                    (positions l (u ++ l ++ t1 ++ c :: t2))).
    { apply positions_from_In. exists (u ++ l ++ t1), c, t2.
      repeat split.
      - now rewrite <- !app_assoc.
      - rewrite E. discriminate. }
    rewrite H in Hin. destruct Hin as [Hin|[]].
    rewrite !length_app in Hin. destruct l; [now elim Hl|]. simpl in Hin. lia.
Qed.

(** One substitution in a text that holds the literal [l] once, for a
    pattern [r] that matches [l], with the groups [gs]. *)
Lemma scan_once (r : regex) (l : str) (gs : list str) (items : list titem)
    (n : nat) (u t : str) :
  l <> [] ->
  (forall n s, match_here n r s
               = match strip_prefix l s with
                 | Some rest => Some (l, gs, rest)
                 | None => None
                 end) ->
  first_after l u -> absent l t ->
  scan_sub r items n 0 (u ++ l ++ t) = u ++ expand items (l :: gs) ++ t.
Proof.
  intros Hl Hr Hu Ht.
  rewrite scan_sub_copy.
  2:{ intros u1 c u2 E. rewrite Hr. now rewrite (Hu u1 c u2 t E). }
  f_equal.
  rewrite (scan_sub_match n r items (l ++ t) l t gs);
    [|now rewrite Hr, strip_prefix_app | assumption].
  f_equal.
  rewrite <- (app_nil_r t) at 1.
  rewrite scan_sub_copy; [now rewrite app_nil_r|].
  intros t1 c t2 E. rewrite Hr, app_nil_r. now rewrite (Ht t1 c t2 E).
Qed.


(** *** What follows a text *)

(** [l] begins nowhere in [a], when [t] follows [a]. *)
Definition clear (l a t : str) : Prop :=
  forall a1 c a2, a = a1 ++ c :: a2 -> strip_prefix l (c :: a2 ++ t) = None.

Lemma absent_clear (l t : str) : absent l t <-> clear l t [].
Proof.
  unfold absent, clear. split; intros H t1 c t2 E.
  - rewrite app_nil_r. now apply (H t1).
  - specialize (H t1 c t2 E). now rewrite app_nil_r in H.
Qed.

Lemma first_after_clear (l u : str) :
  first_after l u <-> forall t, clear l u (l ++ t).
Proof.
  unfold first_after, clear. split.
  - intros H t u1 c u2 E. now apply (H u1).
  - intros H u1 c u2 t E. now apply (H t u1).
Qed.

Lemma clear_app (l a b t : str) :
  clear l (a ++ b) t <-> clear l a (b ++ t) /\ clear l b t.
Proof.
  unfold clear. split.
  - intros H. split.
    + intros a1 c a2 ->. rewrite app_assoc. apply (H a1).
      now rewrite <- app_assoc.
    + intros b1 c b2 ->. apply (H (a ++ b1)). now rewrite <- app_assoc.
  - intros [Ha Hb] x1 c x2 E.
    apply app_eq_app in E. destruct E as (m & [[E1 E2] | [E1 E2]]).
    + destruct m as [|c' m].
      * cbn [app] in E2. apply (Hb [] c x2). now rewrite <- E2.
      * cbn [app] in E2. injection E2 as <- ->.
        rewrite <- app_assoc. now apply (Ha x1).
    + now apply (Hb m).
Qed.

Lemma clear_suffix (l a b t : str) : clear l (a ++ b) t -> clear l b t.
Proof. intros H. now apply clear_app in H. Qed.

(** A comparison with a literal that holds no backslash is decided before
    the first backslash of the text. *)
Lemma strip_prefix_backslash (l u t t' : str) :
  ~ In 92%N l ->
  strip_prefix l (u ++ 92%N :: t) = None ->
  strip_prefix l (u ++ 92%N :: t') = None.
Proof.
  revert u. induction l as [|x l IH]; intros u Hl H; [discriminate H|].
  destruct u as [|y u]; cbn [app strip_prefix] in *.
  - destruct (N.eqb_spec x 92) as [->|]; [|reflexivity].
    elim Hl. now left.
  - destruct (N.eqb x y); [|reflexivity].
    apply IH; [|assumption]. intros Hin. apply Hl. now right.
Qed.

(** So is the search in a text for a literal whose only backslash is its
    first character. *)
Lemma clear_backslash (x : char) (l a t t' : str) :
  ~ In 92%N l ->
  clear (x :: l) a (92%N :: t) -> clear (x :: l) a (92%N :: t').
Proof.
  intros Hl H a1 c a2 E. specialize (H a1 c a2 E).
  cbn [strip_prefix] in *. destruct (N.eqb x c); [|reflexivity].
  now apply strip_prefix_backslash with t.
Qed.

(** A literal begins nowhere in a text without its first character. *)
Lemma clear_other (x : char) (l a t : str) :
  ~ In x a -> clear (x :: l) a t.
Proof.
  intros Ha a1 c a2 ->. cbn [strip_prefix].
  destruct (N.eqb_spec x c) as [->|]; [|reflexivity].
  elim Ha. apply in_or_app. right. now left.
Qed.

(** A text in which [l] begins once holds it at its place only. *)
Lemma once_at (l u t : str) :
  l <> [] ->
  length (positions l (u ++ l ++ t)) = 1%nat ->
  positions l (u ++ l ++ t) = [length u].
Proof.
  intros Hl H.
  destruct l as [|c l]; [now elim Hl|].
  assert (Hin : In (length u) (positions (c :: l) (u ++ (c :: l) ++ t))).
  { apply positions_from_In. exists u, c, (l ++ t).
    repeat split.
    change (c :: l ++ t) with ((c :: l) ++ t).
    rewrite strip_prefix_app. discriminate. }
  destruct (positions (c :: l) (u ++ (c :: l) ++ t)) as [|k [|k' ks]];
    try discriminate H.
  destruct Hin as [->|[]]. reflexivity.
Qed.

End OccurrenceFacts.

Module CompositorFacts.

Import Re ReFacts PatternFacts TemplateFacts Chapter Vocabulary.
Import OccurrenceFacts.

(** *** The two anchors *)

Definition latin_rest : str := Eval vm_compute in tl latin_anchor.
Definition english_rest : str := Eval vm_compute in tl english_anchor.

Lemma latin_anchor_eq : latin_anchor = 92%N :: latin_rest.
Proof. reflexivity. Qed.

Lemma english_anchor_eq : english_anchor = 92%N :: english_rest.
Proof. reflexivity. Qed.

Lemma latin_rest_plain : ~ In 92%N latin_rest.
Proof.
  intros H.
  assert (E : existsb (N.eqb 92) latin_rest = true)
    by (apply existsb_exists; exists 92%N; split; [exact H | reflexivity]).
  discriminate E.
Qed.

Lemma english_rest_plain : ~ In 92%N english_rest.
Proof.
  intros H.
  assert (E : existsb (N.eqb 92) english_rest = true)
    by (apply existsb_exists; exists 92%N; split; [exact H | reflexivity]).
  discriminate E.
Qed.

(** Neither anchor begins inside the other. *)
Lemma latin_clear_of_english (t : str) : clear latin_anchor english_anchor t.
Proof.
  rewrite english_anchor_eq.
  change (92%N :: english_rest) with ([92%N] ++ english_rest).
  apply clear_app. split.
  - intros a1 c a2 E. destruct a1 as [|x a1].
    + injection E as <- <-. reflexivity.
    + destruct a1; discriminate E.
  - rewrite latin_anchor_eq. apply clear_other, english_rest_plain.
Qed.

Lemma english_clear_of_latin (t : str) : clear english_anchor latin_anchor t.
Proof.
  rewrite latin_anchor_eq.
  change (92%N :: latin_rest) with ([92%N] ++ latin_rest).
  apply clear_app. split.
  - intros a1 c a2 E. destruct a1 as [|x a1].
    + injection E as <- <-. reflexivity.
    + destruct a1; discriminate E.
  - rewrite english_anchor_eq. apply clear_other, latin_rest_plain.
Qed.

(** The document: the template with [xl] after the Latin anchor and [xe]
    after the English one. *)
Definition document (pre mid post xl xe : str) : str :=
  pre ++ latin_anchor ++ xl ++ mid ++ english_anchor ++ xe ++ post.

Section Document.

Variables pre mid post : str.

(** Each anchor of the document stands at its place only. *)
Definition ready (xl xe : str) : Prop :=
  first_after latin_anchor pre
  /\ absent latin_anchor (xl ++ mid ++ english_anchor ++ xe ++ post)
  /\ first_after english_anchor (pre ++ latin_anchor ++ xl ++ mid)
  /\ absent english_anchor (xe ++ post).

(** A document that holds each anchor once is ready. *)
Lemma once_ready (xl xe : str) :
  length (Terms.positions latin_anchor (document pre mid post xl xe)) = 1%nat ->
  length (Terms.positions english_anchor (document pre mid post xl xe)) = 1%nat ->
  ready xl xe.
Proof.
  unfold document. intros H1 H2.
  apply once_at in H1; [|discriminate].
  apply once_split in H1; [|discriminate]. destruct H1 as [Ha Hb].
  replace (pre ++ latin_anchor ++ xl ++ mid ++ english_anchor ++ xe ++ post)
    with ((pre ++ latin_anchor ++ xl ++ mid) ++ english_anchor ++ xe ++ post)
    in H2 by (now rewrite <- !app_assoc).
  apply once_at in H2; [|discriminate].
  apply once_split in H2; [|discriminate]. destruct H2 as [Hc Hd].
  repeat split; assumption.
Qed.

(** With less text after the anchors the document is still ready: what is
    put after an anchor begins with a backslash or is what was there. *)
Lemma ready_suffix (xl0 xl xe0 xe : str) :
  ready (xl0 ++ xl) (xe0 ++ xe) -> ready xl xe.
Proof.
  intros (Ha & Hb & Hc & Hd). split; [exact Ha|]. split; [|split].
  - apply absent_clear. apply absent_clear in Hb.
    replace ((xl0 ++ xl) ++ mid ++ english_anchor ++ (xe0 ++ xe) ++ post)
      with (xl0 ++ (xl ++ mid) ++ english_anchor ++ xe0 ++ xe ++ post)
      in Hb by (now rewrite <- !app_assoc).
    apply clear_suffix in Hb. apply clear_app in Hb. destruct Hb as [Hb1 Hb2].
    apply clear_app in Hb2. destruct Hb2 as [_ Hb2].
    apply clear_suffix in Hb2.
    rewrite app_assoc. apply clear_app. split.
    + rewrite latin_anchor_eq, english_anchor_eq in *.
      cbn [app] in *. eapply clear_backslash; [apply latin_rest_plain|].
      exact Hb1.
    + apply clear_app. split; [apply latin_clear_of_english | exact Hb2].
  - apply first_after_clear. intros t.
    pose proof (proj1 (first_after_clear _ _) Hc t) as H.
    replace (pre ++ latin_anchor ++ (xl0 ++ xl) ++ mid)
      with (pre ++ latin_anchor ++ xl0 ++ xl ++ mid)
      in H by (now rewrite <- !app_assoc).
    apply clear_app in H. destruct H as [H1 H2].
    apply clear_app in H2. destruct H2 as [_ H2].
    apply clear_suffix in H2.
    apply clear_app. split.
    + rewrite latin_anchor_eq, english_anchor_eq in *.
      cbn [app] in *. eapply clear_backslash; [apply english_rest_plain|].
      exact H1.
    + apply clear_app. split; [apply english_clear_of_latin | exact H2].
  - rewrite <- app_assoc in Hd. eapply absent_suffix. exact Hd.
Qed.

Lemma ready_suffix_l (xl0 xl xe : str) : ready (xl0 ++ xl) xe -> ready xl xe.
Proof. apply (ready_suffix xl0 xl [] xe). Qed.

Lemma ready_suffix_r (xl xe0 xe : str) : ready xl (xe0 ++ xe) -> ready xl xe.
Proof. apply (ready_suffix [] xl xe0 xe). Qed.

Lemma insert_latin (n : nat) (y xl xe : str) :
  ready xl xe ->
  scan_sub (anchor_re latin_anchor) (TGroup 1 :: map TChar y) n 0
    (document pre mid post xl xe)
  = document pre mid post (y ++ xl) xe.
Proof.
  intros (Ha & Hb & _). unfold document.
  rewrite (scan_once (anchor_re latin_anchor) latin_anchor [latin_anchor]);
    try assumption.
  - change (expand (TGroup 1 :: map TChar y) [latin_anchor; latin_anchor])
      with (latin_anchor ++ expand (map TChar y) [latin_anchor; latin_anchor]).
    now rewrite expand_chars, <- !app_assoc.
  - discriminate.
  - intros n' s. apply match_here_literal.
Qed.

Lemma insert_english (n : nat) (y xl xe : str) :
  ready xl xe ->
  scan_sub (anchor_re english_anchor) (TGroup 1 :: map TChar y) n 0
    (document pre mid post xl xe)
  = document pre mid post xl (y ++ xe).
Proof.
  intros (_ & _ & Hc & Hd). unfold document.
  replace (pre ++ latin_anchor ++ xl ++ mid ++ english_anchor ++ xe ++ post)
    with ((pre ++ latin_anchor ++ xl ++ mid) ++ english_anchor ++ xe ++ post)
    by (now rewrite <- !app_assoc).
  rewrite (scan_once (anchor_re english_anchor) english_anchor [english_anchor]);
    try assumption.
  - change (expand (TGroup 1 :: map TChar y) [english_anchor; english_anchor])
      with (english_anchor
            ++ expand (map TChar y) [english_anchor; english_anchor]).
    now rewrite expand_chars, <- !app_assoc.
  - discriminate.
  - intros n' s. apply match_here_literal.
Qed.

End Document.

(** *** The templates of [insert_into_template] *)

Lemma parse_insert (par : str) :
  parse_template Lenient 1 None (text "\1" ++ separator ++ par)
  = prepend (TGroup 1 :: map TChar separator)
      (parse_template Lenient 1 None par).
Proof.
  unfold separator. lits. cbn [app].
  cbn [parse_template N.eqb Pos.eqb negb Py.is_digit known_escape
         is_ascii_letter N.leb N.compare Pos.compare Pos.compare_cont andb orb
         emit_group digit_value N.sub Pos.sub_mask Pos.double_mask
         Pos.succ_double_mask Pos.double_pred_mask Pos.pred_double N.to_nat
         Pos.to_nat Pos.iter_op Nat.add Nat.ltb Nat.leb].
  destruct (parse_template Lenient 1 None par); reflexivity.
Qed.

Lemma parse_heading (number : Z) :
  parse_template Lenient 1 None (heading_template number)
  = Return (TGroup 1 :: map TChar (heading_text number)).
Proof.
  unfold heading_template, heading_text.
  pose proof (plain_str_of_int number) as Hplain.
  generalize dependent (Py.str_of_int number). intros ds Hplain.
  change (text "\1\\begin{large}\\begin{center}")
    with ([92; 49; 92; 92]%N ++ text "begin{large}" ++ [92; 92]%N
          ++ text "begin{center}").
  rewrite <- !app_assoc. cbn [app].
  cbn [parse_template N.eqb Pos.eqb negb Py.is_digit known_escape
         is_ascii_letter N.leb N.compare Pos.compare Pos.compare_cont andb orb
         emit_group digit_value N.sub Pos.sub_mask Pos.double_mask
         Pos.succ_double_mask Pos.double_pred_mask Pos.pred_double N.to_nat
         Pos.to_nat Pos.iter_op Nat.add Nat.ltb Nat.leb].
  rewrite (parse_plain Lenient 1 (text "begin{large}")
             (92%N :: 92%N :: text "begin{center}" ++ ds
              ++ text "\end{center}\end{large}" ++ [LF]))
    by (apply plain_test; reflexivity).
  cbn [parse_template N.eqb Pos.eqb negb Py.is_digit known_escape
         is_ascii_letter N.leb N.compare Pos.compare Pos.compare_cont andb orb].
  rewrite (app_assoc (text "begin{center}") ds).
  rewrite (parse_plain Lenient 1 (text "begin{center}" ++ ds)
             (text "\end{center}\end{large}" ++ [LF])).
  2:{ apply Forall_app. split; [apply plain_test; reflexivity | assumption]. }
  replace (parse_template Lenient 1 None (text "\end{center}\end{large}" ++ [LF]))
    with (Return (map TChar (text "\end{center}\end{large}" ++ [LF])))
    by (vm_compute; reflexivity).
  cbn [prepend emit bind]. f_equal. f_equal.
  rewrite !map_app. cbn [map app]. rewrite <- !app_assoc. reflexivity.
Qed.

(** One insertion of a paragraph. *)
Lemma sub_paragraph (py : runtime) (anchor par doc : str) :
  escapes py = Lenient -> insertable par ->
  re_sub py (anchor_re anchor) (text "\1" ++ separator ++ par) doc
  = Return (scan_sub (anchor_re anchor) (TGroup 1 :: map TChar (separated par))
              (length doc) 0 doc).
Proof.
  intros Hlen Hparse. unfold re_sub, Re.sub. rewrite Hlen.
  change (groups_of (anchor_re anchor)) with 1%nat.
  rewrite parse_insert, Hparse. cbn [prepend bind].
  unfold separated. now rewrite map_app.
Qed.

(** The insertion of the heading. *)
Lemma sub_heading (py : runtime) (anchor doc : str) (number : Z) :
  escapes py = Lenient ->
  re_sub py (anchor_re anchor) (heading_template number) doc
  = Return (scan_sub (anchor_re anchor)
              (TGroup 1 :: map TChar (heading_text number)) (length doc) 0 doc).
Proof.
  intros Hlen. unfold re_sub, Re.sub. rewrite Hlen.
  change (groups_of (anchor_re anchor)) with 1%nat.
  now rewrite parse_heading.
Qed.

Lemma map_fst_combine {A B : Type} (l1 : list A) (l2 : list B) :
  length l1 = length l2 -> map fst (combine l1 l2) = l1.
Proof.
  revert l2. induction l1 as [|a l1 IH]; intros [|b l2] E;
    try discriminate E; [reflexivity|].
  cbn [combine map fst]. f_equal. apply IH. now injection E.
Qed.

Lemma map_snd_combine {A B : Type} (l1 : list A) (l2 : list B) :
  length l1 = length l2 -> map snd (combine l1 l2) = l2.
Proof.
  revert l2. induction l1 as [|a l1 IH]; intros [|b l2] E;
    try discriminate E; [reflexivity|].
  cbn [combine map snd]. f_equal. apply IH. now injection E.
Qed.

Section Chapters.

Variables (py : runtime) (pre mid post : str).
Hypothesis Hlen : escapes py = Lenient.

Let doc := document pre mid post.
Let ready := ready pre mid post.

(** The paragraphs of a chapter, taken last first in pairs. *)
Lemma pairs_inserted (pairs : list (str * str)) :
  Forall (fun xy => insertable (fst xy) /\ insertable (snd xy)) pairs ->
  forall xl xe,
    ready (flat_map separated (rev (map fst pairs)) ++ xl)
          (flat_map separated (rev (map snd pairs)) ++ xe) ->
    for_each pairs
      (fun template xy =>
         template <- re_sub py (anchor_re latin_anchor)
                       (text "\1" ++ separator ++ fst xy) template ;;
         re_sub py (anchor_re english_anchor)
           (text "\1" ++ separator ++ snd xy) template)
      (doc xl xe)
    = Return (doc (flat_map separated (rev (map fst pairs)) ++ xl)
                  (flat_map separated (rev (map snd pairs)) ++ xe)).
Proof.
  induction 1 as [|[x y] pairs [Hx Hy] Hps IH]; intros xl xe Hr;
    [reflexivity|].
  cbn [map rev fst snd] in Hr. rewrite !flat_map_app in Hr.
  cbn [flat_map] in Hr. rewrite !app_nil_r, <- !app_assoc in Hr.
  pose proof (ready_suffix _ _ _ _ _ _ _ Hr) as Hr1.
  cbn [for_each fst snd].
  rewrite (sub_paragraph py _ _ _ Hlen Hx). cbn [bind].
  unfold doc. rewrite insert_latin
    by exact (ready_suffix pre mid post (separated x) xl (separated y) xe Hr1).
  rewrite (sub_paragraph py _ _ _ Hlen Hy). cbn [bind].
  rewrite insert_english
    by exact (ready_suffix_r pre mid post _ (separated y) xe Hr1).
  fold doc. rewrite IH by exact Hr.
  cbn [map rev fst snd]. rewrite !flat_map_app. cbn [flat_map].
  rewrite !app_nil_r, <- !app_assoc. reflexivity.
Qed.

(** One chapter put into the document. *)
Lemma chapter_inserted (c : chapter) (xl xe : str) :
  parallel c ->
  ready (latin_block c ++ xl) (english_block c ++ xe) ->
  insert_into_template py c (doc xl xe)
  = Return (doc (latin_block c ++ xl) (english_block c ++ xe)).
Proof.
  intros (Heq & Hl & He) Hr. unfold insert_into_template, range.
  rewrite (LoopFacts.for_each_from_end2 (latin_pars c) (english_pars c)
             (fun template x =>
                re_sub py (anchor_re latin_anchor)
                  (text "\1" ++ separator ++ x) template)
             (fun template y =>
                re_sub py (anchor_re english_anchor)
                  (text "\1" ++ separator ++ y) template)
             ltac:(lia) (length (latin_pars c)) 0 (doc xl xe) ltac:(lia)).
  rewrite skipn_O.
  rewrite firstn_all2
    by (rewrite length_combine, !length_rev; lia).
  unfold latin_block, english_block, block in Hr |- *.
  rewrite <- !app_assoc in Hr.
  pose proof (ready_suffix _ _ _ _ _ _ _ Hr) as Hr1.
  assert (Hfst : map fst (combine (rev (latin_pars c)) (rev (english_pars c)))
                 = rev (latin_pars c))
    by (apply map_fst_combine; rewrite !length_rev; exact Heq).
  assert (Hsnd : map snd (combine (rev (latin_pars c)) (rev (english_pars c)))
                 = rev (english_pars c))
    by (apply map_snd_combine; rewrite !length_rev; exact Heq).
  rewrite pairs_inserted.
  2:{ apply Forall_forall. intros [x y] Hin. simpl.
      pose proof (in_combine_l _ _ _ _ Hin) as Hx.
      pose proof (in_combine_r _ _ _ _ Hin) as Hy.
      rewrite <- in_rev in Hx, Hy. rewrite Forall_forall in Hl, He. auto. }
  2:{ rewrite Hfst, Hsnd, !rev_involutive. exact Hr1. }
  cbn [bind]. rewrite Hfst, Hsnd, !rev_involutive.
  rewrite (sub_heading py _ _ _ Hlen). cbn [bind].
  unfold doc. rewrite insert_latin by exact Hr1.
  rewrite (sub_heading py _ _ _ Hlen).
  rewrite insert_english
    by (apply (ready_suffix_r pre mid post _ (heading_text (number c)) _);
        exact Hr).
  now rewrite <- !app_assoc.
Qed.

(** Chapters put into the document one after the other. *)
Lemma chapters_inserted (cs : list chapter) :
  Forall parallel cs ->
  forall xl xe,
    ready (flat_map latin_block (rev cs) ++ xl)
          (flat_map english_block (rev cs) ++ xe) ->
    for_each cs (fun output c => insert_into_template py c output) (doc xl xe)
    = Return (doc (flat_map latin_block (rev cs) ++ xl)
                  (flat_map english_block (rev cs) ++ xe)).
Proof.
  induction 1 as [|c cs Hc Hcs IH]; intros xl xe Hr; [reflexivity|].
  cbn [rev] in Hr |- *. rewrite !flat_map_app in Hr |- *.
  cbn [flat_map] in Hr |- *. rewrite !app_nil_r, <- !app_assoc in Hr |- *.
  cbn [for_each].
  rewrite chapter_inserted
    by (try assumption; eapply ready_suffix; exact Hr).
  cbn [bind]. now apply IH.
Qed.

End Chapters.

End CompositorFacts.


(** * The claims *)

Module Claims.

Import Roman RomanFacts.
Import Re ReFacts PatternFacts TemplateFacts Chapter Vocabulary.
Import FootnoteFacts (add_footnotes_loop).
Local Open Scope Z_scope.

Lemma number_to_roman_is_standard (n : Z) :
  number_to_roman n = standard_numeral n.
Proof.
  rewrite number_to_roman_standard. unfold standard_numeral.
  destruct (digits_of n) as [-> ->]. reflexivity.
Qed.

Lemma roman_value_standard (n : Z) :
  0 <= n -> roman_value (standard_numeral n) = Some n.
Proof.
  intros Hn. unfold standard_numeral.
  destruct (digits_of n) as [Hh Ht]. rewrite <- Hh, <- Ht.
  rewrite (@roman_value_thousands _ _ (100 * (n mod 1000 / 100)
            + 10 * (n mod 100 / 10) + n mod 10)).
  - f_equal. rewrite Z2Nat.id by (apply Z.div_pos; lia).
    pose proof (Z.div_mod n 1000).
    pose proof (Z.div_mod (n mod 1000) 100).
    pose proof (Z.div_mod (n mod 100) 10).
    assert ((n mod 1000) mod 100 = n mod 100)
      by (apply Z.mod_mod_divide; exists 10; lia).
    assert ((n mod 100) mod 10 = n mod 10)
      by (apply Z.mod_mod_divide; exists 10; lia).
    lia.
  - apply roman_value_below_1000.
    + rewrite Hh. pose proof (Z.mod_pos_bound (n / 100) 10). lia.
    + rewrite Ht. pose proof (Z.mod_pos_bound (n / 10) 10). lia.
    + pose proof (Z.mod_pos_bound n 10). lia.
Qed.

(** C4.  For every positive integer [n], [number_to_roman n] is the standard
    lowercase numeral of [n] (the thousands as repeated "m", then the
    numerals of the hundreds, tens and ones digits, subtractive at 4 and 9),
    re-expanding it by the subtractive rule gives [n] back, and the literal
    cases 1, 4, 9, 14, 40, 90, 444 and 1994 come out as listed. *)
Theorem number_to_roman_round_trip (n : Z) (Hpos : 0 < n) :
  number_to_roman n = standard_numeral n
  /\ roman_value (number_to_roman n) = Some n
  /\ number_to_roman 1 = text "i"
  /\ number_to_roman 4 = text "iv"
  /\ number_to_roman 9 = text "ix"
  /\ number_to_roman 14 = text "xiv"
  /\ number_to_roman 40 = text "xl"
  /\ number_to_roman 90 = text "xc"
  /\ number_to_roman 444 = text "cdxliv"
  /\ number_to_roman 1994 = text "mcmxciv".
Proof.
  split; [apply number_to_roman_is_standard|].
  split; [rewrite number_to_roman_is_standard; apply roman_value_standard; lia|].
  repeat split; vm_compute; reflexivity.
Qed.

Lemma number_to_roman_round_trip_witness :
  0 < 3888
  /\ roman_value (number_to_roman 3888) = Some 3888.
Proof.
  split; [lia|].
  exact (proj1 (proj2 (@number_to_roman_round_trip 3888 ltac:(lia)))).
Defined.

(** C5, as stated, fails: on 0 and on -1 the call returns a string
    (the empty one, and "cmxcix"), so it is not true that every
    non-positive input makes the formatter raise. *)
Lemma number_to_roman_nonpositive_returns :
  call_number_to_roman 0 = Return (text "")
  /\ call_number_to_roman (-1) = Return (text "cmxcix")
  /\ ~ (forall n : Z, n <= 0 -> exists e, call_number_to_roman n = Raise e).
Proof.
  split; [reflexivity|]. split; [reflexivity|].
  intros H. destruct (H 0 ltac:(lia)) as [e He]. discriminate He.
Qed.

(** C5, amended.  For every zero or negative integer the formatter raises
    nothing: it returns the standard numeral of [n mod 1000], which is the
    empty string exactly when [n] is a multiple of 1000 (so for 0). *)
Theorem number_to_roman_nonpositive (n : Z) (Hn : n <= 0) :
  call_number_to_roman n = Return (standard_numeral (n mod 1000))
  /\ (number_to_roman n = [] <-> n mod 1000 = 0).
Proof.
  assert (E : number_to_roman n = standard_numeral (n mod 1000)).
  { rewrite number_to_roman_standard. unfold standard_numeral.
    pose proof (Z.mod_pos_bound n 1000 ltac:(lia)) as Hb.
    assert (n / 1000 <= 0) by (apply Z.div_le_upper_bound; lia).
    replace (Z.to_nat (n / 1000)) with 0%nat by lia.
    rewrite (Z.div_small (n mod 1000) 1000) by lia.
    destruct (digits_of (n mod 1000)) as [H1 H2]. rewrite <- H1, <- H2.
    rewrite (Z.mod_mod n 1000) by lia.
    replace ((n mod 1000) mod 100) with (n mod 100)
      by (symmetry; apply Z.mod_mod_divide; exists 10; lia).
    replace ((n mod 1000) mod 10) with (n mod 10)
      by (symmetry; apply Z.mod_mod_divide; exists 100; lia).
    reflexivity. }
  split; [unfold call_number_to_roman; now rewrite E|].
  rewrite E. split.
  - intros H.
    pose proof (Z.mod_pos_bound n 1000 ltac:(lia)) as Hb.
    pose proof (@roman_value_standard (n mod 1000) ltac:(lia)) as Hv.
    rewrite H in Hv. simpl in Hv. congruence.
  - intros ->. reflexivity.
Qed.

Lemma number_to_roman_nonpositive_witness :
  -1 <= 0 /\ call_number_to_roman (-1) = Return (text "cmxcix").
Proof.
  split; [lia|].
  exact (proj1 (@number_to_roman_nonpositive (-1) ltac:(lia))).
Defined.

(** *** Verse numbers *)

(** The compiled template of [turn_verse_numbers_red]. *)
Definition red_items : list titem :=
  map TChar (text "\\textcolor{benred8}{") ++ [TGroup 1]
  ++ map TChar (text "}~").

Lemma parse_red (d : dialect) :
  parse_template d 1 None (text "\\\\textcolor{benred8}{\1}~") = Return red_items.
Proof. destruct d; vm_compute; reflexivity. Qed.

Lemma turn_verse_numbers_red_scan (py : runtime) (s : str) :
  turn_verse_numbers_red py s
  = Return (scan_sub verse_re red_items (length s) 0 s).
Proof.
  unfold turn_verse_numbers_red, re_sub, Re.sub.
  change (groups_of verse_re) with 1%nat. now rewrite parse_red.
Qed.

Lemma scan_verse_app (n n' : nat) (a t : str) :
  ends_outside digits a ->
  scan_sub verse_re red_items n 0 (a ++ t)
  = scan_sub verse_re red_items n' 0 a ++ scan_sub verse_re red_items n 0 t.
Proof.
  intros Hend. apply scan_sub_app. intros a1 a2 -> Ha2.
  rewrite !match_here_verse. apply run_match_stable; [assumption|].
  now apply ends_outside_suffix with a1.
Qed.

Lemma scan_verse_copy (n : nat) (a : str) :
  ~ In 126%N a -> scan_sub verse_re red_items n 0 a = a.
Proof.
  intros Ha. rewrite <- (app_nil_r a) at 1.
  rewrite scan_sub_copy; [now rewrite app_nil_r|].
  intros u1 c u2 ->. rewrite match_here_verse. apply run_match_post.
  rewrite app_nil_r. intros Hin. apply Ha.
  rewrite in_app_iff. now right.
Qed.

(** C8.  In a string [a ++ ds ++ "~" ++ b], where [ds] is a number (a
    non-empty run of digits, and [a] does not end with a digit),
    [turn_verse_numbers_red] wraps [ds] in one [\\textcolor{benred8}{...}]
    and keeps the "~" right after the closing brace; the text before and the
    text after are rewritten on their own, and are left as they are where
    they hold no "~". *)
Theorem verse_number_wrapped_once (py : runtime) (a ds b : str) :
  ds <> [] ->
  forallb Py.is_digit ds = true ->
  Py.is_digit (last a 0%N) = false ->
  exists a' b',
    turn_verse_numbers_red py a = Return a'
    /\ turn_verse_numbers_red py b = Return b'
    /\ turn_verse_numbers_red py (a ++ ds ++ text "~" ++ b)
       = Return (a' ++ text "\\textcolor{benred8}{" ++ ds ++ text "}~" ++ b')
    /\ (~ In 126%N a -> a' = a)
    /\ (~ In 126%N b -> b' = b).
Proof.
  intros Hne Hds Ha.
  assert (Hds' : Forall (fun c => in_set digits c = true) ds).
  { apply Forall_forall. intros c Hc. rewrite in_set_digits.
    rewrite forallb_forall in Hds. now apply Hds. }
  assert (Ha' : ends_outside digits a).
  { intros a0 c E. rewrite in_set_digits. subst a.
    now rewrite last_last in Ha. }
  exists (scan_sub verse_re red_items (length a) 0 a),
         (scan_sub verse_re red_items (length b) 0 b).
  rewrite !turn_verse_numbers_red_scan.
  split; [reflexivity|]. split; [reflexivity|].
  split; [|split; apply scan_verse_copy].
  f_equal.
  rewrite (scan_verse_app _ (length a)) by exact Ha'.
  f_equal.
  assert (Hm : match_here (length (a ++ ds ++ text "~" ++ b)) verse_re
                 (ds ++ text "~" ++ b)
               = Some (ds ++ text "~", [ds], b)).
  { rewrite match_here_verse.
    apply (run_match_intro [] digits [126%N] true ds b);
      [apply ends_digits; reflexivity | discriminate | assumption | assumption]. }
  rewrite (scan_sub_match _ _ _ _ _ _ _ Hm)
    by (destruct ds; [congruence | discriminate]).
  unfold red_items. rewrite !expand_app, !expand_chars.
  cbn [expand flat_map nth app]. rewrite app_nil_r, <- !app_assoc.
  do 3 f_equal.
  apply scan_sub_ext. intros s. now rewrite !match_here_verse.
Qed.

(** *** Special characters *)

Lemma match_here_char (n : nat) (k : char) (s : str) :
  ~ In k s -> match_here n (Lit [k]) s = None.
Proof.
  intros Hk. unfold match_here. cbn [rmatch].
  destruct (strip_prefix [k] s) as [rest|] eqn:E; [|reflexivity].
  apply strip_prefix_Some in E. subst s. elim Hk. now left.
Qed.

Lemma sub_char_absent (d : dialect) (k : char) (repl p : str) :
  ~ In k p ->
  Re.sub d (Lit [k]) repl p = Return p
  \/ exists e, Re.sub d (Lit [k]) repl p = Raise e.
Proof.
  intros Hk. unfold Re.sub.
  destruct (parse_template d (groups_of (Lit [k])) None repl) as [items|e];
    [left | right; now exists e].
  simpl. f_equal. rewrite <- (app_nil_r p) at 2.
  rewrite scan_sub_copy; [now rewrite app_nil_r|].
  intros u1 c u2 ->. apply match_here_char. rewrite app_nil_r.
  intros Hin. apply Hk. rewrite in_app_iff. now right.
Qed.

Lemma for_each_sub_absent (d : dialect) (repl : char * str -> str)
    (items : list (char * str)) (p : str) :
  (forall item, In item items -> ~ In (fst item) p) ->
  for_each items
    (fun paragraph item => Re.sub d (Lit [fst item]) (repl item) paragraph) p
  = Return p
  \/ exists e,
      for_each items
        (fun paragraph item => Re.sub d (Lit [fst item]) (repl item) paragraph) p
      = Raise e.
Proof.
  induction items as [|item items IH]; intros H; [now left|].
  cbn [for_each].
  destruct (sub_char_absent d (fst item) (repl item) p) as [-> | [e ->]].
  - apply H. now left.
  - simpl. apply IH. intros i Hi. apply H. now right.
  - right. now exists e.
Qed.

(** On a paragraph without the three characters, [latexify_certain_ones]
    returns the paragraph as it is, unless it raises. *)
Lemma latexify_absent (py : runtime) (table : char -> option str)
    (p : str) (footnote : bool) :
  dict_iteration (dict_items py) ->
  ~ In 8217%N p -> ~ In 8216%N p -> ~ In 8230%N p ->
  latexify_certain_ones py table p footnote = Return p
  \/ exists e, latexify_certain_ones py table p footnote = Raise e.
Proof.
  intros Hdict H1 H2 H3. unfold latexify_certain_ones, lookup.
  destruct (table 39%N) as [apostrophe|]; [|right; now exists KeyError].
  destruct (table 8230%N) as [ellipsis|]; [|right; now exists KeyError].
  destruct (table 96%N) as [grave|]; [|right; now exists KeyError].
  cbn [bind]. unfold re_sub.
  apply (for_each_sub_absent (escapes py)
           (fun item => (if footnote then text "\\\\" else text "")
                        ++ text "\\\" ++ snd item)).
  intros item Hitem.
  match type of Hitem with
  | In _ (dict_items py ?ones) =>
      assert (Hkeys : NoDup (map fst ones))
        by (simpl; repeat constructor; simpl; intuition discriminate);
      destruct (Hdict ones Hkeys) as [_ Hin]
  end.
  apply Hin in Hitem. simpl in Hitem.
  destruct Hitem as [<-|[<-|[<-|[]]]]; assumption.
Qed.

(** C9.  On a paragraph that holds none of U+2019, U+2018 and U+2026,
    applying [latexify_certain_ones] twice gives what applying it once
    gives; and what it returns is the paragraph itself. *)
Theorem latexify_idempotent (py : runtime) (table : char -> option str)
    (p : str) (footnote : bool) :
  dict_iteration (dict_items py) ->
  ~ In 8217%N p -> ~ In 8216%N p -> ~ In 8230%N p ->
  (q <- latexify_certain_ones py table p footnote ;;
   latexify_certain_ones py table q footnote)
  = latexify_certain_ones py table p footnote
  /\ (forall q, latexify_certain_ones py table p footnote = Return q -> q = p).
Proof.
  intros Hdict H1 H2 H3.
  destruct (latexify_absent py table p footnote Hdict H1 H2 H3) as [E | [e E]];
    rewrite E; simpl.
  - split; [exact E | congruence].
  - split; [reflexivity | discriminate].
Qed.

(** *** Drop caps *)

(** The compiled template of [do_dropcaps], in the lenient dialect. *)
Definition dropcap_items (lines : Z) : list titem :=
  map TChar (text "\lettrine[lines=" ++ Py.str_of_int lines ++ text "]{")
  ++ [TGroup 1] ++ map TChar (text "}{") ++ [TGroup 2] ++ map TChar (text "} ").

Lemma parse_dropcap (lines : Z) :
  parse_template Lenient 2 None
    (text "\lettrine[lines=" ++ Py.str_of_int lines ++ text "]{\1}{\2} ")
  = Return (dropcap_items lines).
Proof.
  change (text "\lettrine[lines=") with ([92; 108]%N ++ text "ettrine[lines=").
  rewrite <- app_assoc.
  change ([92; 108]%N ++ ?x) with (92%N :: 108%N :: x).
  cbn [parse_template N.eqb Pos.eqb negb Py.is_digit known_escape
         is_ascii_letter N.leb N.compare Pos.compare Pos.compare_cont andb orb].
  rewrite app_assoc.
  rewrite parse_plain.
  - replace (parse_template Lenient 2 None (text "]{\1}{\2} "))
      with (Return (map TChar (text "]{") ++ [TGroup 1] ++ map TChar (text "}{")
                    ++ [TGroup 2] ++ map TChar (text "} ")))
      by (vm_compute; reflexivity).
    unfold dropcap_items. cbn [prepend bind emit]. f_equal.
    rewrite !map_app. repeat (rewrite <- ?app_assoc; cbn [app map]). reflexivity.
  - apply Forall_app. split; [|apply plain_str_of_int].
    vm_compute. repeat constructor; discriminate.
Qed.

Lemma parse_dropcap_strict (lines : Z) :
  parse_template Strict 2 None
    (text "\lettrine[lines=" ++ Py.str_of_int lines ++ text "]{\1}{\2} ")
  = Raise ReError.
Proof. reflexivity. Qed.

(** The match of [dropcap_re] at the start of the paragraph. *)
Lemma match_here_dropcap (c : char) (w rest : str) :
  in_set letters c = true ->
  Forall (fun x => in_set letters x = true) w ->
  match_here (length (text "1~" ++ c :: w ++ text " " ++ rest)) dropcap_re
    (text "1~" ++ c :: w ++ text " " ++ rest)
  = Some (text "1~" ++ c :: w ++ text " ", [[c]; w], rest).
Proof.
  intros Hc Hw. unfold match_here, dropcap_re. lits.
  cbn [rmatch]. rewrite Nat.eqb_refl.
  rewrite strip_prefix_app. rewrite Hc.
  rewrite greedy_commit.
  2:{ intros x t Hx. cbn [strip_prefix].
      destruct (N.eqb_spec 32 x) as [<-|]; [discriminate Hx | reflexivity]. }
  assert (Hstop : forall x t, [32%N] ++ rest = x :: t -> in_set letters x = false)
    by (intros x t E; injection E as <- _; reflexivity).
  destruct (take_while_app letters w ([32%N] ++ rest) Hw Hstop) as [_ Hd].
  rewrite Hd.
  cbn [app strip_prefix N.eqb Pos.eqb].
  replace (c :: w ++ 32%N :: rest) with ([c] ++ (w ++ 32%N :: rest)) by reflexivity.
  rewrite (firstn_matched [c] (w ++ 32%N :: rest)).
  rewrite (firstn_matched w (32%N :: rest)).
  replace (49%N :: 126%N :: [c] ++ w ++ 32%N :: rest)
    with (([49; 126]%N ++ c :: w ++ [32%N]) ++ rest)
    by (repeat (rewrite <- ?app_assoc; cbn [app]); reflexivity).
  rewrite (firstn_matched ([49; 126]%N ++ c :: w ++ [32%N]) rest). reflexivity.
Qed.

(** Past the start of the paragraph [dropcap_re] matches nowhere. *)
Lemma scan_dropcap_rest (items : list titem) (n : nat) (s : str) :
  (length s < n)%nat -> scan_sub dropcap_re items n 0 s = s.
Proof.
  intros Hn. rewrite <- (app_nil_r s) at 1.
  rewrite scan_sub_copy; [now rewrite app_nil_r|].
  intros u1 c u2 ->. rewrite app_nil_r.
  unfold match_here, dropcap_re. cbn [rmatch].
  destruct (Nat.eqb_spec (length (c :: u2)) n) as [E|]; [|reflexivity].
  rewrite length_app in Hn. lia.
Qed.

Lemma do_dropcaps_returns (py : runtime) (p : str) (others : list str) (lines : Z) :
  escapes py = Lenient ->
  do_dropcaps py (p :: others) lines
  = Return (scan_sub dropcap_re (dropcap_items lines) (length p) 0 p :: others).
Proof.
  intros Hlen. unfold do_dropcaps, re_sub, Re.sub. rewrite Hlen.
  change (Py.index (p :: others) 0) with (Return p). cbn [bind].
  change (groups_of dropcap_re) with 2%nat. rewrite parse_dropcap. reflexivity.
Qed.


(** Where the pattern of [do_dropcaps] matches.  On an interpreter of the
    lenient dialect, [do_dropcaps] rewrites the first paragraph only; when
    that paragraph begins with "1",
    "~" and a word of ASCII letters followed by a space, the first letter
    becomes the first argument of [\lettrine[lines=N]], the remainder of the
    word its second argument, and the space and all later text stay as they
    are; [get_text_from_soup] calls it with N = 3 for chapter number 1 and
    N = 2 for every other number. *)
Theorem dropcap_first_word (py : runtime) (table : char -> option str)
    (c : char) (w rest : str) (others : list str) (lines number : Z)
    (footnotes cells : list str) :
  escapes py = Lenient ->
  is_ascii_letter c = true ->
  Forall (fun x => is_ascii_letter x = true) w ->
  do_dropcaps py ((text "1~" ++ c :: w ++ text " " ++ rest) :: others) lines
  = Return ((text "\lettrine[lines=" ++ Py.str_of_int lines ++ text "]{"
             ++ [c] ++ text "}{" ++ w ++ text "} " ++ rest) :: others)
  /\ (forall p, exists p', do_dropcaps py (p :: others) lines = Return (p' :: others))
  /\ get_text_from_soup py table number footnotes cells
     = (ps <- map_result (fix_spacing_around_verse_numbers py) (map Py.strip cells) ;;
        ps <- do_dropcaps py ps (if (number =? 1)%Z then 3 else 2) ;;
        ps <- map_result (turn_verse_numbers_red py) ps ;;
        ps <- map_result (fun x => latexify_certain_ones py table x false) ps ;;
        map_result (add_footnotes_to_text py footnotes) ps).
Proof.
  intros Hlen Hc Hw.
  assert (Hl : forall x, in_set letters x = is_ascii_letter x).
  { intros x. unfold in_set, letters, is_ascii_letter. simpl.
    now rewrite orb_false_r. }
  split; [|split].
  - rewrite do_dropcaps_returns by exact Hlen. do 2 f_equal.
    assert (Hm := match_here_dropcap c w rest).
    rewrite (scan_sub_match _ _ _ _ _ _ _ (Hm ltac:(now rewrite Hl)
              ltac:(eapply Forall_impl; [|exact Hw]; intros x Hx; now rewrite Hl)))
      by discriminate.
    rewrite scan_dropcap_rest
      by (rewrite !length_app; simpl; rewrite length_app; simpl; lia).
    unfold dropcap_items. rewrite !expand_app, !expand_chars.
    cbn [expand flat_map nth app].
    rewrite !app_nil_r. repeat (rewrite <- ?app_assoc; cbn [app]). reflexivity.
  - intros p. rewrite do_dropcaps_returns by exact Hlen. eauto.
  - unfold get_text_from_soup. destruct (number =? 1)%Z; reflexivity.
Qed.

(** C10.  With no cell for the language, [get_text_from_soup] raises
    [IndexError], whatever the interpreter, the table, the chapter number
    and the footnotes: [do_dropcaps] subscripts the empty list.  So a run
    that returns had at least one cell. *)
Theorem get_text_needs_a_paragraph (py : runtime) (table : char -> option str)
    (number : Z) (footnotes : list str) :
  get_text_from_soup py table number footnotes [] = Raise IndexError
  /\ (forall cells out,
        get_text_from_soup py table number footnotes cells = Return out ->
        cells <> []).
Proof.
  assert (E : get_text_from_soup py table number footnotes [] = Raise IndexError).
  { unfold get_text_from_soup. simpl. destruct (number =? 1)%Z; reflexivity. }
  split; [exact E|].
  intros cells out H ->. rewrite E in H. discriminate.
Qed.

(** *** Footnote splicing *)



(** *** Footnotes without a note *)

Lemma nodup_set_iteration : set_iteration (nodup str_eq_dec).
Proof.
  intros l. split; [apply NoDup_nodup | intros x; apply nodup_In].
Qed.

(** C2, as stated, fails: with the notes ["[1] a\2"; "[2] b"] and the
    markers taken in the order [1], [3], the paragraph "x [1] y [3]" makes
    the call raise [re.error], for the invalid group reference in the first
    note, before the marker [3] is looked up. *)
Lemma marker_beyond_footnotes_other_error :
  set_iteration (list_of_set lenient_runtime)
  /\ add_footnotes_to_text lenient_runtime [text "[1] a\2"; text "[2] b"]
       (text "x [1] y [3]") = Raise ReError
  /\ add_footnotes_to_text strict_runtime [text "[1] a\2"; text "[2] b"]
       (text "x [1] y [3]") = Raise ReError.
Proof.
  split; [apply nodup_set_iteration|].
  split; vm_compute; reflexivity.
Qed.

(** C2, amended.  A paragraph that holds a marker [n] with [n] greater than
    the number of footnotes never comes out of [add_footnotes_to_text]: the
    call raises.  It raises [IndexError] whenever every footnote gives a
    well-formed replacement template, as every footnote without backslash
    does; otherwise [re.error] may be raised first. *)
Theorem marker_beyond_footnotes_raises (py : runtime) (fs : list str)
    (a ds b : str) (v : Z) :
  set_iteration (list_of_set py) ->
  Py.int_of_str ds = Return v ->
  (Z.of_nat (length fs) < v)%Z ->
  (exists e,
     add_footnotes_to_text py fs (a ++ text "[" ++ ds ++ text "]" ++ b) = Raise e)
  /\ (Forall (note_ok (escapes py)) fs ->
      add_footnotes_to_text py fs (a ++ text "[" ++ ds ++ text "]" ++ b)
      = Raise IndexError)
  /\ (Forall plain fs ->
      add_footnotes_to_text py fs (a ++ text "[" ++ ds ++ text "]" ++ b)
      = Raise IndexError).
Proof.
  intros Hset Hint Hv.
  apply FootnoteFacts.int_of_str_number in Hint. destruct Hint as [Hds ->].
  assert (Hidx : Py.index fs (FootnoteFacts.decimal ds - 1) = Raise IndexError)
    by (apply FootnoteFacts.index_beyond; lia).
  replace (a ++ text "[" ++ ds ++ text "]" ++ b)
    with (a ++ FootnoteFacts.marker ds ++ b)
    by (unfold FootnoteFacts.marker; now rewrite <- !app_assoc).
  destruct (FootnoteFacts.missing_footnote_raises py fs a ds b Hset Hds Hidx)
    as [H1 H2].
  split; [exact H1|]. split; [exact H2|].
  intros Hplain. apply H2.
  eapply Forall_impl; [|exact Hplain].
  intros note. apply FootnoteFacts.plain_note_ok.
Qed.

(** C3, as stated, fails: the marker [3] with two footnotes is not left in
    a returned paragraph, the call raises; and the marker [0] is expanded
    with the last footnote. *)
Lemma unmatched_marker_not_kept :
  add_footnotes_to_text lenient_runtime
    [text "[1] First note."; text "[2] Second note."] (text "x [3] y")
  = Raise IndexError
  /\ add_footnotes_to_text lenient_runtime
       [text "[1] First note."; text "[2] Second note."] (text "x [3] y")
     <> Return (text "x [3] y")
  /\ add_footnotes_to_text lenient_runtime
       [text "[1] First note."; text "[2] Second note."] (text "x [0] y")
     = Return (text "x \\footnote[0]{Second note.} y").
Proof.
  split; [vm_compute; reflexivity|].
  split; [vm_compute; discriminate | vm_compute; reflexivity].
Qed.

(** C3, amended.  No marker numbered beyond the footnote list is left in an
    output: whenever [add_footnotes_to_text] returns, every marker [n] that
    occurs in the paragraph has [n] at most the number of footnotes, and
    there is at least one footnote. *)
Theorem returned_markers_have_notes (py : runtime) (fs : list str)
    (a ds b out : str) (v : Z) :
  set_iteration (list_of_set py) ->
  add_footnotes_to_text py fs (a ++ text "[" ++ ds ++ text "]" ++ b) = Return out ->
  Py.int_of_str ds = Return v ->
  (v <= Z.of_nat (length fs))%Z /\ fs <> [].
Proof.
  intros Hset Hout Hint.
  apply FootnoteFacts.int_of_str_number in Hint. destruct Hint as [Hds ->].
  replace (a ++ text "[" ++ ds ++ text "]" ++ b)
    with (a ++ FootnoteFacts.marker ds ++ b) in Hout
    by (unfold FootnoteFacts.marker; now rewrite <- !app_assoc).
  assert (Hidx : Py.index fs (FootnoteFacts.decimal ds - 1) <> Raise IndexError).
  { intros Hidx.
    destruct (FootnoteFacts.missing_footnote_raises py fs a ds b Hset Hds Hidx)
      as [[e He] _].
    congruence. }
  split.
  - destruct (Z.le_gt_cases (FootnoteFacts.decimal ds) (Z.of_nat (length fs)));
      [assumption|].
    elim Hidx. apply FootnoteFacts.index_beyond. lia.
  - intros ->. apply Hidx. apply FootnoteFacts.index_nil.
Qed.

(** *** The compositor *)

(** C7, as stated, fails: a chapter with one Latin paragraph and no English
    one makes the compositor raise [IndexError]; and of a chapter with one
    Latin and two English paragraphs the first English paragraph is left
    out of the document. *)
Lemma compositor_needs_parallel_paragraphs :
  reverse_chapter_loop (insert_into_template lenient_runtime)
    [ {| number := 1; footnotes := [];
         latin_pars := [text "a"]; english_pars := [] |} ]
    (latin_anchor ++ english_anchor)
  = Raise IndexError
  /\ reverse_chapter_loop (insert_into_template lenient_runtime)
       [ {| number := 1; footnotes := [];
            latin_pars := [text "a"]; english_pars := [text "x"; text "y"] |} ]
       (latin_anchor ++ english_anchor)
     = Return (latin_anchor
               ++ text "\begin{large}\begin{center}1\end{center}\end{large}"
               ++ [LF] ++ separator ++ text "a"
               ++ english_anchor
               ++ text "\begin{large}\begin{center}1\end{center}\end{large}"
               ++ [LF] ++ separator ++ text "y").
Proof.
  split; vm_compute; reflexivity.
Qed.

(** C7, amended.  On an interpreter of the lenient dialect, take a template
    [pre ++ latin_anchor ++ mid ++ english_anchor ++ post] and chapters
    whose Latin and English paragraph lists are parallel, every paragraph a
    well-formed template without group reference, such that the document
    below holds each of the two anchors once.  Then the loop that takes the
    chapters last first returns that document: after each anchor the
    chapters stand in ascending order, each as its number heading followed
    by its rendered paragraphs in order, every paragraph behind the
    separator. *)
Theorem chapters_in_reading_order (py : runtime) (chapters : list chapter)
    (pre mid post : str) :
  escapes py = Lenient ->
  Forall parallel chapters ->
  length (Terms.positions latin_anchor (composed pre mid post chapters))
  = 1%nat ->
  length (Terms.positions english_anchor (composed pre mid post chapters))
  = 1%nat ->
  reverse_chapter_loop (insert_into_template py) chapters
    (pre ++ latin_anchor ++ mid ++ english_anchor ++ post)
  = Return (composed pre mid post chapters).
Proof.
  intros Hlen Hcs H1 H2. unfold reverse_chapter_loop.
  rewrite (LoopFacts.for_each_reversed chapters
             (fun output c => insert_into_template py c output)).
  assert (Hdoc : composed pre mid post chapters
                 = CompositorFacts.document pre mid post
                     (flat_map latin_block (rev (rev chapters)) ++ [])
                     (flat_map english_block (rev (rev chapters)) ++ []))
    by (now rewrite rev_involutive, !app_nil_r).
  rewrite Hdoc in *.
  change (pre ++ latin_anchor ++ mid ++ english_anchor ++ post)
    with (CompositorFacts.document pre mid post [] []).
  apply (CompositorFacts.chapters_inserted py pre mid post Hlen).
  - now apply Forall_rev.
  - now apply CompositorFacts.once_ready.
Qed.

(** *** Instances *)


Lemma marker_beyond_footnotes_raises_witness :
  add_footnotes_to_text lenient_runtime
    [text "[1] First note."; text "[2] Second note."]
    (text "Lorem [1] ipsum " ++ text "[" ++ text "3" ++ text "]" ++ text ".")
  = Raise IndexError.
Proof.
  refine (proj2 (proj2 (marker_beyond_footnotes_raises lenient_runtime
           [text "[1] First note."; text "[2] Second note."]
           (text "Lorem [1] ipsum ") (text "3") (text ".") 3%Z _ _ _)) _).
  - apply nodup_set_iteration.
  - reflexivity.
  - simpl. lia.
  - constructor; [apply plain_test; reflexivity|].
    constructor; [apply plain_test; reflexivity | constructor].
Defined.

Lemma returned_markers_have_notes_witness :
  add_footnotes_to_text lenient_runtime
    [text "[1] First note."; text "[2] Second note."]
    (text "Lorem [1] ipsum " ++ text "[" ++ text "2" ++ text "]" ++ text ".")
  = Return (text "Lorem \\footnote[1]{First note.} ipsum \\footnote[2]{Second note.}.")
  /\ (2 <= Z.of_nat (length [text "[1] First note."; text "[2] Second note."]))%Z
  /\ [text "[1] First note."; text "[2] Second note."] <> [].
Proof.
  split; [vm_compute; reflexivity|].
  apply (returned_markers_have_notes lenient_runtime
           [text "[1] First note."; text "[2] Second note."]
           (text "Lorem [1] ipsum ") (text "2") (text ".")
           (text "Lorem \\footnote[1]{First note.} ipsum \\footnote[2]{Second note.}.")
           2%Z).
  - apply nodup_set_iteration.
  - vm_compute. reflexivity.
  - reflexivity.
Defined.

Lemma dropcap_first_word_witness :
  do_dropcaps lenient_runtime [text "1~Et factum est, postquam"; text "2~Alexander"] 3
  = Return [text "\lettrine[lines=3]{E}{t} factum est, postquam"; text "2~Alexander"].
Proof.
  exact (proj1 (dropcap_first_word lenient_runtime sample_table
                  69%N (text "t") (text "factum est, postquam")
                  [text "2~Alexander"] 3 1 [] []
                  eq_refl eq_refl ltac:(repeat constructor))).
Defined.

Lemma chapters_in_reading_order_witness :
  reverse_chapter_loop (insert_into_template lenient_runtime)
    [ {| number := 1; footnotes := [];
         latin_pars := [text "\\textcolor{benred8}{1}~In"; text "p2"];
         english_pars := [text "\\textcolor{benred8}{1}~At"; text "q2"] |};
      {| number := 2; footnotes := [];
         latin_pars := [text "p3"]; english_pars := [text "q3"] |} ]
    (text "\def\StartOfLatin{}\begin{document}" ++ latin_anchor ++ [LF]
     ++ english_anchor ++ text "\end{document}")
  = Return
      (text "\def\StartOfLatin{}\begin{document}" ++ latin_anchor
       ++ (text "\begin{large}\begin{center}1\end{center}\end{large}" ++ [LF]
           ++ separator ++ text "\textcolor{benred8}{1}~In"
           ++ separator ++ text "p2")
       ++ (text "\begin{large}\begin{center}2\end{center}\end{large}" ++ [LF]
           ++ separator ++ text "p3")
       ++ [LF] ++ english_anchor
       ++ (text "\begin{large}\begin{center}1\end{center}\end{large}" ++ [LF]
           ++ separator ++ text "\textcolor{benred8}{1}~At"
           ++ separator ++ text "q2")
       ++ (text "\begin{large}\begin{center}2\end{center}\end{large}" ++ [LF]
           ++ separator ++ text "q3")
       ++ text "\end{document}").
Proof.
  apply (chapters_in_reading_order lenient_runtime
           [ {| number := 1; footnotes := [];
                latin_pars := [text "\\textcolor{benred8}{1}~In"; text "p2"];
                english_pars := [text "\\textcolor{benred8}{1}~At"; text "q2"] |};
             {| number := 2; footnotes := [];
                latin_pars := [text "p3"]; english_pars := [text "q3"] |} ]
           (text "\def\StartOfLatin{}\begin{document}") [LF]
           (text "\end{document}")).
  - reflexivity.
  - repeat constructor.
  - reflexivity.
  - reflexivity.
Defined.

Lemma verse_number_wrapped_once_witness :
  exists a' b',
    turn_verse_numbers_red lenient_runtime (text "Et ") = Return a'
    /\ turn_verse_numbers_red lenient_runtime (text "factum") = Return b'
    /\ turn_verse_numbers_red lenient_runtime
         (text "Et " ++ text "12" ++ text "~" ++ text "factum")
       = Return (a' ++ text "\\textcolor{benred8}{" ++ text "12" ++ text "}~" ++ b')
    /\ (~ In 126%N (text "Et ") -> a' = text "Et ")
    /\ (~ In 126%N (text "factum") -> b' = text "factum").
Proof.
  apply (verse_number_wrapped_once lenient_runtime (text "Et ") (text "12")
           (text "factum")).
  - discriminate.
  - reflexivity.
  - reflexivity.
Defined.

Lemma identity_dict_iteration : dict_iteration (fun l => l).
Proof.
  intros l Hkeys. split; [|intros x; reflexivity].
  now apply NoDup_map_inv in Hkeys.
Qed.

Lemma latexify_idempotent_witness :
  (q <- latexify_certain_ones lenient_runtime sample_table (text "Et factum est") true ;;
   latexify_certain_ones lenient_runtime sample_table q true)
  = latexify_certain_ones lenient_runtime sample_table (text "Et factum est") true.
Proof.
  refine (proj1 (latexify_idempotent lenient_runtime sample_table
                   (text "Et factum est") true _ _ _ _)).
  - apply identity_dict_iteration.
  - vm_compute. intuition discriminate.
  - vm_compute. intuition discriminate.
  - vm_compute. intuition discriminate.
Defined.

Lemma get_text_needs_a_paragraph_witness :
  get_text_from_soup lenient_runtime sample_table 1 [] [text "1  Et factum est"]
  = Return [text "\lettrine[lines=3]{E}{t} factum est"]
  /\ [text "1  Et factum est"] <> [].
Proof.
  split; [vm_compute; reflexivity|].
  apply (proj2 (get_text_needs_a_paragraph lenient_runtime sample_table 1 [])
           [text "1  Et factum est"]
           [text "\lettrine[lines=3]{E}{t} factum est"]).
  vm_compute. reflexivity.
Defined.

End Claims.

(** * Beyond the claims *)

Module RomanExtras.

Import Roman RomanFacts.
Local Open Scope Z_scope.

Lemma digit_numeral_symbols (one five ten : string) (d : Z) (P : N -> Prop) :
  Forall P (text one) -> Forall P (text five) -> Forall P (text ten) ->
  Forall P (digit_numeral one five ten d).
Proof.
  intros H1 H5 H10.
  destruct d as [|p|p]; try constructor.
  do 4 (try destruct p as [p|p|]); simpl;
    repeat (apply Forall_app; split); try assumption; constructor.
Qed.

Lemma digit_numeral_length (one five ten : string) (d : Z) :
  length (text one) = 1%nat -> length (text five) = 1%nat ->
  length (text ten) = 1%nat ->
  (length (digit_numeral one five ten d) <= 4)%nat.
Proof.
  intros H1 H5 H10.
  destruct d as [|p|p]; simpl; try lia.
  do 4 (try destruct p as [p|p|]); simpl; rewrite ?length_app; lia.
Qed.

Lemma thousands_symbols (k : nat) (P : N -> Prop) :
  P 109%N -> Forall P (concat (repeat (text "m") k)).
Proof.
  intros H. induction k as [|k IH]; simpl; [constructor|].
  constructor; assumption.
Qed.

Lemma thousands_length (k : nat) :
  length (concat (repeat (text "m") k)) = k.
Proof. induction k as [|k IH]; simpl; [reflexivity | now rewrite IH]. Qed.

End RomanExtras.

Module ScanExtras.

Import Re ReFacts PatternFacts TemplateFacts Chapter Terms.

(** The match of a literal outside a group. *)
Lemma match_here_lit (n : nat) (l s : str) :
  match_here n (Lit l) s
  = match strip_prefix l s with
    | Some rest => Some (l, [], rest)
    | None => None
    end.
Proof.
  unfold match_here. cbn [rmatch].
  destruct (strip_prefix l s) as [rest|] eqn:E; [|reflexivity].
  apply strip_prefix_Some in E. subst s. now rewrite firstn_matched.
Qed.

(** The substitution of one character is a map over the characters. *)
Lemma scan_char (n : nat) (k : char) (items : list titem) (s : str) :
  scan_sub (Lit [k]) items n 0 s
  = flat_map (fun c => if N.eqb c k then expand items [[k]] else [c]) s.
Proof.
  induction s as [|c s IH]; [reflexivity|].
  cbn [scan_sub flat_map]. rewrite match_here_lit. cbn [strip_prefix].
  rewrite (N.eqb_sym c k).
  destruct (N.eqb k c); cbn [length]; rewrite IH; reflexivity.
Qed.

(** What holds of every character of the subject and of the template holds
    of every character of the result. *)
Lemma scan_sub_Forall (P : N -> Prop) (r : regex) (items : list titem) (n : nat) :
  (forall gs, Forall P (expand items gs)) ->
  forall s k, Forall P s -> Forall P (scan_sub r items n k s).
Proof.
  intros Hitems. induction s as [|c s IH]; intros k H; [constructor|].
  inversion H as [|? ? Hc Hs]; subst. cbn [scan_sub].
  destruct k as [|k]; [|now apply IH].
  destruct (match_here n r (c :: s)) as [[[m gs] rest]|].
  - destruct (length m).
    + constructor; [assumption | now apply IH].
    + apply Forall_app. split; [apply Hitems | now apply IH].
  - constructor; [assumption | now apply IH].
Qed.

Lemma single_spaced_suffix (a b : str) :
  single_spaced (a ++ b) = true -> single_spaced b = true.
Proof.
  induction a as [|c a IH]; intros H; [exact H|].
  cbn [single_spaced app] in H. apply andb_prop in H. now apply IH.
Qed.

Lemma single_spaced_pair (a b : str) :
  single_spaced (a ++ 32%N :: 32%N :: b) = false.
Proof.
  destruct (single_spaced (a ++ 32%N :: 32%N :: b)) eqn:E; [|reflexivity].
  apply single_spaced_suffix in E. discriminate E.
Qed.

Lemma tight_suffix (a b : str) : tight (a ++ b) = true -> tight b = true.
Proof.
  induction a as [|c a IH]; intros H; [exact H|].
  cbn [tight app] in H. apply andb_prop in H. now apply IH.
Qed.

(** Two tight strings, the first not ending with a digit or the second not
    beginning with "~", make a tight string. *)
Lemma tight_app (a b : str) :
  tight a = true -> tight b = true ->
  Py.is_digit (last a 0%N) = false \/ hd 0%N b <> 126%N ->
  tight (a ++ b) = true.
Proof.
  intros Ha Hb Hj. induction a as [|c a IH]; [exact Hb|].
  cbn [tight app] in *. apply andb_prop in Ha. destruct Ha as [H1 H2].
  destruct a as [|x a].
  - cbn [app]. rewrite Hb, andb_true_r. cbn [last] in Hj.
    destruct Hj as [Hj|Hj]; [now rewrite Hj|].
    destruct b as [|y b]; [now rewrite andb_false_r|].
    cbn [hd] in Hj. destruct (N.eqb_spec y 126); [contradiction|].
    now rewrite andb_false_r.
  - rewrite IH; [now rewrite andb_true_r | assumption | exact Hj].
Qed.

End ScanExtras.

Module VerseExtras.

Import Re ReFacts PatternFacts TemplateFacts Chapter Terms ScanExtras.

(** The three scans of [fix_spacing_around_verse_numbers]. *)
Definition tie_numbers (p : str) : str :=
  scan_sub verse_spaces_re [TGroup 1; TChar 126%N] (length p) 0 p.

Definition tie_nbsp (p : str) : str :=
  scan_sub nbsp_re [TChar 126%N] (length p) 0 p.

Definition halve_spaces (p : str) : str :=
  scan_sub two_spaces_re [TChar 32%N] (length p) 0 p.

Lemma fix_spacing_scan (py : runtime) (p : str) :
  fix_spacing_around_verse_numbers py p
  = Return (halve_spaces (tie_nbsp (tie_numbers p))).
Proof.
  unfold fix_spacing_around_verse_numbers, re_sub, Re.sub.
  change (groups_of verse_spaces_re) with 1%nat.
  change (groups_of nbsp_re) with 0%nat.
  change (groups_of two_spaces_re) with 0%nat.
  destruct (escapes py); reflexivity.
Qed.

(** The match of [verse_spaces_re]. *)
Lemma match_here_verse_spaces (n : nat) (s : str) :
  match_here n verse_spaces_re s = run_match [] digits [32%N; 32%N] true s.
Proof.
  unfold verse_spaces_re. lits. apply match_here_group_run.
  apply ends_digits. reflexivity.
Qed.

Lemma tie_nbsp_map (p : str) :
  tie_nbsp p = map (fun c => if N.eqb c 160 then 126%N else c) p.
Proof.
  unfold tie_nbsp, nbsp_re. rewrite scan_char.
  induction p as [|c p IH]; [reflexivity|].
  cbn [flat_map map]. rewrite IH. destruct (N.eqb c 160); reflexivity.
Qed.

Lemma tie_nbsp_free (p : str) : ~ In 160%N (tie_nbsp p).
Proof.
  rewrite tie_nbsp_map. intros H. apply in_map_iff in H.
  destruct H as (c & E & _).
  destruct (N.eqb_spec c 160); [discriminate | congruence].
Qed.

Lemma halve_spaces_free (p : str) : ~ In 160%N p -> ~ In 160%N (halve_spaces p).
Proof.
  intros Hp Hin. unfold halve_spaces in Hin.
  assert (H : Forall (fun c => c <> 160%N)
                (scan_sub two_spaces_re [TChar 32%N] (length p) 0 p)).
  { apply scan_sub_Forall.
    - intros gs. repeat constructor. discriminate.
    - apply Forall_forall. intros c Hc ->. now apply Hp. }
  rewrite Forall_forall in H. now apply (H _ Hin).
Qed.

(** Text without two spaces side by side holds no match of the first and
    of the third pattern. *)
Lemma tie_numbers_single_spaced (p : str) :
  single_spaced p = true -> tie_numbers p = p.
Proof.
  intros Hp. unfold tie_numbers. rewrite <- (app_nil_r p) at 2.
  rewrite scan_sub_copy; [now rewrite app_nil_r|].
  intros u1 c u2 E. rewrite app_nil_r, match_here_verse_spaces.
  destruct (run_match [] digits [32%N; 32%N] true (c :: u2))
    as [[[m gs] rest]|] eqn:Em; [|reflexivity].
  apply run_match_inv in Em. destruct Em as (run & _ & _ & -> & Es & _).
  rewrite E in Hp. apply single_spaced_suffix in Hp. rewrite Es in Hp.
  cbn [app] in Hp. rewrite <- app_assoc in Hp. cbn [app] in Hp.
  now rewrite single_spaced_pair in Hp.
Qed.

Lemma halve_spaces_single_spaced (p : str) :
  single_spaced p = true -> halve_spaces p = p.
Proof.
  intros Hp. unfold halve_spaces. rewrite <- (app_nil_r p) at 2.
  rewrite scan_sub_copy; [now rewrite app_nil_r|].
  intros u1 c u2 E. rewrite app_nil_r. unfold two_spaces_re.
  rewrite match_here_lit.
  destruct (strip_prefix (text "  ") (c :: u2)) as [rest|] eqn:Es; [|reflexivity].
  apply strip_prefix_Some in Es.
  rewrite E in Hp. apply single_spaced_suffix in Hp. rewrite Es in Hp.
  change (text "  " ++ rest) with ([] ++ 32%N :: 32%N :: rest) in Hp.
  now rewrite single_spaced_pair in Hp.
Qed.

Lemma tie_nbsp_absent (p : str) : ~ In 160%N p -> tie_nbsp p = p.
Proof.
  intros Hp. rewrite tie_nbsp_map. rewrite <- (map_id p) at 2.
  apply map_ext_in. intros c Hc.
  destruct (N.eqb_spec c 160) as [->|]; [contradiction | reflexivity].
Qed.

(** *** The double space and the no-break space after a verse number *)

Definition tie (n : nat) (s : str) : str :=
  scan_sub verse_spaces_re [TGroup 1; TChar 126%N] n 0 s.

Lemma tie_ext (n n' : nat) (s : str) : tie n s = tie n' s.
Proof.
  unfold tie. apply scan_sub_ext. intros t.
  now rewrite !match_here_verse_spaces.
Qed.

(** What follows a string that ends outside the digits changes no match
    starting inside it, if it begins with a digit. *)
Lemma run_match_spaces_stable (g : bool) (a t : str) (d : char) :
  a <> [] -> ends_outside digits a -> in_set digits d = true ->
  run_match [] digits [32%N; 32%N] g (a ++ d :: t)
  = extend (d :: t) (run_match [] digits [32%N; 32%N] g a).
Proof.
  intros Ha Hend Hd. unfold run_match. cbn [strip_prefix].
  pose proof (drop_while_ends_outside digits a Ha Hend) as Hdw.
  destruct (take_while_stable digits a (d :: t) Hdw) as [-> ->].
  destruct (take_while digits a) as [|c run]; [reflexivity|].
  destruct (drop_while digits a) as [|x rest]; [congruence|].
  cbn [app strip_prefix]. destruct (N.eqb 32 x); [|reflexivity].
  destruct rest as [|y rest]; cbn [app strip_prefix].
  - destruct (N.eqb_spec 32 d) as [<-|]; [discriminate Hd | reflexivity].
  - destruct (N.eqb 32 y); reflexivity.
Qed.

Lemma tie_app (n : nat) (a t : str) (d : char) :
  ends_outside digits a -> in_set digits d = true ->
  tie n (a ++ d :: t) = tie n a ++ tie n (d :: t).
Proof.
  intros Hend Hd. unfold tie. apply scan_sub_app. intros a1 a2 -> Ha2.
  rewrite !match_here_verse_spaces. apply run_match_spaces_stable;
    [assumption | now apply ends_outside_suffix with a1 | assumption].
Qed.

Lemma tie_double_space (n : nat) (run b : str) :
  run <> [] -> Forall (fun c => in_set digits c = true) run ->
  tie n (run ++ [32%N; 32%N] ++ b) = run ++ [126%N] ++ tie n b.
Proof.
  intros Hne Hrun. unfold tie.
  assert (Hm : match_here n verse_spaces_re (run ++ [32%N; 32%N] ++ b)
               = Some (run ++ [32%N; 32%N], [run], b)).
  { rewrite match_here_verse_spaces.
    apply (run_match_intro [] digits [32%N; 32%N] true run b);
      [apply ends_digits; reflexivity | discriminate | assumption | assumption]. }
  rewrite (scan_sub_match _ _ _ _ _ _ _ Hm) by (destruct run; [congruence | discriminate]).
  cbn [expand flat_map nth app]. now rewrite <- app_assoc.
Qed.

Lemma tie_nbsp_kept (n : nat) (run b : str) :
  Forall (fun c => in_set digits c = true) run ->
  tie n (run ++ [160%N] ++ b) = run ++ [160%N] ++ tie n b.
Proof.
  intros Hrun. unfold tie.
  rewrite !(app_assoc run [160%N]).
  apply scan_sub_copy. intros u1 c u2 E.
  rewrite match_here_verse_spaces. unfold run_match. cbn [strip_prefix].
  assert (Hsuf : exists r, c :: u2 = r ++ [160%N]
                           /\ Forall (fun x => in_set digits x = true) r).
  { clear -E Hrun. revert u1 E. induction Hrun as [|x run Hx Hrun IH]; intros u1 E.
    - destruct u1 as [|y u1]; cbn [app] in E.
      + injection E as <- <-. exists []. split; [reflexivity | constructor].
      + injection E as _ E. destruct u1; discriminate E.
    - destruct u1 as [|y u1]; cbn [app] in E.
      + injection E as <- <-. exists (x :: run). split; [reflexivity|].
        constructor; assumption.
      + injection E as _ E. apply (IH u1 E). }
  destruct Hsuf as (r & Er & Hr).
  change (c :: u2 ++ b) with ((c :: u2) ++ b). rewrite Er, <- app_assoc.
  destruct (take_while_app digits r ([160%N] ++ b) Hr) as [-> ->].
  - intros x t Ex. injection Ex as <- _. reflexivity.
  - destruct r; reflexivity.
Qed.

(** A string is a part that ends outside the digits, then digits. *)
Lemma trailing_digits (a : str) :
  exists a0 da, a = a0 ++ da
                /\ Forall (fun c => in_set digits c = true) da
                /\ ends_outside digits a0.
Proof.
  induction a as [|c a IH] using rev_ind.
  - exists [], []. repeat split; [constructor|].
    intros a0 c E. destruct a0; discriminate E.
  - destruct (in_set digits c) eqn:Ec.
    + destruct IH as (a0 & da & -> & Hda & Ha0).
      exists a0, (da ++ [c]). rewrite app_assoc. repeat split; [|assumption].
      apply Forall_app. split; [assumption | now constructor].
    + exists (a ++ [c]), []. rewrite app_nil_r. repeat split; [constructor|].
      intros a0 x E. apply app_inj_tail in E. destruct E as [_ <-]. exact Ec.
Qed.

Lemma tie_nbsp_app (a b : str) : tie_nbsp (a ++ b) = tie_nbsp a ++ tie_nbsp b.
Proof. rewrite !tie_nbsp_map. apply map_app. Qed.

Lemma tie_nbsp_digits (run : str) :
  Forall (fun c => in_set digits c = true) run -> tie_nbsp run = run.
Proof.
  intros H. apply tie_nbsp_absent. intros Hin.
  rewrite Forall_forall in H. specialize (H _ Hin). discriminate H.
Qed.

Lemma ties_agree (a ds b : str) :
  ds <> [] -> Forall (fun c => in_set digits c = true) ds ->
  tie_nbsp (tie_numbers (a ++ ds ++ [32%N; 32%N] ++ b))
  = tie_nbsp (tie_numbers (a ++ ds ++ [160%N] ++ b)).
Proof.
  intros Hne Hds.
  assert (Ht : forall p, tie_numbers p = tie 0 p)
    by (intros p; apply (tie_ext (length p) 0 p)).
  rewrite !Ht.
  destruct (trailing_digits a) as (a0 & da & -> & Hda & Ha0).
  destruct ds as [|d ds]; [congruence|].
  inversion Hds as [|? ? Hd Hds']; subst.
  assert (Hrun : Forall (fun c => in_set digits c = true) (da ++ d :: ds))
    by (apply Forall_app; split; assumption).
  assert (Hrne : da ++ d :: ds <> []) by (destruct da; discriminate).
  assert (Hhead : exists x r, da ++ d :: ds = x :: r /\ in_set digits x = true).
  { destruct da as [|x da]; [exists d, ds | exists x, (da ++ d :: ds)];
      (split; [reflexivity|]); [assumption|].
    now inversion Hda. }
  destruct Hhead as (x & r & Ex & Hx).
  set (run := da ++ d :: ds) in *.
  assert (E1 : (a0 ++ da) ++ (d :: ds) ++ [32%N; 32%N] ++ b
               = a0 ++ run ++ [32%N; 32%N] ++ b)
    by (unfold run; now rewrite <- !app_assoc).
  assert (E2 : (a0 ++ da) ++ (d :: ds) ++ [160%N] ++ b
               = a0 ++ run ++ [160%N] ++ b)
    by (unfold run; now rewrite <- !app_assoc).
  rewrite E1, E2.
  assert (T1 : tie 0 (a0 ++ run ++ [32%N; 32%N] ++ b)
               = tie 0 a0 ++ tie 0 (run ++ [32%N; 32%N] ++ b)).
  { rewrite Ex. cbn [app]. now apply tie_app. }
  assert (T2 : tie 0 (a0 ++ run ++ [160%N] ++ b)
               = tie 0 a0 ++ tie 0 (run ++ [160%N] ++ b)).
  { rewrite Ex. cbn [app]. now apply tie_app. }
  rewrite T1, T2, !tie_nbsp_app. f_equal.
  rewrite tie_double_space by assumption.
  rewrite tie_nbsp_kept by assumption.
  rewrite !tie_nbsp_app, (tie_nbsp_digits _ Hrun). reflexivity.
Qed.

(** *** Verse numbers turned red, once more *)

Definition redden (n : nat) (s : str) : str :=
  scan_sub verse_re Claims.red_items n 0 s.

Lemma redden_match (n : nat) (run rest : str) :
  expand Claims.red_items ((run ++ [126%N]) :: [run]) ++ redden n rest
  = text "\\textcolor{benred8}{" ++ run ++ text "}~" ++ redden n rest.
Proof.
  unfold Claims.red_items. rewrite !expand_app, !expand_chars.
  cbn [expand flat_map nth app]. rewrite app_nil_r, <- !app_assoc. reflexivity.
Qed.

Lemma tight_digits (run : str) (x : char) (rest : str) :
  Forall (fun c => in_set digits c = true) run -> x <> 126%N ->
  tight (x :: rest) = true -> tight (run ++ x :: rest) = true.
Proof.
  intros Hrun Hx Ht. induction Hrun as [|c run Hc Hrun IH]; [exact Ht|].
  cbn [app tight]. rewrite IH, andb_true_r.
  destruct run as [|y run].
  - cbn [app]. destruct (N.eqb_spec x 126); [contradiction|].
    now rewrite andb_false_r.
  - cbn [app]. inversion Hrun as [|? ? Hy _]; subst.
    rewrite in_digits in Hy.
    destruct (N.eqb_spec y 126) as [->|]; [lia|]. now rewrite andb_false_r.
Qed.

(** The result of the scan is tight, and it begins with "~" only where the
    subject does. *)
Lemma redden_tight (n : nat) (s : str) :
  tight (redden n s) = true
  /\ (hd 0%N (redden n s) = 126%N -> hd 0%N s = 126%N).
Proof.
  remember (length s) as k eqn:Ek.
  assert (Hk : length s <= k) by lia. clear Ek.
  revert s Hk. induction k as [|k IH]; intros s Hk.
  - destruct s; [split; [reflexivity | auto] | simpl in Hk; lia].
  - destruct s as [|c s]; [split; [reflexivity | auto]|].
    unfold redden.
    destruct (match_here n verse_re (c :: s)) as [[[m gs] rest]|] eqn:Em.
    + pose proof Em as Em'. rewrite match_here_verse in Em'.
      apply run_match_inv in Em'.
      destruct Em' as (run & Hne & Hrun & -> & Es & ->).
      cbn [app] in *.
      rewrite (scan_sub_match _ _ _ _ _ _ _ Em)
        by (destruct run; discriminate).
      fold (redden n rest). rewrite redden_match.
      assert (Hlen : length rest <= k).
      { apply (f_equal (@length N)) in Es. rewrite !length_app in Es.
        simpl in Es, Hk. destruct run; [congruence|]. simpl in Es. lia. }
      destruct (IH rest Hlen) as [Ht _].
      split; [|discriminate].
      apply (tight_app (text "\\textcolor{benred8}{")); [reflexivity | | left; reflexivity].
      apply tight_digits; [assumption | discriminate |].
      change (text "}~" ++ redden n rest) with (125%N :: 126%N :: redden n rest).
      cbn [tight]. cbn [Py.is_digit N.leb N.compare Pos.compare Pos.compare_cont andb negb].
      destruct (redden n rest); [reflexivity|]. exact Ht.
    + rewrite (scan_sub_miss _ _ _ _ _ Em). fold (redden n s).
      destruct (IH s ltac:(simpl in Hk; lia)) as [Ht Hh].
      split; [|auto].
      cbn [tight]. rewrite Ht, andb_true_r.
      destruct (redden n s) as [|x t] eqn:Er; [now rewrite andb_false_r|].
      destruct (N.eqb_spec x 126) as [->|]; [|now rewrite andb_false_r].
      destruct (Py.is_digit c) eqn:Ec; [|reflexivity].
      exfalso. specialize (Hh eq_refl).
      destruct s as [|y s]; [discriminate Hh|]. cbn [hd] in Hh. subst y.
      rewrite match_here_verse in Em.
      change (c :: 126%N :: s) with ([] ++ [c] ++ [126%N] ++ s) in Em.
      rewrite (run_match_intro [] digits [126%N] true [c] s) in Em;
        [discriminate | apply ends_digits; reflexivity | discriminate
         | discriminate | ].
      constructor; [now rewrite in_set_digits | constructor].
Qed.

(** Tight text holds no match of [verse_re]. *)
Lemma redden_fixed (n : nat) (s : str) : tight s = true -> redden n s = s.
Proof.
  intros Hs. unfold redden. rewrite <- (app_nil_r s) at 1.
  rewrite scan_sub_copy; [now rewrite app_nil_r|].
  intros u1 c u2 E. rewrite app_nil_r, match_here_verse.
  destruct (run_match [] digits [126%N] true (c :: u2))
    as [[[m gs] rest]|] eqn:Em; [|reflexivity].
  apply run_match_inv in Em. destruct Em as (run & Hne & Hrun & -> & Es & _).
  rewrite E in Hs. apply tight_suffix in Hs. rewrite Es in Hs.
  cbn [app] in Hs. rewrite <- app_assoc in Hs. cbn [app] in Hs.
  destruct (exists_last Hne) as (run0 & d & ->).
  rewrite <- app_assoc in Hs. apply tight_suffix in Hs.
  apply Forall_app in Hrun. destruct Hrun as [_ Hd].
  inversion Hd as [|? ? Hd' _]; subst. rewrite in_set_digits in Hd'.
  cbn [app tight] in Hs. rewrite Hd' in Hs. discriminate Hs.
Qed.

End VerseExtras.

Module PipelineExtras.

Import Re ReFacts PatternFacts TemplateFacts Chapter Vocabulary Terms.
Import ScanExtras VerseExtras.

Lemma map_result_total {A B : Type} (f : A -> result B) (g : A -> B) (l : list A) :
  (forall x, f x = Return (g x)) -> map_result f l = Return (map g l).
Proof.
  intros H. induction l as [|x l IH]; [reflexivity|].
  cbn [map_result map]. now rewrite H, IH.
Qed.

Lemma map_result_length {A B : Type} (f : A -> result B) (l : list A) (out : list B) :
  map_result f l = Return out -> length out = length l.
Proof.
  revert out. induction l as [|x l IH]; intros out H.
  - injection H as <-. reflexivity.
  - cbn [map_result] in H. destruct (f x) as [y|e]; [|discriminate].
    cbn [bind] in H. destruct (map_result f l) as [ys|e]; [|discriminate].
    injection H as <-. simpl. f_equal. now apply IH.
Qed.

Lemma do_dropcaps_length (py : runtime) (ps out : list str) (lines : Z) :
  do_dropcaps py ps lines = Return out -> length out = length ps.
Proof.
  unfold do_dropcaps. destruct ps as [|p ps]; [discriminate|].
  change (Py.index (p :: ps) 0) with (Return p). cbn [bind].
  destruct (re_sub py dropcap_re _ p) as [q|e]; [|discriminate].
  cbn [bind Py.set_first]. intros H. injection H as <-. reflexivity.
Qed.

Lemma do_dropcaps_strict (py : runtime) (ps : list str) (lines : Z) :
  escapes py = Strict ->
  do_dropcaps py ps lines
  = Raise (match ps with [] => IndexError | _ => ReError end).
Proof.
  intros Hs. unfold do_dropcaps. destruct ps as [|p ps]; [reflexivity|].
  change (Py.index (p :: ps) 0) with (Return p). cbn [bind].
  unfold re_sub, Re.sub. rewrite Hs.
  change (groups_of dropcap_re) with 2%nat.
  now rewrite Claims.parse_dropcap_strict.
Qed.

Lemma get_text_length (py : runtime) (table : char -> option str)
    (number : Z) (footnotes cells out : list str) :
  get_text_from_soup py table number footnotes cells = Return out ->
  length out = length cells.
Proof.
  unfold get_text_from_soup. intros H.
  destruct (map_result (fix_spacing_around_verse_numbers py) (map Py.strip cells))
    as [p1|e] eqn:E1; [|discriminate].
  cbn [bind] in H.
  destruct (if (number =? 1)%Z then do_dropcaps py p1 3 else do_dropcaps py p1 2)
    as [p2|e] eqn:E2; [|discriminate].
  cbn [bind] in H.
  destruct (map_result (turn_verse_numbers_red py) p2) as [p3|e] eqn:E3;
    [|discriminate].
  cbn [bind] in H.
  destruct (map_result (fun x => latexify_certain_ones py table x false) p3)
    as [p4|e] eqn:E4; [|discriminate].
  cbn [bind] in H.
  apply map_result_length in E1, E3, E4, H.
  assert (length p2 = length p1)
    by (destruct (number =? 1)%Z; eapply do_dropcaps_length; eassumption).
  rewrite length_map in E1. congruence.
Qed.

Lemma get_text_strict (py : runtime) (table : char -> option str)
    (number : Z) (footnotes cells : list str) :
  escapes py = Strict ->
  get_text_from_soup py table number footnotes cells
  = Raise (match cells with [] => IndexError | _ => ReError end).
Proof.
  intros Hs. unfold get_text_from_soup.
  rewrite (map_result_total (fix_spacing_around_verse_numbers py)
             (fun p => halve_spaces (tie_nbsp (tie_numbers p))))
    by (intros x; apply fix_spacing_scan).
  cbn [bind]. rewrite !(do_dropcaps_strict py _ _ Hs).
  destruct cells; destruct (number =? 1)%Z; reflexivity.
Qed.

Lemma get_text_empty (py : runtime) (table : char -> option str)
    (number : Z) (footnotes : list str) :
  get_text_from_soup py table number footnotes [] = Raise IndexError.
Proof.
  unfold get_text_from_soup. simpl. destruct (number =? 1)%Z; reflexivity.
Qed.

(** The numeral of a chapter number holds no backslash. *)
Lemma plain_roman (n : Z) : plain (Roman.number_to_roman n).
Proof.
  rewrite RomanFacts.number_to_roman_standard.
  repeat (apply Forall_app; split).
  - apply RomanExtras.thousands_symbols. discriminate.
  - apply RomanExtras.digit_numeral_symbols; repeat constructor; discriminate.
  - apply RomanExtras.digit_numeral_symbols; repeat constructor; discriminate.
  - apply RomanExtras.digit_numeral_symbols; repeat constructor; discriminate.
Qed.

(** The strict dialect refuses both heading templates, at the [\e] of
    [\end]. *)
Lemma parse_heading_strict (number : Z) :
  parse_template Strict 1 None (heading_template number) = Raise ReError.
Proof.
  unfold heading_template.
  pose proof (plain_str_of_int number) as Hplain.
  generalize dependent (Py.str_of_int number). intros ds Hplain.
  change (text "\1\\begin{large}\\begin{center}")
    with ([92; 49; 92; 92]%N ++ text "begin{large}" ++ [92; 92]%N
          ++ text "begin{center}").
  rewrite <- !app_assoc. cbn [app].
  cbn [parse_template N.eqb Pos.eqb negb Py.is_digit known_escape
         is_ascii_letter N.leb N.compare Pos.compare Pos.compare_cont andb orb
         emit_group digit_value N.sub Pos.sub_mask Pos.double_mask
         Pos.succ_double_mask Pos.double_pred_mask Pos.pred_double N.to_nat
         Pos.to_nat Pos.iter_op Nat.add Nat.ltb Nat.leb].
  rewrite (parse_plain Strict 1 (text "begin{large}")
             (92%N :: 92%N :: text "begin{center}" ++ ds
              ++ text "\end{center}\end{large}" ++ [LF]))
    by (apply plain_test; reflexivity).
  cbn [parse_template N.eqb Pos.eqb negb Py.is_digit known_escape
         is_ascii_letter N.leb N.compare Pos.compare Pos.compare_cont andb orb].
  rewrite (app_assoc (text "begin{center}") ds).
  rewrite (parse_plain Strict 1 (text "begin{center}" ++ ds)
             (text "\end{center}\end{large}" ++ [LF])).
  2:{ apply Forall_app. split; [apply plain_test; reflexivity | assumption]. }
  reflexivity.
Qed.

(** The heading template of [insert_just_english_into_template]. *)
Definition chapter_heading_template (number : Z) : str :=
  text "\1\\begin{large}\\begin{center}\\textsc{Chapter "
  ++ Roman.number_to_roman number
  ++ text "}\end{center}\end{large}" ++ [LF].

Lemma parse_chapter_heading (d : dialect) (number : Z) :
  parse_template d 1 None (chapter_heading_template number)
  = match d with
    | Lenient => Return (TGroup 1 :: map TChar (chapter_heading number))
    | Strict => Raise ReError
    end.
Proof.
  unfold chapter_heading_template, chapter_heading.
  pose proof (plain_roman number) as Hplain.
  generalize dependent (Roman.number_to_roman number). intros ds Hplain.
  change (text "\1\\begin{large}\\begin{center}\\textsc{Chapter ")
    with ([92; 49; 92; 92]%N ++ text "begin{large}" ++ [92; 92]%N
          ++ text "begin{center}" ++ [92; 92]%N ++ text "textsc{Chapter ").
  rewrite <- !app_assoc. cbn [app].
  cbn [parse_template N.eqb Pos.eqb negb Py.is_digit known_escape
         is_ascii_letter N.leb N.compare Pos.compare Pos.compare_cont andb orb
         emit_group digit_value N.sub Pos.sub_mask Pos.double_mask
         Pos.succ_double_mask Pos.double_pred_mask Pos.pred_double N.to_nat
         Pos.to_nat Pos.iter_op Nat.add Nat.ltb Nat.leb].
  rewrite (parse_plain d 1 (text "begin{large}")
             (92%N :: 92%N :: text "begin{center}" ++ 92%N :: 92%N
              :: text "textsc{Chapter " ++ ds
              ++ text "}\end{center}\end{large}" ++ [LF]))
    by (apply plain_test; reflexivity).
  cbn [parse_template N.eqb Pos.eqb negb Py.is_digit known_escape
         is_ascii_letter N.leb N.compare Pos.compare Pos.compare_cont andb orb].
  rewrite (parse_plain d 1 (text "begin{center}")
             (92%N :: 92%N :: text "textsc{Chapter " ++ ds
              ++ text "}\end{center}\end{large}" ++ [LF]))
    by (apply plain_test; reflexivity).
  cbn [parse_template N.eqb Pos.eqb negb Py.is_digit known_escape
         is_ascii_letter N.leb N.compare Pos.compare Pos.compare_cont andb orb].
  rewrite (app_assoc (text "textsc{Chapter ") ds).
  rewrite (parse_plain d 1 (text "textsc{Chapter " ++ ds)
             (text "}\end{center}\end{large}" ++ [LF])).
  2:{ apply Forall_app. split; [apply plain_test; reflexivity | assumption]. }
  destruct d.
  - replace (parse_template Lenient 1 None
               (text "}\end{center}\end{large}" ++ [LF]))
      with (Return (map TChar (text "}\end{center}\end{large}" ++ [LF])))
      by (vm_compute; reflexivity).
    cbn [prepend emit bind]. f_equal. f_equal.
    change (text "\begin{large}\begin{center}\textsc{Chapter ")
      with (92%N :: text "begin{large}" ++ 92%N :: text "begin{center}"
            ++ 92%N :: text "textsc{Chapter ").
    rewrite !map_app. cbn [map app]. rewrite !map_app.
    repeat (rewrite <- ?app_assoc; cbn [app map]). reflexivity.
  - reflexivity.
Qed.

Lemma insert_just_english_heading (py : runtime) (self : chapter) (template : str) :
  insert_just_english_into_template py self template
  = (template <-
       for_each (range (length (english_pars self)))
         (fun template i =>
            english <- Py.index (english_pars self) (-1 - i) ;;
            re_sub py (anchor_re chapter_anchor)
              (text "\1" ++ english ++ [LF]) template)
         template ;;
     re_sub py (anchor_re chapter_anchor)
       (chapter_heading_template (number self)) template).
Proof. reflexivity. Qed.

Lemma insert_into_template_strict (py : runtime) (c : chapter) (template : str) :
  escapes py = Strict -> exists e, insert_into_template py c template = Raise e.
Proof.
  intros Hs. unfold insert_into_template.
  match goal with
  | |- context [for_each ?l ?f ?a] => destruct (for_each l f a) as [t|e]
  end; [|now exists e].
  cbn [bind]. unfold re_sub at 1, Re.sub. rewrite Hs.
  change (groups_of (anchor_re latin_anchor)) with 1%nat.
  rewrite parse_heading_strict. now exists ReError.
Qed.

Lemma insert_just_english_strict (py : runtime) (c : chapter) (template : str) :
  escapes py = Strict ->
  exists e, insert_just_english_into_template py c template = Raise e.
Proof.
  intros Hs. rewrite insert_just_english_heading.
  match goal with
  | |- context [for_each ?l ?f ?a] => destruct (for_each l f a) as [t|e]
  end; [|now exists e].
  cbn [bind]. unfold re_sub, Re.sub. rewrite Hs.
  change (groups_of (anchor_re chapter_anchor)) with 1%nat.
  rewrite parse_chapter_heading. now exists ReError.
Qed.

(** A loop over chapters whose insertion always raises. *)
Lemma reverse_chapter_loop_raises (insert : chapter -> str -> result str)
    (chapters : list chapter) (template : str) :
  (forall c t, exists e, insert c t = Raise e) ->
  chapters <> [] ->
  exists e, reverse_chapter_loop insert chapters template = Raise e.
Proof.
  intros Hins Hne. unfold reverse_chapter_loop.
  rewrite (LoopFacts.for_each_reversed chapters
             (fun output c => insert c output) template).
  destruct (rev chapters) as [|c cs] eqn:E.
  - apply (f_equal (@rev chapter)) in E. rewrite rev_involutive in E.
    simpl in E. contradiction.
  - cbn [for_each]. destruct (Hins c template) as [e ->]. now exists e.
Qed.

End PipelineExtras.

Module LatexifyExtras.

Import Re ReFacts PatternFacts TemplateFacts Chapter Vocabulary Terms.
Import ScanExtras.

Lemma flat_map_flat_map {A B C : Type} (f : A -> list B) (g : B -> list C)
    (l : list A) :
  flat_map g (flat_map f l) = flat_map (fun x => flat_map g (f x)) l.
Proof.
  induction l as [|x l IH]; [reflexivity|].
  cbn [flat_map]. now rewrite flat_map_app, IH.
Qed.

Lemma flat_map_pointwise {A B : Type} (f g : A -> list B) (l : list A) :
  (forall x, f x = g x) -> flat_map f l = flat_map g l.
Proof.
  intros H. induction l as [|x l IH]; [reflexivity|].
  cbn [flat_map]. now rewrite H, IH.
Qed.

Lemma flat_map_single (k : char) (o s : str) :
  ~ In k s ->
  flat_map (fun c => if N.eqb c k then o else [c]) s = s.
Proof.
  induction s as [|c s IH]; intros H; [reflexivity|].
  cbn [flat_map]. destruct (N.eqb_spec c k) as [->|_].
  - elim H. now left.
  - cbn [app]. f_equal. apply IH. intros Hin. apply H. now right.
Qed.

Lemma existsb_eqb (c : char) (l : list N) :
  existsb (N.eqb c) l = true <-> In c l.
Proof.
  rewrite existsb_exists. split.
  - intros (x & Hx & E). apply N.eqb_eq in E. now subst.
  - intros H. exists c. split; [assumption | apply N.eqb_refl].
Qed.

Section Substitution.

Variables (d : dialect) (tpl : char * str -> str) (out : char -> str).

(** The characters of [done] replaced, the others kept. *)
Definition subst (done : list N) (c : char) : str :=
  if existsb (N.eqb c) done then out c else [c].

Lemma subst_step (done : list N) (k c : char) :
  (forall x, In x done -> ~ In k (out x)) -> ~ In k done ->
  flat_map (fun x => if N.eqb x k then out k else [x]) (subst done c)
  = subst (done ++ [k]) c.
Proof.
  intros Hclean Hk. unfold subst. rewrite existsb_app. cbn [existsb].
  rewrite orb_false_r.
  destruct (existsb (N.eqb c) done) eqn:E.
  - cbn [orb]. apply flat_map_single. apply Hclean. now apply existsb_eqb.
  - cbn [orb flat_map]. rewrite app_nil_r.
    destruct (N.eqb_spec c k) as [->|]; reflexivity.
Qed.

Lemma for_each_subst (L : list (char * str)) :
  NoDup (map fst L) ->
  (forall item, In item L ->
     parse_template d 0 None (tpl item) = Return (map TChar (out (fst item)))) ->
  forall (done : list N) (p : str),
    (forall x item, In item L -> ~ In (fst item) (out x)) ->
    (forall item, In item L -> ~ In (fst item) done) ->
    for_each L
      (fun paragraph item => Re.sub d (Lit [fst item]) (tpl item) paragraph)
      (flat_map (subst done) p)
    = Return (flat_map (subst (done ++ map fst L)) p).
Proof.
  induction L as [|item L IH]; intros Hnd Hparse done p Hclean Hfresh.
  - cbn [for_each map]. now rewrite app_nil_r.
  - cbn [for_each]. unfold Re.sub at 1.
    change (groups_of (Lit [fst item])) with 0%nat.
    rewrite (Hparse item) by now left.
    cbn [bind]. rewrite scan_char.
    rewrite (flat_map_pointwise
               (fun c => if N.eqb c (fst item)
                         then expand (map TChar (out (fst item))) [[fst item]]
                         else [c])
               (fun c => if N.eqb c (fst item) then out (fst item) else [c]))
      by (intros x; now rewrite expand_chars).
    rewrite flat_map_flat_map.
    rewrite (flat_map_pointwise _ (subst (done ++ [fst item]))).
    2:{ intros c. apply subst_step.
        - intros x _. apply Hclean. now left.
        - apply Hfresh. now left. }
    inversion Hnd as [|? ? Hnotin Hnd']; subst.
    rewrite IH.
    + cbn [map]. rewrite <- app_assoc. reflexivity.
    + assumption.
    + intros i Hi. apply Hparse. now right.
    + intros x i Hi. apply Hclean. now right.
    + intros i Hi Hin. apply in_app_iff in Hin. destruct Hin as [Hin|Hin].
      * apply (Hfresh i); [now right | assumption].
      * destruct Hin as [E|[]]. apply Hnotin. rewrite E.
        now apply in_map.
Qed.

End Substitution.

Lemma NoDup_map_fst {A B : Type} (l : list (A * B)) :
  NoDup l ->
  (forall x y, In x l -> In y l -> fst x = fst y -> x = y) ->
  NoDup (map fst l).
Proof.
  induction 1 as [|x l Hx Hl IH]; intros Hinj; [constructor|].
  cbn [map]. constructor.
  - intros H. apply in_map_iff in H. destruct H as (y & E & Hy).
    assert (y = x) by (apply Hinj; [now right | now left | assumption]).
    subst y. contradiction.
  - apply IH. intros u v Hu Hv. apply Hinj; now right.
Qed.

Lemma flat_map_unit (p : str) : flat_map (fun c => [c]) p = p.
Proof. induction p as [|c p IH]; [reflexivity | simpl; now f_equal]. Qed.

End LatexifyExtras.

Module AnchorExtras.

Import Re ReFacts PatternFacts TemplateFacts Chapter Vocabulary Terms.
Import OccurrenceFacts ScanExtras PipelineExtras.

(** *** A template with one more character *)

Lemma emit_snoc (i : titem) (r : result (list titem)) (items : list titem)
    (c : char) (r' : result (list titem)) :
  (forall its, r = Return its -> r' = Return (its ++ [TChar c])) ->
  emit i r = Return items -> emit i r' = Return (items ++ [TChar c]).
Proof.
  intros H E. unfold emit in *. destruct r as [its|e]; [|discriminate].
  cbn [bind] in E. injection E as <-. now rewrite (H its eq_refl).
Qed.

Lemma emit_group_snoc (g k : nat) (r : result (list titem)) (items : list titem)
    (c : char) (r' : result (list titem)) :
  (forall its, r = Return its -> r' = Return (its ++ [TChar c])) ->
  emit_group g k r = Return items ->
  emit_group g k r' = Return (items ++ [TChar c]).
Proof.
  unfold emit_group. intros H E. destruct (Nat.ltb g k); [discriminate|].
  eapply emit_snoc; eassumption.
Qed.

Lemma group_of_name_snoc (nm rest : str) (c : char) (k : nat) :
  group_of_name nm rest = Return k -> group_of_name nm (rest ++ [c]) = Return k.
Proof.
  unfold group_of_name. destruct (is_identifier nm).
  - destruct rest as [|x [|y rest]]; try discriminate;
      (destruct x as [|p]; try discriminate;
       repeat (destruct p as [p|p|]; try discriminate)).
  - auto.
Qed.

Ltac snoc_leaf IH H :=
  try change (parse_template ?d ?g None [?c])
        with (parse_template d g None ([] ++ [c]));
  try match goal with
      | |- context [parse_template ?d ?g ?nm (?x :: ?s ++ [?c])] =>
          change (parse_template d g nm (x :: s ++ [c]))
            with (parse_template d g nm ((x :: s) ++ [c]))
      end;
  first
    [ discriminate H
    | apply IH; [simpl; lia | exact H]
    | eapply emit_snoc; [|exact H];
      let its := fresh "its" in
      let Hits := fresh "Hits" in
      intros its Hits; snoc_leaf IH Hits
    | eapply emit_group_snoc; [|exact H];
      let its := fresh "its" in
      let Hits := fresh "Hits" in
      intros its Hits; snoc_leaf IH Hits ].

(** A well-formed template followed by a character that is no digit and
    no backslash is well-formed, and stands for one more character. *)
Lemma parse_snoc (d : dialect) (g : nat) (c : char) :
  Py.is_digit c = false -> c <> 92%N ->
  forall (n : nat) (s : str) (name : option str) (items : list titem),
    length s <= n ->
    parse_template d g name s = Return items ->
    parse_template d g name (s ++ [c]) = Return (items ++ [TChar c]).
Proof.
  intros Hdig Hbs.
  assert (Hoct : is_octdigit c = false).
  { unfold is_octdigit, Py.is_digit in *.
    destruct (48 <=? c)%N; [|reflexivity]. simpl in *.
    destruct (N.leb_spec c 55); [|reflexivity].
    destruct (N.leb_spec c 57); [discriminate | lia]. }
  assert (Hc : N.eqb c 92 = false) by now apply N.eqb_neq.
  assert (Hnil : forall name items,
            parse_template d g name [] = Return items ->
            parse_template d g name [c] = Return (items ++ [TChar c])).
  { intros [nm|] items H; [discriminate H|].
    injection H as <-. cbn [parse_template]. rewrite Hc. reflexivity. }
  induction n as [|n IH]; intros s name items Hlen H.
  - destruct s; [|simpl in Hlen; lia]. now apply Hnil.
  - destruct s as [|x s]; [now apply Hnil|].
    assert (IH' : forall s' name' items',
               length s' <= length s ->
               parse_template d g name' s' = Return items' ->
               parse_template d g name' (s' ++ [c]) = Return (items' ++ [TChar c])).
    { intros s' name' items' Hl. apply IH. simpl in Hlen. lia. }
    clear IH Hlen.
    cbn [app parse_template] in H |- *.
    destruct name as [nm|].
    + destruct (N.eqb x 62).
      * destruct nm as [|p nm]; [discriminate H|].
        destruct (group_of_name (p :: nm) s) as [k|] eqn:Eg; [|discriminate H].
        rewrite (group_of_name_snoc _ _ c _ Eg). cbn [bind] in H |- *.
        snoc_leaf IH' H.
      * destruct (N.eqb x 92); snoc_leaf IH' H.
    + destruct (negb (N.eqb x 92)); [snoc_leaf IH' H|].
      destruct s as [|e s2]; [discriminate H|]. cbn [app].
      destruct (N.eqb e 103).
      { destruct s2 as [|y s3]; [discriminate H|]. cbn [app].
        destruct (N.eqb_spec y 60) as [->|Hy]; [snoc_leaf IH' H|].
        exfalso.
        assert (Hm : forall (A : Type) (k r : A),
                   match y with 60%N => k | _ => r end = r).
        { intros A k r. destruct y as [|p]; [reflexivity|].
          do 6 (destruct p as [p|p|]; try reflexivity). congruence. }
        rewrite Hm in H. discriminate H. }
      destruct (N.eqb e 48).
      { destruct s2 as [|o1 s3]; cbn [app].
        - rewrite Hoct. snoc_leaf IH' H.
        - destruct (is_octdigit o1); [|snoc_leaf IH' H].
          destruct s3 as [|o2 s4]; cbn [app].
          + rewrite Hoct. snoc_leaf IH' H.
          + destruct (is_octdigit o2); snoc_leaf IH' H. }
      destruct (Py.is_digit e).
      { destruct s2 as [|d2 s3]; cbn [app].
        - rewrite Hdig. snoc_leaf IH' H.
        - destruct (Py.is_digit d2); [|snoc_leaf IH' H].
          destruct s3 as [|d3 s4]; cbn [app].
          + rewrite Hoct, andb_false_r. snoc_leaf IH' H.
          + destruct (is_octdigit e && is_octdigit d2 && is_octdigit d3);
              [|snoc_leaf IH' H].
            match type of H with
            | context [if ?b then _ else _] => destruct b
            end; snoc_leaf IH' H. }
      destruct (known_escape e); [snoc_leaf IH' H|].
      destruct (is_ascii_letter e); [destruct d|]; snoc_leaf IH' H.
Qed.

(** *** The English-only compositor *)

(** A paragraph as it stands in the document. *)
Definition line (par : str) : str := rendered par ++ [LF].

Lemma parse_line (par : str) :
  insertable_line par ->
  parse_template Lenient 1 None (text "\1" ++ par ++ [LF])
  = Return (TGroup 1 :: map TChar (line par)).
Proof.
  intros [Hd Hp]. unfold line. rewrite map_app.
  pose proof (parse_snoc Lenient 1 LF eq_refl ltac:(discriminate)
                (length par) par None _ (le_n _) Hp) as Hs.
  change (text "\1" ++ par ++ [LF]) with (92%N :: 49%N :: par ++ [LF]).
  destruct par as [|x par].
  - reflexivity.
  - cbn [hd] in Hd. cbn [app] in Hs |- *.
    remember (x :: par ++ [LF]) as tail eqn:Et.
    cbn [parse_template N.eqb Pos.eqb negb].
    change (Py.is_digit 49) with true. cbv iota.
    rewrite Et at 1. cbv iota. rewrite Hd, Hs. reflexivity.
Qed.

Lemma sub_line (py : runtime) (par doc : str) :
  escapes py = Lenient -> insertable_line par ->
  re_sub py (anchor_re chapter_anchor) (text "\1" ++ par ++ [LF]) doc
  = Return (scan_sub (anchor_re chapter_anchor)
              (TGroup 1 :: map TChar (line par)) (length doc) 0 doc).
Proof.
  intros Hlen Hp. unfold re_sub, Re.sub. rewrite Hlen.
  change (groups_of (anchor_re chapter_anchor)) with 1%nat.
  now rewrite parse_line.
Qed.

Lemma sub_chapter_heading (py : runtime) (number : Z) (doc : str) :
  escapes py = Lenient ->
  re_sub py (anchor_re chapter_anchor) (chapter_heading_template number) doc
  = Return (scan_sub (anchor_re chapter_anchor)
              (TGroup 1 :: map TChar (chapter_heading number)) (length doc) 0 doc).
Proof.
  intros Hlen. unfold re_sub, Re.sub. rewrite Hlen.
  change (groups_of (anchor_re chapter_anchor)) with 1%nat.
  now rewrite parse_chapter_heading.
Qed.

Lemma for_each_app {A T : Type} (l1 l2 : list A) (body : T -> A -> result T)
    (acc : T) :
  for_each (l1 ++ l2) body acc
  = (acc' <- for_each l1 body acc ;; for_each l2 body acc').
Proof.
  revert acc. induction l1 as [|x l1 IH]; intros acc; [reflexivity|].
  cbn [app for_each]. destruct (body acc x); [apply IH | reflexivity].
Qed.

Section EnglishOnly.

Variables (py : runtime) (pre : str).
Hypothesis Hlen : escapes py = Lenient.
Hypothesis Hpre : first_after chapter_anchor pre.

Lemma insert_after_anchor (n : nat) (y t : str) :
  absent chapter_anchor t ->
  scan_sub (anchor_re chapter_anchor) (TGroup 1 :: map TChar y) n 0
    (pre ++ chapter_anchor ++ t)
  = pre ++ chapter_anchor ++ y ++ t.
Proof.
  intros Ht.
  rewrite (scan_once (anchor_re chapter_anchor) chapter_anchor [chapter_anchor]);
    try assumption.
  - change (expand (TGroup 1 :: map TChar y) [chapter_anchor; chapter_anchor])
      with (chapter_anchor ++ expand (map TChar y) [chapter_anchor; chapter_anchor]).
    now rewrite expand_chars, <- app_assoc.
  - discriminate.
  - intros n' s. apply match_here_literal.
Qed.

Lemma lines_inserted (pars : list str) (t : str) :
  Forall insertable_line pars ->
  absent chapter_anchor (flat_map line pars ++ t) ->
  for_each (rev pars)
    (fun template english =>
       re_sub py (anchor_re chapter_anchor) (text "\1" ++ english ++ [LF])
         template)
    (pre ++ chapter_anchor ++ t)
  = Return (pre ++ chapter_anchor ++ flat_map line pars ++ t).
Proof.
  induction 1 as [|p pars Hp Hps IH]; intros Habs; [reflexivity|].
  cbn [rev flat_map] in *. rewrite <- app_assoc in Habs.
  rewrite for_each_app, IH by (eapply absent_suffix; eassumption).
  cbn [bind for_each]. rewrite (sub_line py p _ Hlen Hp). cbn [bind].
  rewrite insert_after_anchor by (eapply absent_suffix; eassumption).
  now rewrite <- app_assoc.
Qed.

Lemma english_chapter_put (c : chapter) (t : str) :
  Forall insertable_line (english_pars c) ->
  absent chapter_anchor (english_chapter c ++ t) ->
  insert_just_english_into_template py c (pre ++ chapter_anchor ++ t)
  = Return (pre ++ chapter_anchor ++ english_chapter c ++ t).
Proof.
  intros Hps Habs. rewrite insert_just_english_heading.
  rewrite (LoopFacts.for_each_reversed (english_pars c)
             (fun template english =>
                re_sub py (anchor_re chapter_anchor)
                  (text "\1" ++ english ++ [LF]) template)).
  unfold english_chapter in *. fold line in *.
  rewrite <- app_assoc in Habs.
  rewrite lines_inserted by (try assumption; eapply absent_suffix; eassumption).
  cbn [bind]. rewrite (sub_chapter_heading py _ _ Hlen).
  rewrite insert_after_anchor by (eapply absent_suffix; eassumption).
  now rewrite <- app_assoc.
Qed.

Lemma english_chapters_put (cs : list chapter) (t : str) :
  Forall (fun c => Forall insertable_line (english_pars c)) cs ->
  absent chapter_anchor (flat_map english_chapter cs ++ t) ->
  for_each (rev cs)
    (fun output c => insert_just_english_into_template py c output)
    (pre ++ chapter_anchor ++ t)
  = Return (pre ++ chapter_anchor ++ flat_map english_chapter cs ++ t).
Proof.
  induction 1 as [|c cs Hc Hcs IH]; intros Habs; [reflexivity|].
  cbn [rev flat_map] in *. rewrite <- app_assoc in Habs.
  rewrite for_each_app, IH by (eapply absent_suffix; eassumption).
  cbn [bind for_each]. rewrite english_chapter_put by assumption.
  cbn [bind]. now rewrite <- app_assoc.
Qed.

End EnglishOnly.

End AnchorExtras.

Module BookExtras.

Import Re ReFacts PatternFacts TemplateFacts Chapter Vocabulary Terms.
Import ScanExtras.
Import Book.

Lemma match_here_bos (n : nat) (r : regex) (s : str) :
  match_here n (Seq Bos r) s
  = if Nat.eqb (length s) n then match_here n r s else None.
Proof.
  unfold match_here. cbn [rmatch].
  destruct (Nat.eqb (length s) n); reflexivity.
Qed.

(** Past the start of the subject a pattern that begins with [^] matches
    nowhere. *)
Lemma bos_rest_sub (r : regex) (items : list titem) (n : nat) (s : str) :
  length s < n -> scan_sub (Seq Bos r) items n 0 s = s.
Proof.
  intros Hn. rewrite <- (app_nil_r s) at 1.
  rewrite scan_sub_copy; [now rewrite app_nil_r|].
  intros u1 c u2 ->. rewrite app_nil_r, match_here_bos.
  destruct (Nat.eqb_spec (length (c :: u2)) n) as [E|]; [|reflexivity].
  rewrite length_app in Hn. lia.
Qed.

Lemma bos_rest_all (r : regex) (n : nat) (s : str) :
  length s < n -> scan_all (Seq Bos r) n 0 s = [].
Proof.
  intros Hn. rewrite <- (app_nil_r s).
  rewrite scan_all_copy; [reflexivity|].
  intros u1 c u2 ->. rewrite app_nil_r, match_here_bos.
  destruct (Nat.eqb_spec (length (c :: u2)) n) as [E|]; [|reflexivity].
  rewrite length_app in Hn. lia.
Qed.

(** Before a continuation that accepts everything, a greedy repetition
    takes the longest run. *)
Lemma greedy_longest (cs : charset) (s : str) (k : str -> outcome) :
  (forall t, k t <> None) -> greedy cs s k = k (drop_while cs s).
Proof.
  intros Hk. induction s as [|c s IH]; [reflexivity|].
  cbn [greedy drop_while]. destruct (in_set cs c); [|reflexivity].
  rewrite IH. destruct (k (drop_while cs s)) eqn:E; [reflexivity|].
  now elim (Hk (drop_while cs s)).
Qed.

Lemma match_here_star (n : nat) (cs : charset) (s : str) :
  match_here n (Star cs) s = Some (take_while cs s, [], drop_while cs s).
Proof.
  unfold match_here. cbn [rmatch].
  rewrite greedy_longest by discriminate.
  pose proof (take_drop_while cs s) as E.
  generalize dependent (take_while cs s). generalize (drop_while cs s).
  intros r m ->. now rewrite firstn_matched.
Qed.

Lemma match_here_plus_lit (n : nat) (cs : charset) (post s : str) :
  ends_run cs post ->
  match_here n (Seq (Plus cs) (Lit post)) s = run_match [] cs post false s.
Proof.
  intros Hpost. unfold match_here, run_match. cbn [rmatch strip_prefix].
  destruct s as [|c s1]; [reflexivity|].
  cbn [take_while drop_while].
  destruct (in_set cs c) eqn:Ec; [|reflexivity].
  rewrite greedy_commit
    by (intros c' t Hc'; now rewrite (Hpost c' t Hc')).
  pose proof (take_drop_while cs s1) as E.
  destruct (strip_prefix post (drop_while cs s1)) as [rest|] eqn:Ed; [|reflexivity].
  apply strip_prefix_Some in Ed. rewrite Ed in E.
  cbn [app].
  remember (take_while cs s1) as run eqn:Erun. clear Erun. subst s1.
  change (c :: run ++ post ++ rest) with ((c :: run) ++ post ++ rest).
  rewrite (app_assoc (c :: run) post rest), firstn_matched. reflexivity.
Qed.

Lemma underscored_sub (py : runtime) (title : str) :
  re_sub py space_re (text "_") title = Return (underscored title).
Proof.
  unfold re_sub, Re.sub, space_re.
  change (groups_of (Lit (text " "))) with 0.
  replace (parse_template (escapes py) 0 None (text "_"))
    with (Return [TChar 95%N]) by (destruct (escapes py); reflexivity).
  cbn [bind]. f_equal. change (text " ") with [32%N]. rewrite scan_char.
  unfold underscored. induction title as [|c t IH]; [reflexivity|].
  cbn [flat_map map]. rewrite IH. destruct (N.eqb c 32); reflexivity.
Qed.

Lemma underscored_app (a b : str) :
  underscored (a ++ b) = underscored a ++ underscored b.
Proof. apply map_app. Qed.

Lemma underscored_number (ds : str) : is_number ds -> underscored ds = ds.
Proof.
  intros [_ H]. unfold underscored. rewrite <- (map_id ds) at 2.
  apply map_ext_in. intros c Hc. rewrite Forall_forall in H.
  specialize (H c Hc). unfold Py.is_digit in H.
  destruct (N.eqb_spec c 32) as [->|]; [discriminate H | reflexivity].
Qed.

Section Numbered.

Variables (ds rest : str).
Hypothesis Hds : is_number ds.

Let t1 : str := ds ++ 95%N :: rest.

Lemma findall_numbered : Re.findall numbered_re t1 = [ds ++ [95%N]].
Proof.
  unfold Re.findall, numbered_re.
  assert (Hm : match_here (length t1)
                 (Seq Bos (Seq (Plus digits) (Lit (text "_")))) t1
               = Some (ds ++ [95%N], [], rest)).
  { rewrite match_here_bos, Nat.eqb_refl.
    rewrite match_here_plus_lit by (apply ends_digits; reflexivity).
    apply (run_match_intro [] digits [95%N] false ds rest);
      [apply ends_digits; reflexivity | discriminate | apply Hds
       | now apply FootnoteFacts.number_in_set]. }
  rewrite (scan_all_match _ _ _ _ _ _ Hm) by (destruct ds; discriminate).
  f_equal. apply bos_rest_all.
  unfold t1. rewrite length_app. destruct Hds as [Hne _].
  destruct ds; [congruence | simpl; lia].
Qed.

Lemma match_here_initial :
  match_here (length t1) initial_re t1 = Some (ds, [], 95%N :: rest).
Proof.
  unfold initial_re. rewrite match_here_bos, Nat.eqb_refl, match_here_star.
  unfold t1.
  destruct (take_while_app digits ds (95%N :: rest)) as [-> ->];
    [now apply FootnoteFacts.number_in_set
    | intros c t E; injection E as <- _; reflexivity
    | reflexivity].
Qed.

Lemma rest_shorter : length (95%N :: rest) < length t1.
Proof.
  unfold t1. rewrite length_app. destruct Hds as [Hne _].
  destruct ds; [congruence | simpl; lia].
Qed.

Lemma findall_initial : Re.findall initial_re t1 = [ds].
Proof.
  unfold Re.findall.
  rewrite (scan_all_match _ _ _ _ _ _ match_here_initial)
    by (apply Hds).
  f_equal. apply bos_rest_all, rest_shorter.
Qed.

Lemma sub_initial (py : runtime) (ord : str) :
  plain ord ->
  re_sub py initial_re ord t1 = Return (ord ++ 95%N :: rest).
Proof.
  intros Hord. unfold re_sub, Re.sub.
  change (groups_of initial_re) with 0.
  rewrite <- (app_nil_r ord) at 1.
  rewrite parse_plain by assumption.
  cbn [parse_template prepend bind]. rewrite app_nil_r. f_equal.
  rewrite (scan_sub_match _ _ _ _ _ _ _ match_here_initial) by (apply Hds).
  rewrite expand_chars. f_equal.
  apply bos_rest_sub, rest_shorter.
Qed.

End Numbered.

(** A title that does not begin with a digit holds no match of
    ['^[0-9]+_']. *)
Lemma search_unnumbered (t : str) :
  Py.is_digit (hd 0%N t) = false -> Re.search numbered_re t = false.
Proof.
  intros Hd. unfold Re.search, Re.findall.
  destruct t as [|c t]; [reflexivity|]. cbn [hd] in Hd.
  assert (Hm : match_here (length (c :: t)) numbered_re (c :: t) = None).
  { unfold numbered_re. rewrite match_here_bos, Nat.eqb_refl.
    rewrite match_here_plus_lit by (apply ends_digits; reflexivity).
    unfold run_match. cbn [strip_prefix take_while].
    now rewrite in_set_digits, Hd. }
  rewrite (scan_all_miss _ _ _ _ Hm).
  unfold numbered_re. rewrite bos_rest_all by (simpl; lia). reflexivity.
Qed.

Lemma plain_ordinal (n : Z) (ord : str) :
  dict_get Z.eqb ORDINALS n = Return ord -> plain ord.
Proof.
  unfold ORDINALS. cbn [dict_get].
  repeat match goal with
         | |- (if ?b then _ else _) = _ -> _ =>
             destruct b;
             [intros H; injection H as <-; apply plain_test; reflexivity|]
         end.
  discriminate.
Qed.

End BookExtras.

Module PageExtras.

Import Re ReFacts PatternFacts TemplateFacts Chapter Vocabulary Terms.
Import PipelineExtras.
Local Open Scope Z_scope.

Lemma latin_cells (py : runtime) (table : char -> option str) (number : Z)
    (footnotes : list str) (page : soup) :
  Page.get_text_from_soup py table number footnotes page (text "latin")
  = get_text_from_soup py table number footnotes
      (td_texts page (text "bibletd3")).
Proof. reflexivity. Qed.

Lemma english_cells (py : runtime) (table : char -> option str) (number : Z)
    (footnotes : list str) (page : soup) :
  Page.get_text_from_soup py table number footnotes page (text "english")
  = get_text_from_soup py table number footnotes
      (td_texts page (text "bibletd2")).
Proof. reflexivity. Qed.

Lemma removelast_length {A : Type} (l : list A) :
  length (removelast l) = pred (length l).
Proof.
  induction l as [|x l IH]; [reflexivity|].
  destruct l as [|y l]; [reflexivity|].
  cbn [removelast length] in *. now rewrite IH.
Qed.

Lemma index_nat {A : Type} (l : list A) (i : nat) (x : A) :
  nth_error l i = Some x -> Py.index l (Z.of_nat i) = Return x.
Proof.
  intros H. unfold Py.index.
  assert (Hi : (i < length l)%nat) by (apply nth_error_Some; congruence).
  destruct (Z.ltb_spec (Z.of_nat i) 0); [lia|].
  destruct (Z.ltb_spec (Z.of_nat i) 0); [lia|].
  destruct (Z.leb_spec (Z.of_nat (length l)) (Z.of_nat i)); [lia|].
  cbn [orb]. now rewrite Nat2Z.id, H.
Qed.

Lemma skipn_nth {A : Type} (l : list A) (k : nat) (x : A) :
  nth_error l k = Some x -> skipn k l = x :: skipn (S k) l.
Proof.
  revert k. induction l as [|y l IH]; intros [|k] H; try discriminate.
  - injection H as ->. reflexivity.
  - simpl in H. simpl. now apply IH.
Qed.

Lemma map_result_some {B : Type} (g : list N -> B) (l : list (list N)) :
  map_result (fun x => h <- Book.href x ;; Return (g h)) (map Some l)
  = Return (map g l).
Proof.
  induction l as [|x l IH]; [reflexivity|].
  cbn [map map_result Book.href bind]. now rewrite IH.
Qed.

Lemma map_result_none {B : Type} (g : list N -> B) (l : list (option (list N))) :
  In None l ->
  map_result (fun x => h <- Book.href x ;; Return (g h)) l = Raise KeyError.
Proof.
  induction l as [|x l IH]; intros H; [destruct H|].
  cbn [map_result]. destruct x as [h|]; [|reflexivity].
  cbn [Book.href bind]. rewrite IH; [reflexivity|].
  destruct H as [H|H]; [discriminate | assumption].
Qed.

Section Create.

Variables (py : runtime) (table : char -> option str)
          (web : str -> result soup) (title dirname : str).

(** The chapter made from a file name, as number [i + 1]. *)
Definition made (i : nat) (f : str) : result chapter :=
  Page.__init__ py table web (Book.URL_STEM ++ f) f (Z.of_nat i + 1)
    title dirname None.

Lemma create_loop (fs : list str) :
  forall (m k : nat) (acc : list chapter),
    (k + m = length fs)%nat ->
    for_each (map Z.of_nat (seq k m))
      (fun chapters i =>
         url <- Py.index (map (fun f => Book.URL_STEM ++ f) fs) i ;;
         filename <- Py.index fs i ;;
         c <- Page.__init__ py table web url filename (i + 1)
                title dirname None ;;
         Return (chapters ++ [c]))
      acc
    = (cs <- map_result (fun p => made (fst p) (snd p))
               (combine (seq k m) (skipn k fs)) ;;
       Return (acc ++ cs)).
Proof.
  induction m as [|m IH]; intros k acc Hk.
  - cbn [seq map for_each combine map_result bind]. now rewrite app_nil_r.
  - cbn [seq map for_each].
    destruct (nth_error fs k) as [f|] eqn:Ef;
      [|apply nth_error_None in Ef; lia].
    rewrite (index_nat (map (fun f => Book.URL_STEM ++ f) fs) k
               (Book.URL_STEM ++ f))
      by (rewrite nth_error_map, Ef; reflexivity).
    rewrite (index_nat fs k f Ef). cbn [bind].
    rewrite (skipn_nth fs k f Ef). cbn [combine map_result fst snd].
    unfold made at 1.
    destruct (Page.__init__ py table web (Book.URL_STEM ++ f) f
                (Z.of_nat k + 1) title dirname None) as [c|e]; [|reflexivity].
    cbn [bind]. rewrite IH by lia.
    destruct (map_result (fun p => made (fst p) (snd p))
                (combine (seq (S k) m) (skipn (S k) fs))) as [cs|e];
      [|reflexivity].
    cbn [bind]. now rewrite <- app_assoc.
Qed.

End Create.

Lemma map_result_nth {A B : Type} (f : A -> result B) (l : list A)
    (out : list B) :
  map_result f l = Return out ->
  forall i x, nth_error l i = Some x ->
    exists y, nth_error out i = Some y /\ f x = Return y.
Proof.
  revert out. induction l as [|a l IH]; intros out H i x Hx.
  - destruct i; discriminate Hx.
  - cbn [map_result] in H. destruct (f a) as [b|e] eqn:Ea; [|discriminate H].
    cbn [bind] in H. destruct (map_result f l) as [bs|e]; [|discriminate H].
    injection H as <-. destruct i as [|i].
    + injection Hx as <-. exists b. now split.
    + cbn [nth_error] in Hx |- *. now apply (IH bs eq_refl).
Qed.

(** A pass that returns its argument, where it returns, returns the list. *)
Lemma map_result_fixed {A : Type} (f : A -> result A) (g : A -> A)
    (l : list A) (out : list A) :
  map_result (fun x => f (g x)) l = Return out ->
  (forall x, In x l -> forall y, f (g x) = Return y -> y = g x) ->
  map g l = out.
Proof.
  revert out. induction l as [|a l IH]; intros out H Hf.
  - now injection H as <-.
  - cbn [map_result] in H. destruct (f (g a)) as [b|e] eqn:Ea; [|discriminate H].
    cbn [bind] in H.
    destruct (map_result (fun x => f (g x)) l) as [bs|e]; [|discriminate H].
    injection H as <-. cbn [map]. f_equal.
    + symmetry. apply (Hf a); [now left | exact Ea].
    + apply IH; [reflexivity|]. intros x Hx. apply Hf. now right.
Qed.

End PageExtras.

Module ZeroMarker.

Import Re ReFacts PatternFacts TemplateFacts Chapter Vocabulary Terms.
Import FootnoteFacts.

Lemma findall_single (n : nat) (a ds b : str) :
  is_number ds -> bracket_free a -> bracket_free b ->
  scan_all marker_re n 0 (a ++ marker ds ++ b) = [marker ds].
Proof.
  intros Hds Ha Hb.
  assert (Hcopy : forall u v, bracket_free u ->
            scan_all marker_re n 0 (u ++ v) = scan_all marker_re n 0 v).
  { intros u v Hu. apply scan_all_copy. intros u1 c u2 ->.
    rewrite match_here_marker. unfold run_match. cbn [strip_prefix].
    destruct (N.eqb_spec 91 c) as [<-|]; [|reflexivity].
    elim Hu. rewrite in_app_iff. right. now left. }
  rewrite Hcopy by assumption.
  rewrite (scan_all_match _ _ _ _ _ _ (match_here_marker_intro n ds b Hds))
    by discriminate.
  f_equal. rewrite <- (app_nil_r b). now rewrite Hcopy.
Qed.

Lemma singleton_set (f : list str -> list str) (x : str) :
  set_iteration f -> f [x] = [x].
Proof.
  intros Hf. destruct (Hf [x]) as [Hnd Hin].
  destruct (f [x]) as [|y l].
  - destruct (proj2 (Hin x)); now left.
  - assert (y = x) by (destruct (proj1 (Hin y)) as [E|[]]; [now left | congruence]).
    subst y. destruct l as [|z l]; [reflexivity|].
    assert (z = x)
      by (destruct (proj1 (Hin z)) as [E|[]]; [right; now left | congruence]).
    subst z. inversion Hnd as [|? ? Hx _]; subst. elim Hx. now left.
Qed.

Lemma index_last {A : Type} (l : list A) (x : A) :
  Py.index (l ++ [x]) (-1) = Return x.
Proof.
  change (-1)%Z with (-1 - Z.of_nat 0)%Z. rewrite LoopFacts.index_from_end.
  now rewrite rev_app_distr.
Qed.

End ZeroMarker.

Module TextExtras.

Import Re ReFacts PatternFacts TemplateFacts Chapter Vocabulary Terms.
Import ScanExtras VerseExtras PipelineExtras.














Lemma map_result_map {A B C : Type} (f : B -> result C) (h : A -> B)
    (l : list A) :
  map_result f (map h l) = map_result (fun x => f (h x)) l.
Proof.
  induction l as [|x l IH]; [reflexivity|].
  cbn [map map_result]. now rewrite IH.
Qed.




End TextExtras.

(** * More properties of the script *)

Module Extras.

Import Roman RomanFacts RomanExtras.
Import Re ReFacts PatternFacts TemplateFacts Chapter Vocabulary Terms.
Import OccurrenceFacts ScanExtras VerseExtras PipelineExtras LatexifyExtras.
Import AnchorExtras.
Import BookExtras PageExtras ZeroMarker TextExtras.

(** X1.  [number_to_roman] gives different numerals to different integers
    that are not negative: no two chapter numbers share a heading. *)
Theorem number_to_roman_injective (n m : Z) :
  (0 <= n)%Z -> (0 <= m)%Z -> n <> m ->
  number_to_roman n <> number_to_roman m.
Proof.
  intros Hn Hm Hne E.
  pose proof (Claims.roman_value_standard n Hn) as Vn.
  pose proof (Claims.roman_value_standard m Hm) as Vm.
  rewrite <- Claims.number_to_roman_is_standard in Vn, Vm.
  rewrite E in Vn. congruence.
Qed.

Lemma number_to_roman_injective_witness :
  (4 <> 6)%Z /\ number_to_roman 4 <> number_to_roman 6.
Proof.
  split; [lia|].
  apply (number_to_roman_injective 4 6); lia.
Defined.

(** X2.  For every integer, negative ones included, [number_to_roman]
    returns a string of the seven letters m, d, c, l, x, v, i only, with at
    most twelve letters after the "m" of the thousands. *)
Theorem number_to_roman_symbols (n : Z) :
  Forall (fun c => In c (text "mdclxvi")) (number_to_roman n)
  /\ length (number_to_roman n) <= Z.to_nat (n / 1000) + 12.
Proof.
  rewrite number_to_roman_standard. split.
  - repeat (apply Forall_app; split).
    + apply thousands_symbols. simpl. tauto.
    + apply digit_numeral_symbols; repeat constructor; simpl; tauto.
    + apply digit_numeral_symbols; repeat constructor; simpl; tauto.
    + apply digit_numeral_symbols; repeat constructor; simpl; tauto.
  - rewrite !length_app, thousands_length.
    pose proof (digit_numeral_length "c" "d" "m" (n mod 1000 / 100)
                  eq_refl eq_refl eq_refl).
    pose proof (digit_numeral_length "x" "l" "c" (n mod 100 / 10)
                  eq_refl eq_refl eq_refl).
    pose proof (digit_numeral_length "i" "v" "x" (n mod 10)
                  eq_refl eq_refl eq_refl).
    lia.
Qed.

(** X3.  [fix_spacing_around_verse_numbers] never raises, in either
    dialect; what it returns holds no no-break space (U+00A0); and a
    paragraph that holds no no-break space and no two spaces side by side is
    returned as it is. *)
Theorem fix_spacing_normalises (py : runtime) (p : str) :
  exists q,
    fix_spacing_around_verse_numbers py p = Return q
    /\ ~ In 160%N q
    /\ (~ In 160%N p -> single_spaced p = true -> q = p).
Proof.
  exists (halve_spaces (tie_nbsp (tie_numbers p))).
  split; [apply fix_spacing_scan|]. split.
  - apply halve_spaces_free, tie_nbsp_free.
  - intros Hn Hs. rewrite (tie_numbers_single_spaced p Hs).
    rewrite (tie_nbsp_absent p Hn). now apply halve_spaces_single_spaced.
Qed.

(** X4.  After a verse number, the double space of the Latin text and
    the no-break space of the English text come out the same:
    [fix_spacing_around_verse_numbers] returns the same paragraph for a
    number followed by two spaces and for the number followed by U+00A0,
    whatever stands before and after. *)
Theorem fix_spacing_joins_languages (py : runtime) (a ds b : str) :
  ds <> [] ->
  forallb Py.is_digit ds = true ->
  fix_spacing_around_verse_numbers py (a ++ ds ++ text "  " ++ b)
  = fix_spacing_around_verse_numbers py (a ++ ds ++ [160%N] ++ b).
Proof.
  intros Hne Hds. rewrite !fix_spacing_scan. do 2 f_equal.
  apply ties_agree; [assumption|].
  apply Forall_forall. intros c Hc. rewrite in_set_digits.
  rewrite forallb_forall in Hds. now apply Hds.
Qed.

Lemma fix_spacing_joins_languages_witness :
  fix_spacing_around_verse_numbers lenient_runtime
    (text "Et factum est. " ++ text "12" ++ text "  " ++ text "In  diebus")
  = Return (text "Et factum est. 12~In diebus")
  /\ fix_spacing_around_verse_numbers lenient_runtime
       (text "Et factum est. " ++ text "12" ++ [160%N] ++ text "In  diebus")
     = Return (text "Et factum est. 12~In diebus").
Proof.
  assert (E : fix_spacing_around_verse_numbers lenient_runtime
                (text "Et factum est. " ++ text "12" ++ text "  "
                 ++ text "In  diebus")
              = Return (text "Et factum est. 12~In diebus"))
    by (vm_compute; reflexivity).
  split; [exact E|].
  rewrite <- (fix_spacing_joins_languages lenient_runtime
                (text "Et factum est. ") (text "12") (text "In  diebus")
                ltac:(discriminate) eq_refl).
  exact E.
Defined.

(** X5.  [turn_verse_numbers_red] never raises, and running it on its own
    result changes nothing: in what it returns no digit stands right before a
    "~", so no verse number is wrapped a second time. *)
Theorem turn_verse_numbers_red_idempotent (py : runtime) (p : str) :
  exists q,
    turn_verse_numbers_red py p = Return q
    /\ tight q = true
    /\ turn_verse_numbers_red py q = Return q.
Proof.
  exists (redden (length p) p).
  rewrite !Claims.turn_verse_numbers_red_scan.
  destruct (redden_tight (length p) p) as [Ht _].
  split; [reflexivity|]. split; [exact Ht|].
  f_equal. now apply redden_fixed.
Qed.

(** X6.  On an interpreter of the strict dialect (CPython 3.7 and later)
    [get_text_from_soup] never returns: without a cell it raises
    [IndexError], with cells it raises [re.error], since [do_dropcaps]
    raises on every list: its template begins with the unknown escape
    [\l]. *)
Theorem get_text_strict_raises (py : runtime) (table : char -> option str)
    (number : Z) (footnotes cells : list str) :
  escapes py = Strict ->
  get_text_from_soup py table number footnotes cells
  = Raise (match cells with [] => IndexError | _ => ReError end)
  /\ (forall ps lines,
        do_dropcaps py ps lines
        = Raise (match ps with [] => IndexError | _ => ReError end)).
Proof.
  intros Hs. split.
  - now apply get_text_strict.
  - intros ps lines. now apply do_dropcaps_strict.
Qed.

Lemma get_text_strict_raises_witness :
  escapes strict_runtime = Strict
  /\ get_text_from_soup strict_runtime sample_table 1 []
       [text "1  Et factum est"]
     = Raise ReError.
Proof.
  split; [reflexivity|].
  exact (proj1 (get_text_strict_raises strict_runtime sample_table 1 []
                  [text "1  Et factum est"] eq_refl)).
Defined.

(** X7.  [get_text_from_soup] keeps the count of the paragraphs: a list
    it returns has one paragraph for each cell of the page, and is never
    empty. *)
Theorem get_text_keeps_count (py : runtime) (table : char -> option str)
    (number : Z) (footnotes cells out : list str) :
  get_text_from_soup py table number footnotes cells = Return out ->
  length out = length cells /\ out <> [].
Proof.
  intros H. pose proof (get_text_length py table number footnotes cells out H) as E.
  split; [exact E|].
  intros ->. destruct cells; [|discriminate E].
  rewrite get_text_empty in H. discriminate H.
Qed.

Lemma get_text_keeps_count_witness :
  get_text_from_soup lenient_runtime sample_table 2 [text "[1] A note."]
    [text "1  In principio [1]"; text "2  Terra autem"]
  = Return [text "\lettrine[lines=2]{I}{n} principio \\footnote[1]{A note.}";
            text "\\textcolor{benred8}{2}~Terra autem"]
  /\ length [text "\lettrine[lines=2]{I}{n} principio \\footnote[1]{A note.}";
             text "\\textcolor{benred8}{2}~Terra autem"]
     = length [text "1  In principio [1]"; text "2  Terra autem"].
Proof.
  assert (E : get_text_from_soup lenient_runtime sample_table 2
                [text "[1] A note."]
                [text "1  In principio [1]"; text "2  Terra autem"]
              = Return [text "\lettrine[lines=2]{I}{n} principio \\footnote[1]{A note.}";
                        text "\\textcolor{benred8}{2}~Terra autem"])
    by (vm_compute; reflexivity).
  split; [exact E|].
  exact (proj1 (get_text_keeps_count lenient_runtime sample_table 2 _ _ _ E)).
Defined.

(** X8.  [latexify_certain_ones] reads its three table entries before it
    looks at the paragraph: where the table lacks the apostrophe, the
    ellipsis or the grave accent, it raises [KeyError] on every paragraph,
    also on one that holds none of the characters to replace. *)
Theorem latexify_missing_key (py : runtime) (table : char -> option str)
    (p : str) (footnote : bool) :
  table 39%N = None \/ table 8230%N = None \/ table 96%N = None ->
  latexify_certain_ones py table p footnote = Raise KeyError.
Proof.
  intros H. unfold latexify_certain_ones, lookup.
  destruct (table 39%N); [|reflexivity].
  destruct (table 8230%N); [|reflexivity].
  destruct (table 96%N); [|reflexivity].
  destruct H as [H|[H|H]]; discriminate H.
Qed.

Lemma latexify_missing_key_witness :
  (fun k : N => if N.eqb k 39 then Some (text "'") else None) 8230%N = None
  /\ latexify_certain_ones lenient_runtime
       (fun k => if N.eqb k 39 then Some (text "'") else None)
       (text "plain text") false
     = Raise KeyError.
Proof.
  split; [reflexivity|].
  apply (latexify_missing_key lenient_runtime
           (fun k => if N.eqb k 39 then Some (text "'") else None)
           (text "plain text") false).
  right. left. reflexivity.
Defined.

(** X9.  On an interpreter of the strict dialect neither
    [insert_into_template] nor [insert_just_english_into_template] returns,
    whatever the chapter and the template: both heading templates hold the
    unknown escape [\e] of [\end].  So the loop of the main program raises as
    soon as there is a chapter. *)
Theorem compositor_strict_raises (py : runtime) (c : chapter)
    (chapters : list chapter) (template : str) :
  escapes py = Strict ->
  (exists e, insert_into_template py c template = Raise e)
  /\ (exists e, insert_just_english_into_template py c template = Raise e)
  /\ (exists e,
        reverse_chapter_loop (insert_just_english_into_template py)
          (c :: chapters) template = Raise e).
Proof.
  intros Hs.
  split; [now apply insert_into_template_strict|].
  split; [now apply insert_just_english_strict|].
  apply reverse_chapter_loop_raises; [|discriminate].
  intros c' t. now apply insert_just_english_strict.
Qed.

Lemma compositor_strict_raises_witness :
  escapes strict_runtime = Strict
  /\ insert_just_english_into_template strict_runtime
       {| number := 1; footnotes := []; latin_pars := [];
          english_pars := [text "In the beginning"] |}
       (chapter_anchor ++ text "\end{document}")
     = Raise ReError.
Proof.
  split; [reflexivity|].
  destruct (compositor_strict_raises strict_runtime
              {| number := 1; footnotes := []; latin_pars := [];
                 english_pars := [text "In the beginning"] |}
              [] (chapter_anchor ++ text "\end{document}") eq_refl)
    as (_ & [e He] & _).
  rewrite He. f_equal.
  assert (E : insert_just_english_into_template strict_runtime
                {| number := 1; footnotes := []; latin_pars := [];
                   english_pars := [text "In the beginning"] |}
                (chapter_anchor ++ text "\end{document}")
              = Raise ReError) by (vm_compute; reflexivity).
  rewrite E in He. now injection He as <-.
Defined.

(** X10.  [latexify_certain_ones] is a substitution character by
    character, in whatever order the dict is iterated: where the table has
    the three entries, the three templates of line 221 are well-formed and
    stand for the texts [oa], [oe] and [og], and none of these texts holds
    one of the three characters, every U+2019 of the paragraph becomes [oa],
    every U+2026 [oe], every U+2018 [og], and every other character stays. *)
Theorem latexify_substitutes (py : runtime) (table : char -> option str)
    (p : str) (footnote : bool) (a e g oa oe og : str) :
  dict_iteration (dict_items py) ->
  table 39%N = Some a -> table 8230%N = Some e -> table 96%N = Some g ->
  parse_template (escapes py) 0 None (latexify_template footnote a)
  = Return (map TChar oa) ->
  parse_template (escapes py) 0 None
    (latexify_template footnote (Py.strip e ++ text "\\ "))
  = Return (map TChar oe) ->
  parse_template (escapes py) 0 None (latexify_template footnote g)
  = Return (map TChar og) ->
  (forall k, In k [8217%N; 8230%N; 8216%N] -> ~ In k (oa ++ oe ++ og)) ->
  latexify_certain_ones py table p footnote
  = Return (flat_map (special oa oe og) p).
Proof.
  intros Hdict Ta Te Tg Pa Pe Pg Hclean.
  unfold latexify_certain_ones, lookup. rewrite Ta, Te, Tg. cbn [bind].
  set (ones := [(8217%N, a); (8230%N, Py.strip e ++ text "\\ "); (8216%N, g)]).
  assert (Hkeys : NoDup (map fst ones))
    by (simpl; repeat constructor; simpl; intuition discriminate).
  destruct (Hdict ones Hkeys) as [Hnd Hin].
  assert (Hkey : forall item, In item (dict_items py ones) ->
                   In (fst item) [8217%N; 8230%N; 8216%N]).
  { intros item Hi. apply Hin in Hi. simpl in Hi.
    destruct Hi as [<-|[<-|[<-|[]]]]; simpl; tauto. }
  assert (Hout : forall x k, In k [8217%N; 8230%N; 8216%N] ->
                   ~ In k (special oa oe og x)).
  { intros x k Hk Hx. unfold special in Hx.
    destruct (N.eqb_spec x 8217);
      [apply (Hclean k Hk); rewrite !in_app_iff; tauto|].
    destruct (N.eqb_spec x 8230);
      [apply (Hclean k Hk); rewrite !in_app_iff; tauto|].
    destruct (N.eqb_spec x 8216);
      [apply (Hclean k Hk); rewrite !in_app_iff; tauto|].
    destruct Hx as [<-|[]]. simpl in Hk. intuition congruence. }
  rewrite <- (flat_map_unit p) at 1.
  change (fun c : N => [c]) with (subst (special oa oe og) []).
  unfold re_sub.
  rewrite (for_each_subst (escapes py)
             (fun item => latexify_template footnote (snd item))
             (special oa oe og)).
  - f_equal. apply flat_map_pointwise. intros c. unfold subst. cbn [app].
    destruct (existsb (N.eqb c) (map fst (dict_items py ones))) eqn:E;
      [reflexivity|].
    assert (Hc : ~ In c (map fst (dict_items py ones))).
    { intros H. apply existsb_eqb in H. congruence. }
    assert (Hall : forall item, In item ones -> c <> fst item).
    { intros item Hi ->. apply Hc. apply in_map. now apply Hin. }
    unfold special.
    destruct (N.eqb_spec c 8217) as [->|];
      [elim (Hall (8217%N, a)); simpl; tauto|].
    destruct (N.eqb_spec c 8230) as [->|];
      [elim (Hall (8230%N, Py.strip e ++ text "\\ ")); simpl; tauto|].
    destruct (N.eqb_spec c 8216) as [->|];
      [elim (Hall (8216%N, g)); simpl; tauto|].
    reflexivity.
  - clear -Hnd Hin Hkeys.
    assert (Hinj : forall x y, In x (dict_items py ones) ->
                     In y (dict_items py ones) -> fst x = fst y -> x = y).
    { intros x y Hx Hy. apply Hin in Hx, Hy. simpl in Hx, Hy.
      destruct Hx as [<-|[<-|[<-|[]]]]; destruct Hy as [<-|[<-|[<-|[]]]];
        simpl; intros E; try reflexivity; discriminate E. }
    now apply NoDup_map_fst.
  - intros item Hi. apply Hin in Hi. simpl in Hi.
    destruct Hi as [<-|[<-|[<-|[]]]]; simpl; assumption.
  - intros x item Hi. apply Hout. now apply Hkey.
  - intros item Hi H. exact H.
Qed.

Lemma latexify_substitutes_witness :
  latexify_certain_ones lenient_runtime sample_table
    (text "He said" ++ [8230%N; 32%N; 8216%N] ++ text "no" ++ [8217%N]) false
  = Return (text "He said\\ldots\  \\textasciigrave no\\textquotesingle ").
Proof.
  apply (latexify_substitutes lenient_runtime sample_table
           (text "He said" ++ [8230%N; 32%N; 8216%N] ++ text "no" ++ [8217%N])
           false
           (text "\textquotesingle ") (text "\ldots ") (text "\textasciigrave ")
           (text "\\textquotesingle ") (text "\\ldots\ ")
           (text "\\textasciigrave "));
    try reflexivity.
  - apply Claims.identity_dict_iteration.
  - intros k Hk Hin. simpl in Hk.
    destruct Hk as [<-|[<-|[<-|[]]]];
      vm_compute in Hin; intuition discriminate.
Defined.

(** X11.  [insert_just_english_into_template] puts a chapter right after
    the anchor [\chapter*{}], before what stands there already: on an
    interpreter of the lenient dialect, for paragraphs that do not begin with
    a digit and are well-formed templates without group reference, and a
    document that holds the anchor once, the result holds after the anchor
    the heading with the Roman numeral of the chapter number, then the
    paragraphs in their order, each followed by a line feed, then the rest. *)
Theorem english_chapter_inserted (py : runtime) (c : chapter) (pre rest : str) :
  escapes py = Lenient ->
  Forall insertable_line (english_pars c) ->
  positions chapter_anchor (pre ++ chapter_anchor ++ english_chapter c ++ rest)
  = [length pre] ->
  insert_just_english_into_template py c (pre ++ chapter_anchor ++ rest)
  = Return (pre ++ chapter_anchor ++ english_chapter c ++ rest).
Proof.
  intros Hlen Hps Hpos.
  destruct (once_split chapter_anchor _ _ ltac:(discriminate) Hpos) as [Hpre Habs].
  now apply english_chapter_put.
Qed.

Lemma english_chapter_inserted_witness :
  insert_just_english_into_template lenient_runtime
    {| number := 14; footnotes := []; latin_pars := [];
       english_pars := [text "\\textcolor{benred8}{1}~First."; text "Second."] |}
    (text "\begin{document}" ++ chapter_anchor ++ text "\end{document}")
  = Return (text "\begin{document}" ++ chapter_anchor
            ++ text "\begin{large}\begin{center}\textsc{Chapter xiv}\end{center}\end{large}"
            ++ [LF] ++ text "\textcolor{benred8}{1}~First." ++ [LF]
            ++ text "Second." ++ [LF] ++ text "\end{document}").
Proof.
  apply (english_chapter_inserted lenient_runtime
           {| number := 14; footnotes := []; latin_pars := [];
              english_pars := [text "\\textcolor{benred8}{1}~First."; text "Second."] |}
           (text "\begin{document}") (text "\end{document}")).
  - reflexivity.
  - repeat constructor.
  - vm_compute. reflexivity.
Defined.

(** X12.  The main program, lines 270-277, on an interpreter of the
    lenient dialect.  Take a non-empty [BOOKS] whose first book has a title
    that is a well-formed template without group reference, standing for the
    text [shown], and chapters whose English paragraphs do not begin with a
    digit and are well-formed templates without group reference; and a
    template [pre ++ chapter_anchor ++ post] such that the document with the
    chapters put in after the anchor holds the anchor [\chapter*{}] once and
    the text "chapter*{" nowhere but in the anchor.  Then the file written is
    named after the book's directory, with ".tex", and holds the template
    with [shown] inside the braces of the anchor and, after the anchor, the
    chapters of the first book in ascending order, each as its heading and
    its rendered English paragraphs. *)
Theorem main_composes (py : runtime) (b : Main.book) (others : list Main.book)
    (pre post shown : str) :
  escapes py = Lenient ->
  Forall (fun c => Forall insertable_line (english_pars c)) (Main.chapters b) ->
  literal 0 (Main.title b) shown ->
  positions chapter_anchor
    (pre ++ chapter_anchor ++ flat_map english_chapter (Main.chapters b) ++ post)
  = [length pre] ->
  positions (text "chapter*{")
    (pre ++ chapter_anchor ++ flat_map english_chapter (Main.chapters b) ++ post)
  = [S (length pre)] ->
  Main.main py (b :: others) (pre ++ chapter_anchor ++ post)
  = Return (Main.dirname b ++ text ".tex",
            pre ++ text "\chapter*{" ++ shown ++ text "}" ++ [LF; LF]
            ++ flat_map english_chapter (Main.chapters b) ++ post).
Proof.
  intros Hlen Hcs Htitle Hpos Hpos2. unfold Main.main.
  change (Py.index (b :: others) 0) with (Return b). cbn [bind].
  destruct (once_split chapter_anchor _ _ ltac:(discriminate) Hpos) as [Hpre Habs].
  unfold reverse_chapter_loop.
  rewrite (LoopFacts.for_each_reversed (Main.chapters b)
             (fun output c => insert_just_english_into_template py c output)).
  rewrite (english_chapters_put py pre Hlen Hpre) by assumption.
  cbn [bind].
  set (body := flat_map english_chapter (Main.chapters b) ++ post) in *.
  assert (Edoc : pre ++ chapter_anchor ++ body
                 = (pre ++ [92%N]) ++ text "chapter*{"
                   ++ (text "}" ++ [LF; LF] ++ body)).
  { rewrite <- app_assoc. reflexivity. }
  rewrite Edoc in Hpos2 |- *.
  replace (S (length pre)) with (length (pre ++ [92%N])) in Hpos2
    by (rewrite length_app; simpl; lia).
  destruct (once_split (text "chapter*{") _ _ ltac:(discriminate) Hpos2)
    as [Hpre2 Habs2].
  unfold re_sub, Re.sub. rewrite Hlen.
  change (groups_of Book.title_re) with 0%nat.
  rewrite (parse_plain Lenient 0 (text "chapter*{") (Main.title b))
    by (apply plain_test; reflexivity).
  unfold literal in Htitle. rewrite Htitle. cbn [prepend bind].
  rewrite (scan_once Book.title_re (text "chapter*{") []);
    try assumption; [|discriminate | intros n s; apply match_here_lit].
  rewrite <- map_app, expand_chars.
  do 2 f_equal. rewrite <- !app_assoc. reflexivity.
Qed.

Lemma main_composes_witness :
  Main.main lenient_runtime
    [{| Main.title := text "1 Chronicles";
        Main.dirname := text "first_chronicles";
        Main.chapters :=
          [{| number := 1; footnotes := []; latin_pars := [];
              english_pars := [text "\lettrine[lines=3]{A}{dam}; Seth."] |};
           {| number := 2; footnotes := []; latin_pars := [];
              english_pars := [text "\\textcolor{benred8}{1}~Ruben."] |}] |}]
    (text "\begin{document}" ++ chapter_anchor ++ text "\end{document}")
  = Return (text "first_chronicles.tex",
            text "\begin{document}" ++ text "\chapter*{1 Chronicles}" ++ [LF; LF]
            ++ text "\begin{large}\begin{center}\textsc{Chapter i}\end{center}\end{large}"
            ++ [LF] ++ text "\lettrine[lines=3]{A}{dam}; Seth." ++ [LF]
            ++ text "\begin{large}\begin{center}\textsc{Chapter ii}\end{center}\end{large}"
            ++ [LF] ++ text "\textcolor{benred8}{1}~Ruben." ++ [LF]
            ++ text "\end{document}").
Proof.
  apply (main_composes lenient_runtime
           {| Main.title := text "1 Chronicles";
              Main.dirname := text "first_chronicles";
              Main.chapters :=
                [{| number := 1; footnotes := []; latin_pars := [];
                    english_pars := [text "\lettrine[lines=3]{A}{dam}; Seth."] |};
                 {| number := 2; footnotes := []; latin_pars := [];
                    english_pars := [text "\\textcolor{benred8}{1}~Ruben."] |}] |}
           [] (text "\begin{document}") (text "\end{document}")
           (text "1 Chronicles")).
  - reflexivity.
  - repeat constructor.
  - reflexivity.
  - vm_compute. reflexivity.
  - vm_compute. reflexivity.
Defined.

(** X13.  In [insert_just_english_into_template] nothing stands between the
    [\1] of the template and the paragraph: where the last English paragraph
    begins with one digit that no digit follows, the two are read as a
    reference to a group from 10 to 19, and the call raises [re.error], in
    either dialect and whatever the template. *)
Theorem english_paragraph_digit_raises (py : runtime) (c : chapter)
    (pars : list str) (d : char) (rest template : str) :
  english_pars c = pars ++ [d :: rest] ->
  Py.is_digit d = true ->
  Py.is_digit (hd 0%N rest) = false ->
  insert_just_english_into_template py c template = Raise ReError.
Proof.
  intros Hpars Hd Hrest. rewrite insert_just_english_heading.
  rewrite (LoopFacts.for_each_reversed (english_pars c)
             (fun template english =>
                re_sub py (anchor_re chapter_anchor)
                  (text "\1" ++ english ++ [LF]) template)).
  rewrite Hpars, rev_app_distr. cbn [rev app for_each].
  unfold re_sub at 1, Re.sub.
  change (groups_of (anchor_re chapter_anchor)) with 1%nat.
  match goal with
  | |- context [parse_template ?dl 1 None ?t] =>
      assert (E : parse_template dl 1 None t = Raise ReError)
  end.
  { change (text "\1" ++ d :: rest ++ [LF])
      with (92%N :: 49%N :: d :: rest ++ [LF]).
    assert (Hoct : forall x, Py.is_digit x = false -> is_octdigit x = false).
    { intros x Hx. unfold is_octdigit, Py.is_digit in *.
      destruct (48 <=? x)%N; [|reflexivity]. simpl in *.
      destruct (N.leb_spec x 55); [|reflexivity].
      destruct (N.leb_spec x 57); [discriminate | lia]. }
    assert (Hg : forall r, emit_group 1 (10 * digit_value 49 + digit_value d) r
                           = Raise ReError).
    { intros r. unfold emit_group.
      change (digit_value 49) with 1. 
      destruct (Nat.ltb_spec 1 (10 * 1 + digit_value d)); [reflexivity | lia]. }
    remember (rest ++ [LF]) as tail eqn:Et.
    cbn [parse_template N.eqb Pos.eqb negb].
    change (Py.is_digit 49) with true. cbv iota. rewrite Hd.
    destruct tail as [|y tail]; [apply Hg|].
    assert (Hy : is_octdigit y = false).
    { apply Hoct. destruct rest as [|x rest]; cbn [app] in Et.
      - injection Et as -> _. reflexivity.
      - injection Et as -> _. exact Hrest. }
    rewrite Hy, andb_false_r. apply Hg. }
  rewrite E. reflexivity.
Qed.

Lemma english_paragraph_digit_raises_witness :
  insert_just_english_into_template lenient_runtime
    {| number := 2; footnotes := []; latin_pars := [];
       english_pars := [text "First."; text "2 Kings has it."] |}
    (chapter_anchor ++ text "\end{document}")
  = Raise ReError.
Proof.
  apply (english_paragraph_digit_raises lenient_runtime
           {| number := 2; footnotes := []; latin_pars := [];
              english_pars := [text "First."; text "2 Kings has it."] |}
           [text "First."] 50%N (text " Kings has it.")
           (chapter_anchor ++ text "\end{document}"));
    reflexivity.
Defined.

Lemma title_numbered_steps (py : runtime) (lower : str -> str) (ds rest : str)
    (v : Z) :
  Py.int_of_str ds = Return v ->
  Book.title_to_dirname py lower (ds ++ text " " ++ rest)
  = (ord <- dict_get Z.eqb Book.ORDINALS v ;;
     Return (lower (ord ++ text "_" ++ underscored rest))).
Proof.
  intros Hv.
  destruct (FootnoteFacts.int_of_str_number ds v Hv) as [Hds _].
  unfold Book.title_to_dirname. rewrite underscored_sub. cbn [bind].
  rewrite underscored_app, (underscored_number ds Hds).
  change (underscored (text " " ++ rest)) with (95%N :: underscored rest).
  unfold Re.search. rewrite (findall_numbered ds (underscored rest) Hds).
  rewrite (findall_initial ds (underscored rest) Hds).
  change (Py.index [ds] 0) with (Return ds). cbn [bind]. rewrite Hv. cbn [bind].
  destruct (dict_get Z.eqb Book.ORDINALS v) as [ord|e] eqn:Eo; [|reflexivity].
  cbn [bind].
  rewrite (sub_initial ds (underscored rest) Hds py ord (plain_ordinal v ord Eo)).
  reflexivity.
Qed.

(** X14.  [title_to_dirname] on a title that begins with a number from 1
    to 5 and a space: the number is replaced by its ordinal word, every
    space of the title becomes an underscore, and the whole is lowered. *)
Theorem title_to_dirname_numbered (py : runtime) (lower : str -> str)
    (ds rest : str) (v : Z) (ord : str) :
  Py.int_of_str ds = Return v ->
  dict_get Z.eqb Book.ORDINALS v = Return ord ->
  Book.title_to_dirname py lower (ds ++ text " " ++ rest)
  = Return (lower (ord ++ text "_" ++ underscored rest)).
Proof.
  intros Hv Hord. rewrite (title_numbered_steps py lower ds rest v Hv).
  now rewrite Hord.
Qed.

Lemma title_to_dirname_numbered_witness :
  Book.title_to_dirname lenient_runtime ascii_lower
    (text "1" ++ text " " ++ text "Maccabees")
  = Return (text "first_maccabees").
Proof.
  apply (title_to_dirname_numbered lenient_runtime ascii_lower
           (text "1") (text "Maccabees") 1 (text "First"));
    reflexivity.
Defined.

(** X15.  [title_to_dirname] on a title that begins with a number and a
    space, where the number is 0 or greater than 5: the dict [ORDINALS] has
    no such key, and the call raises [KeyError]. *)
Theorem title_to_dirname_no_ordinal (py : runtime) (lower : str -> str)
    (ds rest : str) (v : Z) :
  Py.int_of_str ds = Return v ->
  (v < 1 \/ 5 < v)%Z ->
  Book.title_to_dirname py lower (ds ++ text " " ++ rest) = Raise KeyError.
Proof.
  intros Hv Hrange. rewrite (title_numbered_steps py lower ds rest v Hv).
  unfold Book.ORDINALS. cbn [dict_get].
  repeat match goal with
         | |- context [Z.eqb ?k v] =>
             destruct (Z.eqb_spec k v); [lia|]
         end.
  reflexivity.
Qed.

Lemma title_to_dirname_no_ordinal_witness :
  Book.title_to_dirname lenient_runtime ascii_lower
    (text "6" ++ text " " ++ text "Ezra")
  = Raise KeyError.
Proof.
  apply (title_to_dirname_no_ordinal lenient_runtime ascii_lower
           (text "6") (text "Ezra") 6); [reflexivity | lia].
Defined.

(** X16.  [title_to_dirname] on a title that does not begin with a digit:
    every space becomes an underscore, and the whole is lowered; the call
    never raises. *)
Theorem title_to_dirname_unnumbered (py : runtime) (lower : str -> str)
    (title : str) :
  Py.is_digit (hd 0%N title) = false ->
  Book.title_to_dirname py lower title = Return (lower (underscored title)).
Proof.
  intros Hd. unfold Book.title_to_dirname. rewrite underscored_sub.
  cbn [bind]. rewrite search_unnumbered; [reflexivity|].
  destruct title as [|c t]; [reflexivity|]. cbn [hd underscored map] in *.
  destruct (N.eqb_spec c 32); [reflexivity | exact Hd].
Qed.

Lemma title_to_dirname_unnumbered_witness :
  Book.title_to_dirname strict_runtime ascii_lower (text "Song of Songs")
  = Return (text "song_of_songs").
Proof.
  apply (title_to_dirname_unnumbered strict_runtime ascii_lower
           (text "Song of Songs")).
  reflexivity.
Defined.

(** X17.  The chapters of a book follow the links of its start page: where
    every link has its [href], [create_chapters] on the result of
    [get_chapter_urls] makes one chapter more than there are links, the
    first from the start file and each further one from the [href] of its
    link without its first two characters, each fetched from [URL_STEM] and
    its file name, and numbered from 1 in this order; no subscript of the
    loop is out of range. *)
Theorem chapters_follow_links (py : runtime) (table : char -> option str)
    (web : str -> result soup) (start_filename title dirname : str)
    (page : soup) (hrefs : list str) :
  chapter_links page = map Some hrefs ->
  (cu <- Book.get_chapter_urls (Book.URL_STEM ++ start_filename)
           start_filename page ;;
   Book.create_chapters py table web (Book.get_number_of_chapters page) cu
     title dirname)
  = map_result
      (fun p => Page.__init__ py table web (Book.URL_STEM ++ snd p) (snd p)
                  (Z.of_nat (fst p) + 1) title dirname None)
      (combine (seq 0 (S (length hrefs)))
         (start_filename :: map (skipn 2) hrefs)).
Proof.
  intros Hlinks. unfold Book.get_chapter_urls, Book.get_number_of_chapters.
  rewrite Hlinks, !map_result_some. cbn [bind].
  unfold Book.create_chapters, range. cbn [Book.urls Book.filenames].
  rewrite length_map.
  replace (Z.to_nat (Z.of_nat (length hrefs) + 1)) with (S (length hrefs)) by lia.
  set (fs := start_filename :: map (skipn 2) hrefs).
  replace ([Book.URL_STEM ++ start_filename]
           ++ map (fun h => Book.URL_STEM ++ skipn 2 h) hrefs)
    with (map (fun f => Book.URL_STEM ++ f) fs)
    by (unfold fs; cbn [map app]; now rewrite map_map).
  change ([start_filename] ++ map (skipn 2) hrefs) with fs.
  rewrite (create_loop py table web title dirname fs (S (length hrefs)) 0 [])
    by (unfold fs; simpl; now rewrite length_map).
  rewrite skipn_O. unfold made.
  destruct (map_result _ (combine (seq 0 (S (length hrefs))) fs)); reflexivity.
Qed.

Lemma chapters_follow_links_witness :
  (cu <- Book.get_chapter_urls (Book.URL_STEM ++ text "1ch001.htm")
           (text "1ch001.htm")
           {| td_texts := fun _ => []; ul_paragraphs := [];
              chapter_links := [Some (text "../1ch002.htm")] |} ;;
   Book.create_chapters lenient_runtime sample_table
     (fun _ => Return sample_page)
     (Book.get_number_of_chapters
        {| td_texts := fun _ => []; ul_paragraphs := [];
           chapter_links := [Some (text "../1ch002.htm")] |}) cu
     (text "1 Chronicles") (text "first_chronicles"))
  = map_result
      (fun p => Page.__init__ lenient_runtime sample_table
                  (fun _ => Return sample_page)
                  (Book.URL_STEM ++ snd p) (snd p) (Z.of_nat (fst p) + 1)
                  (text "1 Chronicles") (text "first_chronicles") None)
      (combine (seq 0 2) [text "1ch001.htm"; text "/1ch002.htm"]).
Proof.
  apply (chapters_follow_links lenient_runtime sample_table
           (fun _ => Return sample_page) (text "1ch001.htm")
           (text "1 Chronicles") (text "first_chronicles")
           {| td_texts := fun _ => []; ul_paragraphs := [];
              chapter_links := [Some (text "../1ch002.htm")] |}
           [text "../1ch002.htm"]).
  reflexivity.
Defined.

(** X18.  A chapter link without [href] makes [get_chapter_urls] raise
    [KeyError], whatever the other links are. *)
Theorem link_without_href (start_url start_filename : str) (page : soup) :
  In None (chapter_links page) ->
  Book.get_chapter_urls start_url start_filename page = Raise KeyError.
Proof.
  intros H. unfold Book.get_chapter_urls.
  now rewrite (map_result_none _ _ H).
Qed.

Lemma link_without_href_witness :
  Book.get_chapter_urls (text "u") (text "f")
    {| td_texts := fun _ => []; ul_paragraphs := [];
       chapter_links := [Some (text "../1ch002.htm"); None] |}
  = Raise KeyError.
Proof.
  apply (link_without_href (text "u") (text "f")
           {| td_texts := fun _ => []; ul_paragraphs := [];
              chapter_links := [Some (text "../1ch002.htm"); None] |}).
  simpl. tauto.
Defined.

(** X19.  [get_footnotes_from_soup] reads the first footnote list of the
    page only and leaves out its last paragraph.  For a page whose first
    list is [init ++ [closing]], a list of footnotes it returns has one
    footnote for each paragraph of [init], in the same order, each what
    [latexify_certain_ones] in footnote mode returns for the stripped
    paragraph; [closing] and the other lists play no part.  Where the dict
    iterates over its items as written and no stripped paragraph holds
    U+2018, U+2019 or U+2026, the footnotes are the stripped paragraphs.  A
    page without a footnote list makes it raise [IndexError], and a first
    list without paragraphs gives no footnote. *)
Theorem footnotes_drop_last (py : runtime) (table : char -> option str)
    (page : soup) (init : list str) (closing : str) (others : list (list str))
    (fs : list str) :
  ul_paragraphs page = (init ++ [closing]) :: others ->
  Page.get_footnotes_from_soup py table page = Return fs ->
  length fs = length init
  /\ (forall i p,
        nth_error init i = Some p ->
        exists f,
          nth_error fs i = Some f
          /\ latexify_certain_ones py table (Py.strip p) true = Return f)
  /\ (dict_iteration (dict_items py) ->
      Forall (fun p => ~ In 8217%N (Py.strip p) /\ ~ In 8216%N (Py.strip p)
                       /\ ~ In 8230%N (Py.strip p)) init ->
      fs = map Py.strip init)
  /\ (forall td links,
        Page.get_footnotes_from_soup py table
          {| td_texts := td; ul_paragraphs := []; chapter_links := links |}
        = Raise IndexError)
  /\ (forall td links rest,
        Page.get_footnotes_from_soup py table
          {| td_texts := td; ul_paragraphs := [] :: rest;
             chapter_links := links |}
        = Return []).
Proof.
  unfold Page.get_footnotes_from_soup. intros -> H.
  change (Py.index ((init ++ [closing]) :: others) 0)
    with (Return (init ++ [closing])) in H.
  cbn [bind] in H. rewrite removelast_last, map_result_map in H.
  split; [|split; [|split; [|split]]].
  - apply map_result_length in H. exact H.
  - intros i p Hp. exact (map_result_nth _ _ _ H i p Hp).
  - intros Hdict Hq. symmetry.
    rewrite <- (map_result_fixed
                  (fun x => latexify_certain_ones py table x true) Py.strip
                  init fs H); [reflexivity|].
    intros p Hin y Hy. rewrite Forall_forall in Hq.
    destruct (Hq p Hin) as (H1 & H2 & H3).
    destruct (Claims.latexify_absent py table (Py.strip p) true Hdict H1 H2 H3)
      as [E | [e E]]; rewrite E in Hy; [now injection Hy | discriminate Hy].
  - reflexivity.
  - reflexivity.
Qed.

Lemma footnotes_drop_last_witness :
  Page.get_footnotes_from_soup lenient_runtime sample_table sample_page
  = Return [text "[1] A note."]
  /\ [text "[1] A note."] = map Py.strip [text "[1] A note."].
Proof.
  assert (E : Page.get_footnotes_from_soup lenient_runtime sample_table
                sample_page = Return [text "[1] A note."])
    by (vm_compute; reflexivity).
  split; [exact E|].
  refine (proj1 (proj2 (proj2
            (footnotes_drop_last lenient_runtime sample_table sample_page
               [text "[1] A note."] (text "Copyright") []
               [text "[1] A note."] eq_refl E))) _ _).
  - apply Claims.identity_dict_iteration.
  - repeat constructor; vm_compute; intuition discriminate.
Defined.

(** X20.  A chapter that [Chapter.__init__] returns was made from the
    soup it was given or, without one, from the page fetched from its URL;
    it has the number it was given and one paragraph for each cell of that
    page, in Latin (class "bibletd3") and in English (class "bibletd2"); the
    page had a footnote list and at least one cell of each language, since
    otherwise the construction raises. *)
Theorem chapter_of_page (py : runtime) (table : char -> option str)
    (web : str -> result soup) (url filename : str) (number : Z)
    (book_title book_dirname : str) (given : option soup) (c : chapter) :
  Page.__init__ py table web url filename number book_title book_dirname given
  = Return c ->
  exists page,
    (given = Some page \/ (given = None /\ web url = Return page))
    /\ Chapter.number c = number
    /\ length (latin_pars c) = length (td_texts page (text "bibletd3"))
    /\ length (english_pars c) = length (td_texts page (text "bibletd2"))
    /\ td_texts page (text "bibletd3") <> []
    /\ td_texts page (text "bibletd2") <> []
    /\ ul_paragraphs page <> [].
Proof.
  unfold Page.__init__. intros H.
  destruct (match given with
            | Some page => Return page
            | None => web url
            end) as [page|e] eqn:Ep; [|discriminate H].
  exists page. split.
  { destruct given as [p|]; [left; congruence | right; now split]. }
  cbn [bind] in H.
  destruct (Page.get_footnotes_from_soup py table page) as [fs|e] eqn:Ef;
    [|discriminate H].
  cbn [bind] in H. rewrite latin_cells, english_cells in H.
  destruct (get_text_from_soup py table number fs
              (td_texts page (text "bibletd3"))) as [lat|e] eqn:El;
    [|discriminate H].
  cbn [bind] in H.
  destruct (get_text_from_soup py table number fs
              (td_texts page (text "bibletd2"))) as [eng|e] eqn:Ee;
    [|discriminate H].
  cbn [bind] in H. injection H as <-. cbn [Chapter.number latin_pars english_pars].
  split; [reflexivity|].
  split; [eapply get_text_length; eassumption|].
  split; [eapply get_text_length; eassumption|].
  split; [intros E; rewrite E, get_text_empty in El; discriminate El|].
  split; [intros E; rewrite E, get_text_empty in Ee; discriminate Ee|].
  intros E. unfold Page.get_footnotes_from_soup in Ef. rewrite E in Ef.
  discriminate Ef.
Qed.

Lemma chapter_of_page_witness :
  Page.__init__ lenient_runtime sample_table (fun _ => Return sample_page)
    (text "u") (text "f") 2 (text "t") (text "d") None
  = Return {| number := 2; footnotes := [text "[1] A note."];
              latin_pars := [text "\lettrine[lines=2]{I}{n} principio \\footnote[1]{A note.}"];
              english_pars := [text "\lettrine[lines=2]{I}{n} the beginning"] |}
  /\ exists page,
       (@None soup = Some page
        \/ (@None soup = None
            /\ (fun _ : list N => Return sample_page) (text "u") = Return page))
       /\ 2%Z = 2%Z
       /\ length [text "\lettrine[lines=2]{I}{n} principio \\footnote[1]{A note.}"]
          = length (td_texts page (text "bibletd3"))
       /\ length [text "\lettrine[lines=2]{I}{n} the beginning"]
          = length (td_texts page (text "bibletd2"))
       /\ td_texts page (text "bibletd3") <> []
       /\ td_texts page (text "bibletd2") <> []
       /\ ul_paragraphs page <> [].
Proof.
  assert (E : Page.__init__ lenient_runtime sample_table
                (fun _ => Return sample_page)
                (text "u") (text "f") 2 (text "t") (text "d") None
              = Return {| number := 2; footnotes := [text "[1] A note."];
                          latin_pars := [text "\lettrine[lines=2]{I}{n} principio \\footnote[1]{A note.}"];
                          english_pars := [text "\lettrine[lines=2]{I}{n} the beginning"] |})
    by (vm_compute; reflexivity).
  split; [exact E|].
  exact (chapter_of_page lenient_runtime sample_table
           (fun _ => Return sample_page) (text "u") (text "f") 2
           (text "t") (text "d") None _ E).
Defined.

(** X21.  On an interpreter of the strict dialect [Chapter.__init__]
    never returns, with or without a soup, and so [create_chapters] raises
    for every start page: it always makes a first chapter, and the text
    extraction of that chapter raises if nothing did before. *)
Theorem book_strict_raises (py : runtime) (table : char -> option str)
    (web : str -> result soup) (start_url start_filename title dirname : str)
    (page : soup) :
  escapes py = Strict ->
  (forall url filename number given,
     exists e,
       Page.__init__ py table web url filename number title dirname given
       = Raise e)
  /\ (exists e,
        (cu <- Book.get_chapter_urls start_url start_filename page ;;
         Book.create_chapters py table web
           (Book.get_number_of_chapters page) cu title dirname) = Raise e).
Proof.
  intros Hs.
  assert (Hinit : forall url filename number given,
            exists e,
              Page.__init__ py table web url filename number title dirname given
              = Raise e).
  { intros url filename n given. unfold Page.__init__.
    destruct (match given with
              | Some page => Return page
              | None => web url
              end) as [p|e]; [|now exists e].
    cbn [bind].
    destruct (Page.get_footnotes_from_soup py table p) as [fs|e];
      [|now exists e].
    cbn [bind]. rewrite latin_cells, (get_text_strict py table n fs _ Hs).
    eexists. reflexivity. }
  split; [exact Hinit|].
  destruct (Book.get_chapter_urls start_url start_filename page) as [cu|e];
    [|now exists e].
  cbn [bind]. unfold Book.create_chapters, Book.get_number_of_chapters, range.
  replace (Z.to_nat (Z.of_nat (length (chapter_links page)) + 1))
    with (S (length (chapter_links page))) by lia.
  cbn [seq map for_each].
  destruct (Py.index (Book.urls cu) (Z.of_nat 0)) as [url|e]; [|now exists e].
  cbn [bind].
  destruct (Py.index (Book.filenames cu) (Z.of_nat 0)) as [f|e]; [|now exists e].
  cbn [bind].
  destruct (Hinit url f (Z.of_nat 0 + 1)%Z None) as [e ->]. now exists e.
Qed.

Lemma book_strict_raises_witness :
  escapes strict_runtime = Strict
  /\ exists e,
       Page.__init__ strict_runtime sample_table (fun _ => Return sample_page)
         (text "u") (text "f") 1 (text "t") (text "d") (Some sample_page)
       = Raise e.
Proof.
  split; [reflexivity|].
  exact (proj1 (book_strict_raises strict_runtime sample_table
                  (fun _ => Return sample_page) (text "u") (text "f")
                  (text "t") (text "d") sample_page eq_refl)
           (text "u") (text "f") 1%Z (Some sample_page)).
Defined.

(** X22.  The marker "[0]" is given the last footnote: the subscript
    [footnote_number-1] is -1, which counts from the end.  For a paragraph
    with no other bracket and a last footnote "[k] " followed by a
    bracket-free template that stands for the text [body],
    [add_footnotes_to_text] puts the directive with [body] in place of the
    marker. *)
Theorem marker_zero_takes_last_note (py : runtime) (others : list str)
    (k tpl body a b : str) :
  set_iteration (list_of_set py) ->
  bracket_free a -> bracket_free b ->
  is_number k -> bracket_free tpl ->
  stands_for (escapes py) tpl body ->
  add_footnotes_to_text py (others ++ [text "[" ++ k ++ text "] " ++ tpl])
    (a ++ text "[0]" ++ b)
  = Return (a ++ text "\\footnote[0]{" ++ body ++ text "}" ++ b).
Proof.
  intros Hset Ha Hb Hk Htpl Hst.
  assert (Hz : is_number (text "0"))
    by (split; [discriminate | repeat constructor]).
  change (text "[0]") with (FootnoteFacts.marker (text "0")).
  pose proof (findall_single (length (a ++ FootnoteFacts.marker (text "0") ++ b))
                a (text "0") b Hz Ha Hb) as Hfind.
  rewrite (FootnoteFacts.add_footnotes_loop py _ _ (FootnoteFacts.marker (text "0")))
    by (unfold Re.findall; rewrite Hfind; now left).
  unfold Re.findall. rewrite Hfind, (singleton_set _ _ Hset).
  cbn [for_each].
  rewrite FootnoteFacts.splice_footnote_marker by assumption.
  change (FootnoteFacts.decimal (text "0") - 1)%Z with (-1)%Z.
  rewrite index_last. cbn [bind].
  rewrite FootnoteFacts.note_body_prefixed by assumption.
  unfold stands_for in Hst. rewrite Hst. cbn [bind]. f_equal.
  rewrite FootnoteFacts.scan_found_copy by assumption. f_equal.
  rewrite FootnoteFacts.scan_found_hit.
  rewrite FootnoteFacts.scan_found_plain by assumption.
  unfold FootnoteFacts.footnote_items.
  rewrite !expand_app, !expand_chars. cbn [expand flat_map nth app].
  unfold FootnoteFacts.marker.
  repeat (rewrite <- ?app_assoc; cbn [app]). reflexivity.
Qed.

Lemma marker_zero_takes_last_note_witness :
  add_footnotes_to_text lenient_runtime
    ([text "[1] First note."] ++ [text "[" ++ text "2" ++ text "] " ++ text "Second note."])
    (text "Lorem " ++ text "[0]" ++ text " ipsum.")
  = Return (text "Lorem " ++ text "\\footnote[0]{" ++ text "Second note."
            ++ text "}" ++ text " ipsum.").
Proof.
  apply (marker_zero_takes_last_note lenient_runtime [text "[1] First note."]
           (text "2") (text "Second note.") (text "Second note.")
           (text "Lorem ") (text " ipsum.")).
  - apply Claims.nodup_set_iteration.
  - apply FootnoteFacts.bracket_free_test. reflexivity.
  - apply FootnoteFacts.bracket_free_test. reflexivity.
  - apply FootnoteFacts.number_test. reflexivity.
  - apply FootnoteFacts.bracket_free_test. reflexivity.
  - reflexivity.
Defined.



End Extras.
